(** * rat_king_parser: the configuration locator and decoder

    A shallow embedding of [RATConfigParser]
    (src/rat_king_parser/config_parser/rat_config_parser.py) and the
    properties of its location, decoding and decryptor-selection loops.

    The parser object is split in two: the attributes that never change
    after construction ([_dnpp], [remap_config],
    [preserve_obfuscated_keys]) are arguments of the methods, and the
    attributes that the methods assign ([report],
    [_incompatible_decryptors], [_decryptor]) are the fields of the
    record [parser], threaded through a state-and-exception monad in which
    a raise keeps the assignments made before it, as in Python. *)

From Stdlib Require Import List ZArith NArith Bool Lia String Ascii Strings.Byte.
From Stdlib Require Import Sorting.Sorted Sorting.Permutation DecimalString.
From Stdlib Require Import DecimalPos DecimalZ.
Import ListNotations.
Open Scope Z_scope.

(** ** Python values *)

(** A [str] is its sequence of code points, a [bytes] its sequence of
    bytes. *)
Definition str := list N.
Definition bytes := list byte.

(** An ASCII literal as a [str]. *)
Definition lit (s : string) : str :=
  map N_of_ascii (list_ascii_of_string s).

(** [str.isascii()]: every code point is below U+0080 (true of the empty
    string). *)
Definition isascii (s : str) : bool := forallb (fun c => (c <? 128)%N) s.

Fixpoint str_eqb (a b : str) : bool :=
  match a, b with
  | [], [] => true
  | x :: a', y :: b' => (x =? y)%N && str_eqb a' b'
  | _, _ => false
  end.

(** [str(n)] for an integer, as used by f-strings. *)
Definition str_of_int (n : Z) : str := lit (NilZero.string_of_int (Z.to_int n)).

Definition hex_digit (d : N) : N :=
  if (d <? 10)%N then (48 + d)%N else (87 + d)%N.

(** [bytes.hex()]: two lower-case hexadecimal digits per byte. *)
Definition hex (b : bytes) : str :=
  flat_map (fun x => let n := Byte.to_N x in
                     [hex_digit (n / 16)%N; hex_digit (n mod 16)%N]) b.

(** The values a configuration holds. *)
Inductive pyval :=
| VNone
| VBool (b : bool)
| VInt (z : Z)
| VStr (s : str)
| VBytes (b : bytes).

(** ** Insertion-ordered dictionaries

    A Python [dict] keeps its keys in insertion order, and several methods
    of the parser depend on that order, so a dictionary is the list of its
    items.  Assigning to a key that is present replaces the value where
    the key stands; assigning to a new key appends it. *)

Class Key (K : Type) := { key_eqb : K -> K -> bool }.

(** The comparison of keys decides their equality. *)
Class KeyLaws (K : Type) `{Key K} := {
  key_eqb_eq : forall a b : K, key_eqb a b = true <-> a = b
}.

#[export] Instance Key_Z : Key Z := {| key_eqb := Z.eqb |}.
#[export] Instance Key_str : Key str := {| key_eqb := str_eqb |}.

Definition dict (K V : Type) := list (K * V).

Section Dict.
Context {K V : Type} `{Key K}.

(** [d[k]], [None] standing for [KeyError]. *)
Fixpoint dict_get (k : K) (d : dict K V) : option V :=
  match d with
  | [] => None
  | (k', v) :: t => if key_eqb k k' then Some v else dict_get k t
  end.

(** [k in d] *)
Definition dict_mem (k : K) (d : dict K V) : bool :=
  existsb (fun kv => key_eqb k (fst kv)) d.

(** [d[k] = v] *)
Fixpoint dict_set (k : K) (v : V) (d : dict K V) : dict K V :=
  match d with
  | [] => [(k, v)]
  | (k', v') :: t =>
      if key_eqb k k' then (k', v) :: t else (k', v') :: dict_set k v t
  end.

(** [d.update(items)] *)
Definition dict_update (d : dict K V) (items : list (K * V)) : dict K V :=
  fold_left (fun acc kv => dict_set (fst kv) (snd kv) acc) items d.

(** [{k: v for k, v in items}] *)
Definition dict_of_items (items : list (K * V)) : dict K V :=
  dict_update [] items.

Definition dict_keys (d : dict K V) : list K := map fst d.

(** A list of items is a dictionary when no key occurs twice. *)
Definition is_dict (d : dict K V) : Prop := NoDup (dict_keys d).

End Dict.

Definition len {A : Type} (l : list A) : Z := Z.of_nat (List.length l).

(** [x in l] for a list or set of strings *)
Definition str_in (x : str) (l : list str) : bool := existsb (str_eqb x) l.

(** [sorted(l)] on integers (insertion sort; the keys it is applied to are
    pairwise distinct, so stability plays no part). *)
Fixpoint insert_sorted (x : Z) (l : list Z) : list Z :=
  match l with
  | [] => [x]
  | y :: t => if x <=? y then x :: l else y :: insert_sorted x t
  end.

Definition sorted (l : list Z) : list Z := fold_right insert_sorted [] l.

(** ** Exceptions

    One constructor per [raise] of rat_config_parser.py, the built-in
    errors its statements can raise, and [Collaborator] for whatever an
    imported module raises: such an exception is known by whether it is an
    [IncompatibleDecryptorException] (the one class a handler of this file
    singles out) and by its text. *)

Inductive exn_class := IncompatibleDecryptorException | OtherException.

Record collab_exn := { exn_cls : exn_class; exn_text : str }.

Inductive exn :=
| FileNotFound
| AllDecryptorsFailed
| ThresholdNotMet (n min_config_len : Z)
| CouldNotIdentifyConfig (cause : exn)
| NoCctorMethod
| NoValidCctorConfig
| NoVerifyHashMarker
| KeyError (k : str)
| UnboundLocalError (name : str)
| Collaborator (e : collab_exn).

(** [str(e)] *)
Fixpoint exn_str (e : exn) : str :=
  match e with
  | FileNotFound => lit "File not found"
  | AllDecryptorsFailed => lit "All decryptors failed"
  | ThresholdNotMet n m =>
      lit "Minimum threshold of config items not met: "
        ++ str_of_int n ++ lit "/" ++ str_of_int m
  | CouldNotIdentifyConfig c => lit "Could not identify config: " ++ exn_str c
  | NoCctorMethod => lit "No .cctor method could be found"
  | NoValidCctorConfig =>
      lit "No valid configuration could be parsed from any .cctor methods"
  | NoVerifyHashMarker => lit "Could not identify VerifyHash() marker"
  | KeyError k => lit "'" ++ k ++ lit "'"
  | UnboundLocalError name =>
      lit "cannot access local variable '" ++ name
        ++ lit "' where it is not associated with a value"
  | Collaborator c => exn_text c
  end.

(** The result of a call into an imported module. *)
Definition collab (A : Type) : Type := (collab_exn + A)%type.

(** ** The byte pattern of VerifyHash() *)

(** [rb"\x7e.{3}\x04(?:\x6f.{3}\x0a){2}\x74.{3}\x01"] with DOTALL: a
    pattern of fixed length in which [None] is the wildcard. *)
Definition _PATTERN_VERIFY_HASH : list (option byte) :=
  [Some x7e; None; None; None; Some x04]
    ++ [Some x6f; None; None; None; Some x0a]
    ++ [Some x6f; None; None; None; Some x0a]
    ++ [Some x74; None; None; None; Some x01].

Fixpoint match_here (pat : list (option byte)) (s : bytes) : bool :=
  match pat, s with
  | [], _ => true
  | _ :: _, [] => false
  | None :: pat', _ :: s' => match_here pat' s'
  | Some b :: pat', c :: s' => Byte.eqb b c && match_here pat' s'
  end.

(** [re.search(pat, s)]: the start of the leftmost match. *)
Fixpoint search_from (pat : list (option byte)) (s : bytes) (pos : Z) : option Z :=
  if match_here pat s then Some pos
  else match s with
       | [] => None
       | _ :: s' => search_from pat s' (pos + 1)
       end.

Definition search (pat : list (option byte)) (s : bytes) : option Z :=
  search_from pat s 0.

(** ** The state-and-exception monad

    A computation maps the state before it to an outcome and the state
    after it.  [OutOfFuel] is the outcome of a [while] loop that was cut
    off by its bound on the number of iterations; it is no Python
    exception and no handler catches it. *)

Inductive outcome (A : Type) :=
| Ok (a : A)
| Raise (e : exn)
| OutOfFuel.
Arguments Ok {A} a.
Arguments Raise {A} e.
Arguments OutOfFuel {A}.

Definition M (S A : Type) : Type := S -> outcome A * S.

Definition ret {S A : Type} (a : A) : M S A := fun st => (Ok a, st).

Definition bind {S A B : Type} (m : M S A) (f : A -> M S B) : M S B :=
  fun st =>
    match m st with
    | (Ok a, st') => f a st'
    | (Raise e, st') => (Raise e, st')
    | (OutOfFuel, st') => (OutOfFuel, st')
    end.

Definition raise {S A : Type} (e : exn) : M S A := fun st => (Raise e, st).

Definition out_of_fuel {S A : Type} : M S A := fun st => (OutOfFuel, st).

(** [try: m  except Exception as e: handler e] *)
Definition try_except {S A : Type} (m : M S A) (handler : exn -> M S A) : M S A :=
  fun st =>
    match m st with
    | (Raise e, st') => handler e st'
    | r => r
    end.

Definition gets {S A : Type} (f : S -> A) : M S A := fun st => (Ok (f st), st).

Definition modify {S : Type} (f : S -> S) : M S unit := fun st => (Ok tt, f st).

(** A call into an imported module: its exception, if any, is raised
    here. *)
Definition call {S A : Type} (c : collab A) : M S A :=
  match c with
  | inl e => raise (Collaborator e)
  | inr a => ret a
  end.

Declare Scope monad_scope.
Delimit Scope monad_scope with monad.
Notation "x <- m ;; k" := (bind m (fun x => k))
  (at level 61, m at next level, right associativity) : monad_scope.
Notation "' pat <- m ;; k" := (bind m (fun x => match x with pat => k end))
  (at level 61, pat pattern, m at next level, right associativity) : monad_scope.
Notation "m ;; k" := (bind m (fun _ => k))
  (at level 61, right associativity) : monad_scope.
Open Scope monad_scope.

(** ** The imported modules

    None of [utils.config_item], [utils.decryptors],
    [utils.config_normalization] and [utils.dotnetpe_payload] is part of
    this file; what the parser uses of them is a parameter. *)

(** [config_item.SUPPORTED_CONFIG_ITEMS]: an item class is known by what
    [type(item) is ...] tells apart and by its [parse_from], which maps
    the bytecode to raw values by field RVA: a string RVA for an encrypted
    string, a (size, RVA) pair for a byte array, a value otherwise. *)
Inductive ConfigItem :=
| PlainConfigItem (parse_from : bytes -> collab (dict Z pyval))
| EncryptedStringConfigItem (parse_from : bytes -> collab (dict Z Z))
| ByteArrayConfigItem (parse_from : bytes -> collab (dict Z (Z * Z))).

(** [DotNetPEPayload]: the loaded binary. *)
Record DotNetPEPayload (Method : Type) := {
  sha256 : str;
  yara_match : str;
  data : bytes;
  field_name_from_rva : Z -> collab str;
  user_string_from_rva : Z -> collab str;
  byte_array_from_size_and_rva : Z -> Z -> collab bytes;
  methods_from_name : str -> collab (list Method);
  method_body_from_method : Method -> collab bytes;
  method_from_instruction_offset : Z -> Z -> collab Method
}.
Arguments sha256 {Method} _.
Arguments yara_match {Method} _.
Arguments data {Method} _.
Arguments field_name_from_rva {Method} _ _.
Arguments user_string_from_rva {Method} _ _.
Arguments byte_array_from_size_and_rva {Method} _ _ _.
Arguments methods_from_name {Method} _ _.
Arguments method_body_from_method {Method} _ _.
Arguments method_from_instruction_offset {Method} _ _ _.

(** A decryptor class, compared by identity. *)
Definition kind := N.

(** Everything else the parser imports.  [Method] is the type of the
    method objects of the payload, [Decryptor] that of [ConfigDecryptor]
    instances and [Rules] that of compiled yara rules.  Decrypting may
    assign the instance's key and salt, so [decrypt_encrypted_strings]
    returns the instance as it is afterwards. *)
Record Collaborators (Method Decryptor Rules : Type) := {
  rva : Method -> Z;
  isfile : str -> bool;
  DotNetPEPayload_new : str -> option Rules -> option bytes -> collab (DotNetPEPayload Method);
  SUPPORTED_CONFIG_ITEMS : list ConfigItem;
  SUPPORTED_DECRYPTORS : list kind;
  decryptor_new : kind -> DotNetPEPayload Method -> collab Decryptor;
  decrypt_encrypted_strings : Decryptor -> dict str str -> collab (dict str pyval * Decryptor);
  key : Decryptor -> option bytes;
  salt : Decryptor -> option bytes;
  check_key_n_value : str -> pyval -> collab (str * pyval);
  KNOWN_CONFIG_FIELD_NAMES : list str
}.
Arguments rva {Method Decryptor Rules} _ _.
Arguments isfile {Method Decryptor Rules} _ _.
Arguments DotNetPEPayload_new {Method Decryptor Rules} _ _ _ _.
Arguments SUPPORTED_CONFIG_ITEMS {Method Decryptor Rules} _.
Arguments SUPPORTED_DECRYPTORS {Method Decryptor Rules} _.
Arguments decryptor_new {Method Decryptor Rules} _ _ _.
Arguments decrypt_encrypted_strings {Method Decryptor Rules} _ _ _.
Arguments key {Method Decryptor Rules} _ _.
Arguments salt {Method Decryptor Rules} _ _.
Arguments check_key_n_value {Method Decryptor Rules} _ _ _.
Arguments KNOWN_CONFIG_FIELD_NAMES {Method Decryptor Rules} _.

(** ** The parser object *)

(** [report["config"]] is the configuration or, after a failure, a
    string. *)
Inductive report_config :=
| ConfigDict (d : dict str pyval)
| ConfigError (s : str).

Record Report := {
  report_file_path : str;
  report_sha256 : str;
  report_yara_possible_family : str;
  report_key : str;
  report_salt : str;
  report_config_ : report_config
}.

(** The journal of a run: the call of [_decrypt_and_decode_config], the
    call of a decryptor class (line 139) and the record "Decryptor
    incompatible" that goes with the append of line 144.  It is read by
    no method; the properties of the loops are stated on it. *)
Inductive event :=
| CallDecode (encrypted_config : bytes) (min_config_len : Z)
| CallConstruct (decryptor : kind)
| LogIncompatible (decryptor : kind).

Record parser (Decryptor : Type) := {
  report : Report;
  _incompatible_decryptors : list kind;
  _decryptor : option Decryptor;
  journal : list event
}.
Arguments report {Decryptor} _.
Arguments _incompatible_decryptors {Decryptor} _.
Arguments _decryptor {Decryptor} _.
Arguments journal {Decryptor} _.

Definition _MIN_CONFIG_LEN_FLOOR : Z := 5.
Definition _MIN_CONFIG_LEN_CEILING : Z := 9.

(** The bound given to the two threshold loops: as many iterations as
    the longest run of them makes (thresholds 9 down to 4, or five
    thresholds and the final test). *)
Definition loop_fuel : nat :=
  Z.to_nat (_MIN_CONFIG_LEN_CEILING - _MIN_CONFIG_LEN_FLOOR + 2).

(** ** The methods of [RATConfigParser] *)

Section Parser.
Context {Method Decryptor Rules : Type}.
Variable env : Collaborators Method Decryptor Rules.

#[local] Abbreviation state := (parser Decryptor).
#[local] Abbreviation P := (M state).
#[local] Abbreviation config := (dict str pyval).

Definition set_report (f : Report -> Report) (st : state) : state :=
  {| report := f (report st);
     _incompatible_decryptors := _incompatible_decryptors st;
     _decryptor := _decryptor st;
     journal := journal st |}.

Definition set_incompatible_decryptors (l : list kind) (st : state) : state :=
  {| report := report st;
     _incompatible_decryptors := l;
     _decryptor := _decryptor st;
     journal := journal st |}.

Definition set_decryptor (d : option Decryptor) (st : state) : state :=
  {| report := report st;
     _incompatible_decryptors := _incompatible_decryptors st;
     _decryptor := d;
     journal := journal st |}.

Definition log (e : event) : P unit :=
  modify (fun st =>
    {| report := report st;
       _incompatible_decryptors := _incompatible_decryptors st;
       _decryptor := _decryptor st;
       journal := journal st ++ [e] |}).

(** [decryptor in self._incompatible_decryptors] *)
Definition kind_in (k : kind) (l : list kind) : bool := existsb (N.eqb k) l.

(** [_is_likely_obfuscated_config] (lines 296-302) *)
Fixpoint _is_likely_obfuscated_config (cfg : config) : bool :=
  match cfg with
  | [] => true
  | (key, _) :: rest =>
      if negb (isascii key) then true
      else if str_in key (KNOWN_CONFIG_FIELD_NAMES env) then false
      else _is_likely_obfuscated_config rest
  end.

Section Methods.
Variable _dnpp : DotNetPEPayload Method.
Variable remap_config : bool.
Variable preserve_obfuscated_keys : bool.

(** Lines 120-123: field RVAs to field names. *)
Fixpoint translate_fields {V : Type} (raw : list (Z * V))
    (config_fields_map : dict Z str) (item_data : dict str V)
  : P (dict Z str * dict str V) :=
  match raw with
  | [] => ret (config_fields_map, item_data)
  | (k, v) :: rest =>
      field_name <- call (field_name_from_rva _dnpp k) ;;
      translate_fields rest (dict_set k field_name config_fields_map)
                       (dict_set field_name v item_data)
  end.

(** Lines 127-128: string RVAs to strings, each value replaced where it
    stands. *)
Fixpoint resolve_user_strings (item_data : dict str Z) : P (dict str str) :=
  match item_data with
  | [] => ret []
  | (k, v) :: rest =>
      s <- call (user_string_from_rva _dnpp v) ;;
      rest' <- resolve_user_strings rest ;;
      ret ((k, s) :: rest')
  end.

(** Lines 163-167: (size, RVA) pairs to the hex of the bytes read. *)
Fixpoint resolve_byte_arrays (item_data : dict str (Z * Z)) : P config :=
  match item_data with
  | [] => ret []
  | (k, (arr_size, arr_rva)) :: rest =>
      b <- call (byte_array_from_size_and_rva _dnpp arr_size arr_rva) ;;
      rest' <- resolve_byte_arrays rest ;;
      ret ((k, VStr (hex b)) :: rest')
  end.

(** Lines 131-157, the [for decryptor in SUPPORTED_DECRYPTORS] loop over
    the classes still to be visited.  The result is [Some] of the
    decrypted batch when the loop is left by [break] and [None] when it
    runs to its end. *)
Fixpoint decrypt_with_supported (decryptors : list kind) (item_data : dict str str)
  : P (option config) :=
  match decryptors with
  | [] => ret None
  | decryptor :: rest =>
      incompatible <- gets _incompatible_decryptors ;;
      if kind_in decryptor incompatible then decrypt_with_supported rest item_data
      else
        current <- gets _decryptor ;;
        selected <-
          match current with
          | Some d => ret (Some d)
          | None =>
              log (CallConstruct decryptor) ;;
              match decryptor_new env decryptor _dnpp with
              | inr d => modify (set_decryptor (Some d)) ;; ret (Some d)
              | inl ide =>
                  match exn_cls ide with
                  | IncompatibleDecryptorException =>
                      log (LogIncompatible decryptor) ;;
                      modify (fun st => set_incompatible_decryptors
                                (_incompatible_decryptors st ++ [decryptor]) st) ;;
                      ret None
                  | OtherException => raise (Collaborator ide)
                  end
              end
          end ;;
        match selected with
        | None => decrypt_with_supported rest item_data
        | Some d =>
            match decrypt_encrypted_strings env d item_data with
            | inr (decrypted, d') =>
                modify (set_decryptor (Some d')) ;; ret (Some decrypted)
            | inl _ =>
                modify (set_decryptor None) ;;
                decrypt_with_supported rest item_data
            end
        end
  end.

(** Lines 130-160: the batch of one encrypted-string item. *)
Definition decrypt_batch (item_data : dict str str) : P config :=
  decrypted <- decrypt_with_supported (SUPPORTED_DECRYPTORS env) item_data ;;
  current <- gets _decryptor ;;
  match current with
  | None => raise AllDecryptorsFailed
  | Some _ =>
      ret match decrypted with
          | Some d => d
          | None => map (fun kv => (fst kv, VStr (snd kv))) item_data
          end
  end.

(** Lines 117-169: the body of the loop over the item classes.  It
    returns [decoded_config], [config_fields_map] and [item_data] as they
    are at the end of the iteration. *)
Definition decode_item (encrypted_config : bytes) (decoded_config : config)
    (config_fields_map : dict Z str) (item : ConfigItem)
  : P (config * dict Z str * config) :=
  match item with
  | PlainConfigItem parse_from =>
      raw <- call (parse_from encrypted_config) ;;
      ' (config_fields_map, item_data) <- translate_fields raw config_fields_map [] ;;
      if 0 <? len item_data then
        ret (dict_update decoded_config item_data, config_fields_map, item_data)
      else ret (decoded_config, config_fields_map, item_data)
  | EncryptedStringConfigItem parse_from =>
      raw <- call (parse_from encrypted_config) ;;
      ' (config_fields_map, item_data) <- translate_fields raw config_fields_map [] ;;
      if 0 <? len item_data then
        item_data <- resolve_user_strings item_data ;;
        item_data <- decrypt_batch item_data ;;
        ret (dict_update decoded_config item_data, config_fields_map, item_data)
      else ret (decoded_config, config_fields_map, [])
  | ByteArrayConfigItem parse_from =>
      raw <- call (parse_from encrypted_config) ;;
      ' (config_fields_map, item_data) <- translate_fields raw config_fields_map [] ;;
      if 0 <? len item_data then
        item_data <- resolve_byte_arrays item_data ;;
        ret (dict_update decoded_config item_data, config_fields_map, item_data)
      else ret (decoded_config, config_fields_map, [])
  end.

(** Lines 116-169.  [item_data] is [None] as long as no iteration has
    bound it. *)
Fixpoint decode_items (items : list ConfigItem) (encrypted_config : bytes)
    (decoded_config : config) (config_fields_map : dict Z str)
    (item_data : option config)
  : P (config * dict Z str * option config) :=
  match items with
  | [] => ret (decoded_config, config_fields_map, item_data)
  | item :: rest =>
      ' (decoded_config, config_fields_map, item_data) <-
        decode_item encrypted_config decoded_config config_fields_map item ;;
      decode_items rest encrypted_config decoded_config config_fields_map
                   (Some item_data)
  end.

(** Lines 171-174 *)
Definition check_threshold (decoded_config : config) (item_data : option config)
    (min_config_len : Z) : P unit :=
  if len decoded_config <? min_config_len then
    match item_data with
    | None => raise (UnboundLocalError (lit "item_data"))
    | Some item_data =>
        if negb (dict_mem (lit "UrlHost") item_data) then
          raise (ThresholdNotMet (len decoded_config) min_config_len)
        else ret tt
    end
  else ret tt.

(** Lines 178-184: the loop over [sorted(config_fields_map.keys())]. *)
Fixpoint remap_fields (ks : list Z) (config_fields_map : dict Z str)
    (decoded_config sorted_decoded_config : config) (normalized_fields : list str)
  : P (config * list str) :=
  match ks with
  | [] => ret (sorted_decoded_config, normalized_fields)
  | k :: rest =>
      match dict_get k config_fields_map with
      | None => raise (KeyError (str_of_int k))
      | Some key_name =>
          match dict_get key_name decoded_config with
          | None => raise (KeyError key_name)
          | Some value =>
              ' (key_normalized, value) <- call (check_key_n_value env key_name value) ;;
              remap_fields rest config_fields_map decoded_config
                (dict_set key_normalized value sorted_decoded_config)
                (if str_eqb key_normalized key_name then normalized_fields
                 else normalized_fields ++ [key_name])
          end
      end
  end.

(** Lines 175-194 *)
Definition remap_or_keep (decoded_config : config) (config_fields_map : dict Z str)
  : P config :=
  if remap_config then
    ' (sorted_decoded_config, normalized_fields) <-
      remap_fields (sorted (dict_keys config_fields_map)) config_fields_map
                   decoded_config [] [] ;;
    ret (dict_update sorted_decoded_config
           (filter (fun kv => negb (dict_mem (fst kv) sorted_decoded_config)
                              && negb (str_in (fst kv) normalized_fields))
                   decoded_config))
  else ret decoded_config.

(** [_decrypt_and_decode_config] (lines 110-194) *)
Definition _decrypt_and_decode_config (encrypted_config : bytes) (min_config_len : Z)
  : P config :=
  log (CallDecode encrypted_config min_config_len) ;;
  ' (decoded_config, config_fields_map, item_data) <-
    decode_items (SUPPORTED_CONFIG_ITEMS env) encrypted_config [] [] None ;;
  check_threshold decoded_config item_data min_config_len ;;
  remap_or_keep decoded_config config_fields_map.

(** Lines 234-237: [{method.rva: body(method) for method in candidates}] *)
Fixpoint cctor_data (candidates : list Method) (acc : dict Z bytes) : P (dict Z bytes) :=
  match candidates with
  | [] => ret acc
  | method :: rest =>
      body <- call (method_body_from_method _dnpp method) ;;
      cctor_data rest (dict_set (rva env method) body acc)
  end.

(** Lines 244-258: the [for] loop over the candidates at one threshold;
    [Some] when it is left by [break]. *)
Fixpoint try_candidates (candidate_cctor_data : dict Z bytes) (min_config_len : Z)
  : P (option (Z * config)) :=
  match candidate_cctor_data with
  | [] => ret None
  | (method_rva, method_body) :: rest =>
      try_except
        (decrypted_config <- _decrypt_and_decode_config method_body min_config_len ;;
         ret (Some (method_rva, decrypted_config)))
        (fun _ => try_candidates rest min_config_len)
  end.

(** Lines 243-260: the [while] loop.  [found] is the pair
    [(config_start, decrypted_config)], [None] while both are [None]. *)
Fixpoint brute_force_while (fuel : nat) (candidate_cctor_data : dict Z bytes)
    (found : option (Z * config)) (min_config_len : Z)
  : P (option (Z * config)) :=
  match fuel with
  | O => out_of_fuel
  | S fuel' =>
      match found with
      | None =>
          if _MIN_CONFIG_LEN_FLOOR <=? min_config_len then
            found' <- try_candidates candidate_cctor_data min_config_len ;;
            brute_force_while fuel' candidate_cctor_data found' (min_config_len - 1)
          else ret found
      | Some _ => ret found
      end
  end.

(** [_get_config_cctor_brute_force] (lines 228-266) *)
Definition _get_config_cctor_brute_force : P (Z * config) :=
  candidates <- call (methods_from_name _dnpp (lit ".cctor")) ;;
  if len candidates =? 0 then raise NoCctorMethod
  else
    candidate_cctor_data <- cctor_data candidates [] ;;
    found <- brute_force_while loop_fuel candidate_cctor_data None
                               _MIN_CONFIG_LEN_CEILING ;;
    match found with
    | None => raise NoValidCctorConfig
    | Some r => ret r
    end.

(** Lines 284-294: the [while True] loop. *)
Fixpoint verify_hash_while (fuel : nat) (config_method : Method)
    (encrypted_config : bytes) (min_config_len : Z) : P (Z * config) :=
  match fuel with
  | O => out_of_fuel
  | S fuel' =>
      try_except
        (decrypted_config <- _decrypt_and_decode_config encrypted_config min_config_len ;;
         ret (rva env config_method, decrypted_config))
        (fun e =>
           if min_config_len <? _MIN_CONFIG_LEN_FLOOR then raise e
           else verify_hash_while fuel' config_method encrypted_config
                                  (min_config_len - 1))
  end.

(** [_get_config_verify_hash_method] (lines 271-294) *)
Definition _get_config_verify_hash_method : P (Z * config) :=
  match search _PATTERN_VERIFY_HASH (data _dnpp) with
  | None => raise NoVerifyHashMarker
  | Some start =>
      config_method <- call (method_from_instruction_offset _dnpp start 1) ;;
      encrypted_config <- call (method_body_from_method _dnpp config_method) ;;
      verify_hash_while loop_fuel config_method encrypted_config
                        _MIN_CONFIG_LEN_CEILING
  end.

(** Lines 217-220: [obfuscated_key_<idx>] for the values in order. *)
Fixpoint obfuscated_items (idx : Z) (items : list (str * pyval)) : list (str * pyval) :=
  match items with
  | [] => []
  | (_, v) :: rest =>
      (lit "obfuscated_key_" ++ str_of_int idx, v) :: obfuscated_items (idx + 1) rest
  end.

(** [_get_config] (lines 198-222) *)
Definition _get_config : P config :=
  ' (config_start, decrypted_config) <-
    try_except _get_config_verify_hash_method
      (fun _ =>
         try_except _get_config_cctor_brute_force
           (fun e => raise (CouldNotIdentifyConfig e))) ;;
  if negb preserve_obfuscated_keys && _is_likely_obfuscated_config decrypted_config
  then ret (dict_of_items (obfuscated_items 1 decrypted_config))
  else ret decrypted_config.

End Methods.

(** Lines 70-77 *)
Definition initial_report (file_path : str) : Report :=
  {| report_file_path := file_path;
     report_sha256 := [];
     report_yara_possible_family := [];
     report_key := [];
     report_salt := [];
     report_config_ := ConfigDict [] |}.

Definition set_report_sha256 (s : str) (r : Report) : Report :=
  {| report_file_path := report_file_path r; report_sha256 := s;
     report_yara_possible_family := report_yara_possible_family r;
     report_key := report_key r; report_salt := report_salt r;
     report_config_ := report_config_ r |}.

Definition set_report_yara_possible_family (s : str) (r : Report) : Report :=
  {| report_file_path := report_file_path r; report_sha256 := report_sha256 r;
     report_yara_possible_family := s;
     report_key := report_key r; report_salt := report_salt r;
     report_config_ := report_config_ r |}.

Definition set_report_key (s : str) (r : Report) : Report :=
  {| report_file_path := report_file_path r; report_sha256 := report_sha256 r;
     report_yara_possible_family := report_yara_possible_family r;
     report_key := s; report_salt := report_salt r;
     report_config_ := report_config_ r |}.

Definition set_report_salt (s : str) (r : Report) : Report :=
  {| report_file_path := report_file_path r; report_sha256 := report_sha256 r;
     report_yara_possible_family := report_yara_possible_family r;
     report_key := report_key r; report_salt := s;
     report_config_ := report_config_ r |}.

Definition set_report_config (c : report_config) (r : Report) : Report :=
  {| report_file_path := report_file_path r; report_sha256 := report_sha256 r;
     report_yara_possible_family := report_yara_possible_family r;
     report_key := report_key r; report_salt := report_salt r;
     report_config_ := c |}.

(** Lines 95-99 and 100-104: the hex of a key or salt that is there,
    ["None"] otherwise. *)
Definition hex_or_None (d : option Decryptor) (field : Decryptor -> option bytes) : str :=
  match d with
  | Some d' => match field d' with
               | Some b => hex b
               | None => lit "None"
               end
  | None => lit "None"
  end.

(** Lines 81-104, the body of the [try]. *)
Definition init_try (file_path : str) (yara_rule : option Rules) (data : option bytes)
    (remap_config preserve_obfuscated_keys : bool) : P unit :=
  (match data with
   | None => if negb (isfile env file_path) then raise FileNotFound else ret tt
   | Some _ => ret tt
   end) ;;
  modify (set_incompatible_decryptors []) ;;
  _dnpp <- call (DotNetPEPayload_new env file_path yara_rule data) ;;
  modify (set_report (set_report_sha256 (sha256 _dnpp))) ;;
  modify (set_report (set_report_yara_possible_family (yara_match _dnpp))) ;;
  modify (set_decryptor None) ;;
  cfg <- _get_config _dnpp remap_config preserve_obfuscated_keys ;;
  modify (set_report (set_report_config (ConfigDict cfg))) ;;
  d <- gets _decryptor ;;
  modify (set_report (set_report_key (hex_or_None d (key env)))) ;;
  d <- gets _decryptor ;;
  modify (set_report (set_report_salt (hex_or_None d (salt env)))).

(** The object as line 70 leaves it: the report assigned, the other
    attributes of the state not yet. *)
Definition new_parser (file_path : str) : state :=
  {| report := initial_report file_path;
     _incompatible_decryptors := [];
     _decryptor := None;
     journal := [] |}.

(** [RATConfigParser.__init__] (lines 62-106): the outcome of the
    constructor and the object it leaves. *)
Definition __init__ (file_path : str) (yara_rule : option Rules) (data : option bytes)
    (remap_config preserve_obfuscated_keys : bool) : outcome unit * state :=
  try_except
    (init_try file_path yara_rule data remap_config preserve_obfuscated_keys)
    (fun e =>
       modify (set_report (set_report_config
         (ConfigError (lit "Exception encountered for " ++ file_path
                         ++ lit ": " ++ exn_str e)))))
    (new_parser file_path).

End Parser.

(** ** A concrete binary and concrete collaborators

    A small instance on which the methods can be run.  A method body is
    read one byte per field: a byte below 0x40 is a plain field, a byte
    from 0x40 to 0x7f a byte-array field and a byte from 0x80 an
    encrypted-string field, the byte being the field's RVA.  Of the three
    decryptor classes, class 0 cannot be built on any binary, class 1 is
    built but fails to decrypt, and class 2 decrypts and derives its key
    on the first batch. *)

Module Demo.

Record method := { m_rva : Z; m_body : bytes }.

Record decryptor := { d_class : kind; d_key : option bytes; d_salt : option bytes }.

Definition field_rva (b : byte) : Z := Z.of_N (Byte.to_N b).

Definition plain_fields (body : bytes) : dict Z pyval :=
  map (fun b => (field_rva b, VInt (field_rva b)))
      (filter (fun b => field_rva b <? 64) body).

Definition byte_array_fields (body : bytes) : dict Z (Z * Z) :=
  map (fun b => (field_rva b, (2, field_rva b)))
      (filter (fun b => (64 <=? field_rva b) && (field_rva b <? 128)) body).

Definition encrypted_fields (body : bytes) : dict Z Z :=
  map (fun b => (field_rva b, field_rva b))
      (filter (fun b => 128 <=? field_rva b) body).

Definition items : list ConfigItem :=
  [ PlainConfigItem (fun body => inr (plain_fields body));
    ByteArrayConfigItem (fun body => inr (byte_array_fields body));
    EncryptedStringConfigItem (fun body => inr (encrypted_fields body)) ].

Definition field_name (k : Z) : str :=
  if k =? 1 then lit "Ports"
  else if k =? 2 then lit "Hosts"
  else if k =? 3 then lit "UrlHost"
  else if k =? 131 then lit "UrlHost"
  else if k =? 4 then [233%N] ++ lit "Key"
  else lit "field_" ++ str_of_int k.

(** The bytes of a VerifyHash() body: the pattern with zeros for its
    wildcards. *)
Definition marker : bytes :=
  [x7e; x00; x00; x00; x04; x6f; x00; x00; x00; x0a;
   x6f; x00; x00; x00; x0a; x74; x00; x00; x00; x01].

Definition payload (content : bytes) (cctors : list method) (after_marker : method)
  : DotNetPEPayload method :=
  {| sha256 := lit "5feceb66";
     yara_match := lit "asyncrat";
     data := content;
     field_name_from_rva := fun k => inr (field_name k);
     user_string_from_rva := fun v => inr (lit "enc_" ++ str_of_int v);
     byte_array_from_size_and_rva := fun size _ => inr (repeat xab (Z.to_nat size));
     methods_from_name := fun name =>
       inr (if str_eqb name (lit ".cctor") then cctors else []);
     method_body_from_method := fun m => inr (m_body m);
     method_from_instruction_offset := fun _ _ => inr after_marker |}.

Definition incompatible (text : string) : collab_exn :=
  {| exn_cls := IncompatibleDecryptorException; exn_text := lit text |}.

Definition failure (text : string) : collab_exn :=
  {| exn_cls := OtherException; exn_text := lit text |}.

(** The collaborators, for a file system that holds the binaries
    [files] and a class 2 that derives [derived_key]. *)
Definition env (files : list (str * DotNetPEPayload method)) (derived_key : option bytes)
  : Collaborators method decryptor unit :=
  {| rva := m_rva;
     isfile := fun path => dict_mem path files;
     DotNetPEPayload_new := fun path _ content =>
       match dict_get path files with
       | Some p => inr p
       | None => inl (failure "not a .NET binary")
       end;
     SUPPORTED_CONFIG_ITEMS := items;
     SUPPORTED_DECRYPTORS := [0%N; 1%N; 2%N];
     decryptor_new := fun k _ =>
       if (k =? 0)%N then inl (incompatible "no AES marker")
       else inr {| d_class := k; d_key := None; d_salt := None |};
     decrypt_encrypted_strings := fun d batch =>
       if (d_class d =? 2)%N then
         inr (map (fun kv => (fst kv, VStr (lit "plain_" ++ snd kv))) batch,
              {| d_class := 2%N; d_key := derived_key; d_salt := Some [x01; xff] |})
       else inl (failure "bad padding");
     key := d_key;
     salt := d_salt;
     check_key_n_value := fun name value =>
       inr (if str_eqb name (lit "Ports") then lit "port" else name, value);
     KNOWN_CONFIG_FIELD_NAMES := [lit "port"; lit "Ports"; lit "Hosts"] |}.

Definition state0 : parser decryptor :=
  {| report := initial_report [];
     _incompatible_decryptors := [];
     _decryptor := None;
     journal := [] |}.

(** A binary with the marker, followed by a method of four plain
    fields. *)
Definition four_fields_method : method :=
  {| m_rva := 100; m_body := [x05; x06; x07; x08] |}.

Definition four_fields : DotNetPEPayload method :=
  payload (x2a :: marker ++ [x2a]) [] four_fields_method.

(** A binary without the marker and with two static constructors: one of
    a single field, one of five plain fields and an encrypted string. *)
Definition small_cctor : method := {| m_rva := 200; m_body := [x09] |}.

Definition config_cctor : method :=
  {| m_rva := 300; m_body := [x02; x01; x05; x06; x07; x85] |}.

Definition two_cctors : DotNetPEPayload method :=
  payload [x00; x2a] [small_cctor; config_cctor] small_cctor.

(** A binary with neither, and one whose only constructor holds six
    plain fields. *)
Definition no_config : DotNetPEPayload method := payload [x00] [] small_cctor.

Definition plain_cctor : method :=
  {| m_rva := 400; m_body := [x02; x01; x05; x06; x07; x08] |}.

Definition six_plain : DotNetPEPayload method :=
  payload [x00] [plain_cctor] plain_cctor.

Definition files : list (str * DotNetPEPayload method) :=
  [ (lit "marker.exe", four_fields);
    (lit "cctors.exe", two_cctors);
    (lit "empty.exe", no_config);
    (lit "plain.exe", six_plain) ].

Definition collaborators : Collaborators method decryptor unit :=
  env files (Some [xde; xad]).

(** The same, with a class 2 whose derived key is the empty byte
    string. *)
Definition collaborators_empty_key : Collaborators method decryptor unit :=
  env files (Some []).

(** A key that is not ASCII: U+00E9 followed by "Key". *)
Definition accented_key : str := 233%N :: lit "Key".

(** A binary without the marker in which the first and the last of three
    static constructors have the same RVA: the first holds six plain
    fields, the other two a single field each. *)
Definition first_shared : method :=
  {| m_rva := 500; m_body := [x02; x01; x05; x06; x07; x08] |}.

Definition between_shared : method := {| m_rva := 600; m_body := [x09] |}.

Definition last_shared : method := {| m_rva := 500; m_body := [x0a] |}.

Definition shared_rva : DotNetPEPayload method :=
  payload [x00] [first_shared; between_shared; last_shared] first_shared.

End Demo.

(** ** Reading the journal *)

Definition is_decode (e : event) : bool :=
  match e with CallDecode _ _ => true | _ => false end.

(** The calls of [_decrypt_and_decode_config], in order. *)
Definition decode_calls (j : list event) : list event := filter is_decode j.

(** The classes recorded as incompatible, in order. *)
Definition marks (j : list event) : list kind :=
  flat_map (fun e => match e with LogIncompatible k => [k] | _ => [] end) j.

(** A stretch of journal respects the incompatible classes [inc] known
    when it starts: no class is called that is in [inc] or was recorded
    as incompatible earlier in the stretch. *)
Definition sound (inc : list kind) (new : list event) : Prop :=
  forall t1 k t2, new = t1 ++ CallConstruct k :: t2 ->
    ~ In k inc /\ ~ In (LogIncompatible k) t1.

(** What a method may do to the object: it leaves the report alone,
    appends [new] to the journal, appends to the incompatible classes
    those that [new] records, respects them, and selects a decryptor only
    by calling a class. *)
Definition step {Decryptor : Type} (st st' : parser Decryptor) (new : list event) : Prop :=
  report st' = report st /\
  journal st' = journal st ++ new /\
  _incompatible_decryptors st' = _incompatible_decryptors st ++ marks new /\
  sound (_incompatible_decryptors st) new /\
  ((forall k, ~ In (CallConstruct k) new) ->
   _decryptor st = None -> _decryptor st' = None).

(** A method, started in any state, makes a [step] whose stretch of
    journal satisfies [good], is not cut off, and raises only exceptions
    in [E]. *)
Definition runs {Decryptor A : Type} (good : list event -> Prop) (E : exn -> Prop)
    (m : M (parser Decryptor) A) : Prop :=
  forall st, exists new,
    step st (snd (m st)) new /\ good new /\
    fst (m st) <> OutOfFuel /\
    forall e, fst (m st) = Raise e -> E e.

(** The exceptions that the decoding of the items can raise: those of the
    collaborators and "All decryptors failed". *)
Definition decode_exn (e : exn) : Prop :=
  match e with
  | Collaborator _ | AllDecryptorsFailed => True
  | _ => False
  end.

(** Those of the remapping: a missing key or a collaborator's. *)
Definition remap_exn (e : exn) : Prop :=
  match e with
  | Collaborator _ | KeyError _ => True
  | _ => False
  end.

Definition no_decode (new : list event) : Prop := decode_calls new = [].

Definition any_journal (new : list event) : Prop := True.

Definition any_exn (e : exn) : Prop := True.

(** ** The brute force as the specification words it

    The thresholds walk down from 9 to 5; at each, the candidates are
    tried in order; the first attempt that decodes is the result. *)

Definition thresholds : list Z := [9; 8; 7; 6; 5].

(** An attempt: a threshold and a candidate (its RVA and body). *)
Definition attempt : Type := (Z * (Z * bytes))%type.

Definition attempts (candidate_cctor_data : dict Z bytes) : list attempt :=
  flat_map (fun t => map (fun c => (t, c)) candidate_cctor_data) thresholds.

Definition attempt_call (a : attempt) : event := CallDecode (snd (snd a)) (fst a).

Section FirstSuccess.
Context {Method Decryptor Rules : Type}.
Variable env : Collaborators Method Decryptor Rules.
Variable _dnpp : DotNetPEPayload Method.
Variable remap_config : bool.

(** [first_success todo st tried r st']: from [st], the attempts [tried],
    a prefix of [todo], were made in order; all but the last failed; [r]
    is the result of the last if it succeeded, and then nothing of [todo]
    after it was tried; [r] is [None] if all of [todo] failed. *)
Inductive first_success :
  list attempt -> parser Decryptor -> list attempt ->
  option (Z * dict str pyval) -> parser Decryptor -> Prop :=
| fs_exhausted st : first_success [] st [] None st
| fs_hit t method_rva method_body rest st cfg st' :
    _decrypt_and_decode_config env _dnpp remap_config method_body t st = (Ok cfg, st') ->
    first_success ((t, (method_rva, method_body)) :: rest) st
                  [(t, (method_rva, method_body))] (Some (method_rva, cfg)) st'
| fs_miss t method_rva method_body rest st e st' tried r st'' :
    _decrypt_and_decode_config env _dnpp remap_config method_body t st = (Raise e, st') ->
    first_success rest st' tried r st'' ->
    first_success ((t, (method_rva, method_body)) :: rest) st
                  ((t, (method_rva, method_body)) :: tried) r st''.

End FirstSuccess.

(** ** The remapping as the specification words it

    The field ids in ascending order, each with the name it resolves to
    and the canonical name and value that [check_key_n_value] gives for
    it; then the mapping of the canonical names, followed by the decoded
    fields that are neither in it nor renamed. *)

Record canonical_entry := {
  field_id : Z;
  original_name : str;
  canonical_name : str;
  canonical_value : pyval
}.

Definition canonical_item (e : canonical_entry) : str * pyval :=
  (canonical_name e, canonical_value e).

Definition is_renamed (e : canonical_entry) : bool :=
  negb (str_eqb (canonical_name e) (original_name e)).

Section Canonical.
Context {Method Decryptor Rules : Type}.
Variable env : Collaborators Method Decryptor Rules.

Fixpoint canonicalize (ids : list Z) (config_fields_map : dict Z str)
    (decoded_config : dict str pyval) : option (list canonical_entry) :=
  match ids with
  | [] => Some []
  | k :: rest =>
      match dict_get k config_fields_map with
      | None => None
      | Some name =>
          match dict_get name decoded_config with
          | None => None
          | Some value =>
              match check_key_n_value env name value with
              | inl _ => None
              | inr (cname, cvalue) =>
                  match canonicalize rest config_fields_map decoded_config with
                  | None => None
                  | Some entries =>
                      Some ({| field_id := k; original_name := name;
                               canonical_name := cname;
                               canonical_value := cvalue |} :: entries)
                  end
              end
          end
      end
  end.

End Canonical.

Definition remapped (entries : list canonical_entry) (decoded_config : dict str pyval)
  : dict str pyval :=
  let canonical := dict_of_items (map canonical_item entries) in
  let renamed := map original_name (filter is_renamed entries) in
  canonical
    ++ filter (fun kv => negb (dict_mem (fst kv) canonical)
                         && negb (str_in (fst kv) renamed))
              decoded_config.

(** ** The states that the statements name *)

(** The thresholds of the [while] loop: [n] of them, downwards from
    [t]. *)
Fixpoint descending (t : Z) (n : nat) : list Z :=
  match n with
  | O => []
  | S n' => t :: descending (t - 1) n'
  end.

Section Vocabulary.
Context {Method Decryptor Rules : Type}.
Variable env : Collaborators Method Decryptor Rules.

#[local] Abbreviation state := (parser Decryptor).
#[local] Abbreviation config := (dict str pyval).

Implicit Types st : state.

(** The state after a journal entry. *)
Definition logged (e : event) (st : state) : state := snd (log e st).

(** The state in which class [k] has been called and found
    incompatible. *)
Definition marked (k : kind) (st : state) : state :=
  let st1 := logged (LogIncompatible k) (logged (CallConstruct k) st) in
  set_incompatible_decryptors (_incompatible_decryptors st1 ++ [k]) st1.

(** The decryptor that an iteration on class [k] decrypts with: the one
    selected by an earlier batch or iteration, or else a new instance of
    [k]. *)
Definition selected_for (_dnpp : DotNetPEPayload Method) (k : kind) st
    (d : Decryptor) : Prop :=
  _decryptor st = Some d \/
  (_decryptor st = None /\ decryptor_new env k _dnpp = inr d).

(** The test of line 81: there is something to load. *)
Definition source_given (file_path : str) (data : option bytes) : bool :=
  match data with
  | None => isfile env file_path
  | Some _ => true
  end.

(** The text of line 106. *)
Definition failure_text (file_path : str) (e : exn) : str :=
  lit "Exception encountered for " ++ file_path ++ lit ": " ++ exn_str e.

Definition failed (file_path : str) (e : exn) (st : state) : state :=
  set_report (set_report_config (ConfigError (failure_text file_path e))) st.

(** The object when [_get_config] is called (line 94). *)
Definition loaded (file_path : str) (_dnpp : DotNetPEPayload Method) : state :=
  set_decryptor None
    (set_report (set_report_yara_possible_family (yara_match _dnpp))
       (set_report (set_report_sha256 (sha256 _dnpp))
          (set_incompatible_decryptors [] (new_parser file_path)))).

(** The object after lines 94-104. *)
Definition reported (cfg : config) (st : state) : state :=
  let st1 := set_report (set_report_config (ConfigDict cfg)) st in
  let st2 := set_report (set_report_key (hex_or_None (_decryptor st1) (key env))) st1 in
  set_report (set_report_salt (hex_or_None (_decryptor st2) (salt env))) st2.

End Vocabulary.

(** ** Redaction, exceptions and what a computation touches *)

(** The keys [obfuscated_key_1] to [obfuscated_key_n]. *)
Definition redacted_keys (n : nat) : list str :=
  map (fun i => lit "obfuscated_key_" ++ str_of_int (Z.of_nat i)) (seq 1 n).

(** The exceptions of [_decrypt_and_decode_config]. *)
Definition decoder_exn (e : exn) : Prop :=
  match e with
  | Collaborator _ | AllDecryptorsFailed | KeyError _
  | ThresholdNotMet _ _ | UnboundLocalError _ => True
  | _ => False
  end.

(** The item classes whose parse of [encrypted_config] gives no encrypted
    string. *)
Definition no_encrypted_string (encrypted_config : bytes) (item : ConfigItem) : Prop :=
  match item with
  | EncryptedStringConfigItem parse_from =>
      parse_from encrypted_config = inr [] \/ exists x, parse_from encrypted_config = inl x
  | _ => True
  end.

Section Touches.
Context {Method Decryptor Rules : Type}.
Variable env : Collaborators Method Decryptor Rules.

#[local] Abbreviation state := (parser Decryptor).
#[local] Abbreviation config := (dict str pyval).

(** Lines 211-220 as a function of the mapping found. *)
Definition redact (preserve_obfuscated_keys : bool) (decrypted_config : config) : config :=
  if negb preserve_obfuscated_keys && _is_likely_obfuscated_config env decrypted_config
  then dict_of_items (obfuscated_items 1 decrypted_config)
  else decrypted_config.

(** A computation that never changes the state. *)
Definition quiet {A : Type} (m : M state A) : Prop := forall st, snd (m st) = st.

(** Two states of the same object: all but the journal. *)
Definition same_object (st1 st2 : state) : Prop :=
  report st1 = report st2 /\
  _incompatible_decryptors st1 = _incompatible_decryptors st2 /\
  _decryptor st1 = _decryptor st2.

(** A computation that does not read the journal. *)
Definition blind {A : Type} (m : M state A) : Prop :=
  forall st1 st2, same_object st1 st2 ->
    fst (m st1) = fst (m st2) /\ same_object (snd (m st1)) (snd (m st2)).

End Touches.

(** ** The candidate dictionary and the record of the incompatible classes *)

(** The keys of [{k: v for k, v in items}]: each key where it first
    occurs. *)
Fixpoint first_occurrences {K : Type} `{Key K} (l : list K) : list K :=
  match l with
  | [] => []
  | x :: t => x :: filter (fun y => negb (key_eqb y x)) (first_occurrences t)
  end.

(** The construction of class [k] on the binary raises
    [IncompatibleDecryptorException] (lines 139-140). *)
Definition raises_incompatible {Method Decryptor Rules : Type}
    (env : Collaborators Method Decryptor Rules) (_dnpp : DotNetPEPayload Method)
    (k : kind) : bool :=
  match decryptor_new env k _dnpp with
  | inl ide =>
      match exn_cls ide with
      | IncompatibleDecryptorException => true
      | OtherException => false
      end
  | inr _ => false
  end.

(** A stretch of journal in which the construction of a class that
    raises [IncompatibleDecryptorException] is followed at once by the
    record of the class, and nothing else is recorded. *)
Inductive faithful (inc : kind -> bool) : list event -> Prop :=
| faithful_nil : faithful inc []
| faithful_decode encrypted_config min_config_len j :
    faithful inc j -> faithful inc (CallDecode encrypted_config min_config_len :: j)
| faithful_marked k j :
    inc k = true -> faithful inc j ->
    faithful inc (CallConstruct k :: LogIncompatible k :: j)
| faithful_built k j :
    inc k = false -> faithful inc j -> faithful inc (CallConstruct k :: j).

(** A computation that appends a faithful stretch to the journal. *)
Definition keeps_record {Decryptor A : Type} (inc : kind -> bool)
    (m : M (parser Decryptor) A) : Prop :=
  forall st, exists new,
    journal (snd (m st)) = journal st ++ new /\ faithful inc new.

(** * Properties *)

(** ** Journals and steps *)

Lemma marks_app (a b : list event) : marks (a ++ b) = marks a ++ marks b.
Proof. unfold marks. apply flat_map_app. Qed.

Lemma in_marks (k : kind) (l : list event) :
  In k (marks l) <-> In (LogIncompatible k) l.
Proof.
  unfold marks. rewrite in_flat_map. split.
  - intros [e [He Hk]]. destruct e; simpl in Hk; try tauto.
    destruct Hk as [-> | []]. exact He.
  - intros Hin. exists (LogIncompatible k). split; [exact Hin | simpl; auto].
Qed.

Lemma decode_calls_app (a b : list event) :
  decode_calls (a ++ b) = decode_calls a ++ decode_calls b.
Proof. apply filter_app. Qed.

Lemma sound_nil (inc : list kind) : sound inc [].
Proof. intros t1 k t2 E. destruct t1; discriminate. Qed.

Lemma sound_app (inc : list kind) (a b : list event) :
  sound inc a -> sound (inc ++ marks a) b -> sound inc (a ++ b).
Proof.
  intros Ha Hb t1 k t2 E.
  apply app_eq_app in E. destruct E as [l [[E1 E2] | [E1 E2]]].
  - destruct l as [|x l].
    + simpl in E2. rewrite app_nil_r in E1. subst t1.
      destruct (Hb [] k t2 (eq_sym E2)) as [Hn _].
      rewrite in_app_iff, in_marks in Hn. tauto.
    + simpl in E2. injection E2 as <- E2. subst a.
      apply (Ha t1 k l). reflexivity.
  - subst t1. destruct (Hb l k t2 E2) as [Hn Hl].
    rewrite in_app_iff, in_marks in Hn. rewrite in_app_iff. tauto.
Qed.

Lemma sound_weaken (inc inc' : list kind) (new : list event) :
  (forall k, In k inc' -> In k inc) -> sound inc new -> sound inc' new.
Proof. intros Hs H t1 k t2 E. destruct (H t1 k t2 E). split; auto. Qed.

Lemma bind_ok_inv {S A B : Type} (m : M S A) (f : A -> M S B) (st st' : S) (b : B) :
  bind m f st = (Ok b, st') ->
  exists a st1, m st = (Ok a, st1) /\ f a st1 = (Ok b, st').
Proof.
  unfold bind. destruct (m st) as [[a | e |] st1]; try discriminate. eauto.
Qed.

Ltac split_runs := split; [| split; [| split]].

Section Steps.
Context {Decryptor : Type}.
Implicit Types st : parser Decryptor.

Lemma step_refl st : step st st [].
Proof.
  unfold step. simpl. rewrite !app_nil_r.
  split; [reflexivity|]. split; [reflexivity|]. split; [reflexivity|].
  split; [apply sound_nil | auto].
Qed.

Lemma step_trans st1 st2 st3 (n1 n2 : list event) :
  step st1 st2 n1 -> step st2 st3 n2 -> step st1 st3 (n1 ++ n2).
Proof.
  intros (R1 & J1 & I1 & S1 & D1) (R2 & J2 & I2 & S2 & D2).
  unfold step. split; [|split; [|split; [|split]]].
  - congruence.
  - rewrite J2, J1, app_assoc. reflexivity.
  - rewrite I2, I1, marks_app, app_assoc. reflexivity.
  - apply sound_app; [exact S1 | rewrite <- I1; exact S2].
  - intros Hn Hd. apply D2.
    + intros k Hk. apply (Hn k). apply in_or_app. auto.
    + apply D1; [|exact Hd]. intros k Hk. apply (Hn k). apply in_or_app. auto.
Qed.

(** *** The rules of [runs] *)

Section Rules.
Variable good : list event -> Prop.
Hypothesis good_nil : good [].
Hypothesis good_app : forall a b, good a -> good b -> good (a ++ b).

Lemma runs_ret {A : Type} (E : exn -> Prop) (a : A) :
  runs (Decryptor := Decryptor) good E (ret a).
Proof.
  intros st. exists []. simpl.
  split_runs; [apply step_refl | exact good_nil | discriminate | discriminate].
Qed.

Lemma runs_raise {A : Type} (E : exn -> Prop) (e : exn) :
  E e -> runs (Decryptor := Decryptor) (A := A) good E (raise e).
Proof.
  intros He st. exists []. simpl.
  split_runs; [apply step_refl | exact good_nil | discriminate |].
  intros e' [= <-]. exact He.
Qed.

Lemma runs_call {A : Type} (E : exn -> Prop) (c : collab A) :
  (forall x, E (Collaborator x)) -> runs (Decryptor := Decryptor) good E (call c).
Proof.
  intros He. destruct c as [x | a]; simpl.
  - apply runs_raise. apply He.
  - apply runs_ret.
Qed.

Lemma runs_gets {A : Type} (E : exn -> Prop) (f : parser Decryptor -> A) :
  runs good E (gets f).
Proof.
  intros st. exists []. simpl.
  split_runs; [apply step_refl | exact good_nil | discriminate | discriminate].
Qed.

Lemma runs_bind {A B : Type} (E : exn -> Prop)
    (m : M (parser Decryptor) A) (f : A -> M (parser Decryptor) B) :
  runs good E m -> (forall a, runs good E (f a)) -> runs good E (bind m f).
Proof.
  intros Hm Hf st. destruct (Hm st) as (n1 & S1 & G1 & F1 & X1).
  unfold bind. destruct (m st) as [[a | e |] st1] eqn:Em; simpl in *.
  - destruct (Hf a st1) as (n2 & S2 & G2 & F2 & X2).
    exists (n1 ++ n2).
    split_runs; [eapply step_trans; eassumption | auto | exact F2 | exact X2].
  - exists n1. split_runs; auto; [discriminate |].
    intros e0 [= <-]. apply X1. reflexivity.
  - congruence.
Qed.

Lemma runs_try {A : Type} (E1 E : exn -> Prop)
    (m : M (parser Decryptor) A) (h : exn -> M (parser Decryptor) A) :
  runs good E1 m -> (forall e, E1 e -> runs good E (h e)) ->
  runs good E (try_except m h).
Proof.
  intros Hm Hh st. destruct (Hm st) as (n1 & S1 & G1 & F1 & X1).
  unfold try_except. destruct (m st) as [[a | e |] st1] eqn:Em; simpl in *.
  - exists n1. split_runs; auto; discriminate.
  - destruct (Hh e (X1 e eq_refl) st1) as (n2 & S2 & G2 & F2 & X2).
    exists (n1 ++ n2).
    split_runs; [eapply step_trans; eassumption | auto | exact F2 | exact X2].
  - congruence.
Qed.

End Rules.

Lemma runs_weaken {A : Type} (good good' : list event -> Prop) (E E' : exn -> Prop)
    (m : M (parser Decryptor) A) :
  (forall n, good n -> good' n) -> (forall e, E e -> E' e) ->
  runs good E m -> runs good' E' m.
Proof.
  intros Hg He Hm st. destruct (Hm st) as (n & S & G & F & X).
  exists n. split_runs; auto.
Qed.

Lemma no_decode_nil : no_decode [].
Proof. reflexivity. Qed.

Lemma no_decode_app (a b : list event) : no_decode a -> no_decode b -> no_decode (a ++ b).
Proof. unfold no_decode. intros Ha Hb. rewrite decode_calls_app, Ha, Hb. reflexivity. Qed.

End Steps.

(** ** Dictionaries *)

Lemma str_eqb_eq (a b : str) : str_eqb a b = true <-> a = b.
Proof.
  revert b; induction a as [|x a IH]; intros [|y b]; simpl;
    try (split; [discriminate | congruence]); [tauto|].
  rewrite andb_true_iff, N.eqb_eq, IH. split.
  - intros [-> ->]; reflexivity.
  - intros E; injection E; auto.
Qed.

#[export] Instance KeyLaws_Z : KeyLaws Z.
Proof. constructor. exact Z.eqb_eq. Qed.

#[export] Instance KeyLaws_str : KeyLaws str.
Proof. constructor. exact str_eqb_eq. Qed.

Section DictFacts.
Context {K V : Type} `{KeyLaws K}.
Implicit Types d : dict K V.

Lemma key_eqb_refl (k : K) : key_eqb k k = true.
Proof. apply key_eqb_eq. reflexivity. Qed.

Lemma key_eqb_neq (a b : K) : key_eqb a b = false <-> a <> b.
Proof. rewrite <- not_true_iff_false, key_eqb_eq. tauto. Qed.

Lemma dict_mem_In (k : K) d : dict_mem k d = true <-> In k (dict_keys d).
Proof.
  unfold dict_mem, dict_keys. rewrite existsb_exists, in_map_iff. split.
  - intros [kv [Hin Hk]]. apply key_eqb_eq in Hk. exists kv. auto.
  - intros [kv [Hk Hin]]. exists kv. split; [exact Hin|]. apply key_eqb_eq. auto.
Qed.

Lemma dict_mem_not_In (k : K) d : dict_mem k d = false <-> ~ In k (dict_keys d).
Proof. rewrite <- not_true_iff_false, dict_mem_In. tauto. Qed.

Lemma dict_set_fresh (k : K) (v : V) d :
  dict_mem k d = false -> dict_set k v d = d ++ [(k, v)].
Proof.
  induction d as [|[k' v'] t IH]; simpl; [reflexivity|].
  intros Hm. apply orb_false_iff in Hm. destruct Hm as [Hk Ht].
  rewrite Hk, (IH Ht). reflexivity.
Qed.

Lemma dict_keys_set_present (k : K) (v : V) d :
  dict_mem k d = true -> dict_keys (dict_set k v d) = dict_keys d.
Proof.
  induction d as [|[k' v'] t IH]; simpl; [discriminate|].
  destruct (key_eqb k k') eqn:Ek; simpl; [reflexivity|].
  intros Ht. rewrite (IH Ht). reflexivity.
Qed.

Lemma is_dict_set (k : K) (v : V) d : is_dict d -> is_dict (dict_set k v d).
Proof.
  unfold is_dict. intros Hd. destruct (dict_mem k d) eqn:Em.
  - rewrite dict_keys_set_present; assumption.
  - rewrite dict_set_fresh by assumption. unfold dict_keys. rewrite map_app. simpl.
    apply NoDup_app; [exact Hd | constructor; [simpl; tauto | constructor] |].
    intros x Hx [<- | []]. apply dict_mem_not_In in Em. contradiction.
Qed.

Lemma is_dict_update d (items : list (K * V)) : is_dict d -> is_dict (dict_update d items).
Proof.
  unfold dict_update. revert d. induction items as [|[k v] t IH]; intros d Hd; simpl.
  - exact Hd.
  - apply IH. apply is_dict_set. exact Hd.
Qed.

Lemma is_dict_of_items (items : list (K * V)) : is_dict (dict_of_items items).
Proof. apply is_dict_update. constructor. Qed.

(** Updating with items whose keys are new and pairwise distinct appends
    them in their order. *)
Lemma dict_update_fresh d (items : list (K * V)) :
  NoDup (dict_keys items) ->
  (forall k, In k (dict_keys items) -> dict_mem k d = false) ->
  dict_update d items = d ++ items.
Proof.
  unfold dict_update. revert d. induction items as [|[k v] t IH]; intros d Hn Hf; simpl.
  - rewrite app_nil_r. reflexivity.
  - inversion Hn as [|? ? Hk Ht]; subst.
    rewrite dict_set_fresh by (apply Hf; simpl; auto).
    rewrite IH; [rewrite <- app_assoc; reflexivity | exact Ht |].
    intros k' Hk'. apply dict_mem_not_In. unfold dict_keys. rewrite map_app, in_app_iff.
    simpl. intros [Hin | [<- | []]].
    + apply dict_mem_In in Hin. rewrite Hf in Hin; [discriminate | simpl; auto].
    + contradiction.
Qed.

Lemma is_dict_filter (f : K * V -> bool) d : is_dict d -> is_dict (filter f d).
Proof.
  unfold is_dict, dict_keys. induction d as [|kv t IH]; simpl; intros Hd; [constructor|].
  inversion Hd as [|? ? Hk Ht]; subst.
  destruct (f kv); simpl; [|auto].
  constructor; [|auto]. intros Hin. apply Hk.
  apply in_map_iff in Hin. destruct Hin as [x [Hx Hin]]. apply filter_In in Hin.
  apply in_map_iff. exists x. tauto.
Qed.

Lemma dict_get_set (k k' : K) (v' : V) d :
  dict_get k (dict_set k' v' d) = if key_eqb k k' then Some v' else dict_get k d.
Proof.
  induction d as [|[k0 v0] t IH]; simpl; [reflexivity|].
  destruct (key_eqb k' k0) eqn:E0; simpl.
  - apply key_eqb_eq in E0. subst k0. destruct (key_eqb k k'); reflexivity.
  - rewrite IH. destruct (key_eqb k k0) eqn:E1; [|reflexivity].
    destruct (key_eqb k k') eqn:E2; [|reflexivity].
    apply key_eqb_eq in E1, E2. subst k0 k'. rewrite key_eqb_refl in E0. discriminate.
Qed.

Lemma dict_mem_set (y k : K) (v : V) d :
  dict_mem y (dict_set k v d) = dict_mem y d || key_eqb y k.
Proof.
  unfold dict_mem. induction d as [|[k0 v0] t IH]; simpl; [apply orb_false_r|].
  destruct (key_eqb k k0) eqn:E0; simpl.
  - apply key_eqb_eq in E0. subst k0.
    destruct (key_eqb y k), (existsb _ t); reflexivity.
  - rewrite IH. rewrite orb_assoc. reflexivity.
Qed.

(** The value of a key after an update: that of its last item, or the
    former value when no item has the key. *)
Lemma dict_get_update (k : K) (v : V) d (items : list (K * V)) :
  dict_get k (dict_update d items) = Some v <->
  (exists before after,
      items = before ++ (k, v) :: after /\ ~ In k (dict_keys after)) \/
  (~ In k (dict_keys items) /\ dict_get k d = Some v).
Proof.
  unfold dict_update. revert d. induction items as [|[k' v'] t IH]; intros d; simpl.
  - split.
    + intros Hg. right. split; [tauto | exact Hg].
    + intros [(b & a & E & _) | [_ Hg]]; [destruct b; discriminate | exact Hg].
  - rewrite IH, dict_get_set. split.
    + intros [(b & a & -> & Ha) | [Ht Hg]].
      * left. exists ((k', v') :: b), a. split; [reflexivity | exact Ha].
      * destruct (key_eqb k k') eqn:Ek.
        -- apply key_eqb_eq in Ek. subst k'. injection Hg as ->.
           left. exists [], t. split; [reflexivity | exact Ht].
        -- right. split; [|exact Hg]. apply key_eqb_neq in Ek.
           intros [E | Hin]; [congruence | contradiction].
    + intros [(b & a & E & Ha) | [Ht Hg]].
      * destruct b as [|x b]; simpl in E.
        -- injection E as -> -> ->. right. split; [exact Ha|].
           rewrite key_eqb_refl. reflexivity.
        -- injection E as <- ->. left. exists b, a. split; [reflexivity | exact Ha].
      * right. split; [tauto|].
        destruct (key_eqb k k') eqn:Ek; [|exact Hg].
        apply key_eqb_eq in Ek. subst k'. tauto.
Qed.

Lemma filter_filter_and {A : Type} (f g : A -> bool) (l : list A) :
  filter f (filter g l) = filter (fun x => f x && g x) l.
Proof.
  induction l as [|x t IH]; simpl; [reflexivity|].
  destruct (g x); simpl.
  - rewrite andb_true_r. destruct (f x); [f_equal|]; exact IH.
  - rewrite andb_false_r. exact IH.
Qed.

Lemma filter_all {A : Type} (l : list A) : filter (fun _ => true) l = l.
Proof. induction l as [|x t IH]; simpl; [reflexivity | f_equal; exact IH]. Qed.

(** The keys after an update: the former keys, then the new ones, each
    where it first occurs. *)
Lemma dict_keys_update d (items : list (K * V)) :
  dict_keys (dict_update d items)
  = dict_keys d
    ++ filter (fun k => negb (dict_mem k d)) (first_occurrences (dict_keys items)).
Proof.
  unfold dict_update. revert d. induction items as [|[k v] t IH]; intros d; simpl.
  - rewrite app_nil_r. reflexivity.
  - rewrite IH, filter_filter_and.
    rewrite (filter_ext (fun k0 => negb (dict_mem k0 (dict_set k v d)))
                        (fun x => negb (dict_mem x d) && negb (key_eqb x k)))
      by (intros a; rewrite dict_mem_set; apply negb_orb).
    destruct (dict_mem k d) eqn:Em; simpl.
    + rewrite dict_keys_set_present by exact Em. reflexivity.
    + rewrite dict_set_fresh by exact Em. unfold dict_keys at 1. rewrite map_app.
      simpl. rewrite <- app_assoc. reflexivity.
Qed.

Lemma keys_combine (ks : list K) (vs : list V) :
  List.length ks = List.length vs -> dict_keys (combine ks vs) = ks.
Proof.
  unfold dict_keys. revert vs. induction ks as [|k t IH]; intros [|v vs] Hl;
    simpl in *; try discriminate; [reflexivity|].
  f_equal. apply IH. lia.
Qed.

Lemma dict_keys_of_items (items : list (K * V)) :
  dict_keys (dict_of_items items) = first_occurrences (dict_keys items).
Proof.
  unfold dict_of_items. rewrite dict_keys_update. simpl. apply filter_all.
Qed.

End DictFacts.

(** [sorted] sorts. *)

Lemma insert_sorted_perm (x : Z) (l : list Z) : Permutation (x :: l) (insert_sorted x l).
Proof.
  induction l as [|y t IH]; simpl; [reflexivity|].
  destruct (x <=? y); [reflexivity|].
  rewrite perm_swap. constructor. exact IH.
Qed.

Lemma sorted_perm (l : list Z) : Permutation l (sorted l).
Proof.
  induction l as [|x t IH]; simpl; [constructor|].
  rewrite <- insert_sorted_perm. constructor. exact IH.
Qed.



(** ** The record of the incompatible classes *)

Lemma faithful_app (inc : kind -> bool) (a b : list event) :
  faithful inc a -> faithful inc b -> faithful inc (a ++ b).
Proof.
  intros Ha Hb. induction Ha; simpl; [exact Hb | constructor; auto ..].
Qed.

Lemma faithful_follows (inc : kind -> bool) (j : list event) :
  faithful inc j ->
  forall t1 k t2, j = t1 ++ CallConstruct k :: t2 -> inc k = true ->
    exists t2', t2 = LogIncompatible k :: t2'.
Proof.
  induction 1 as [|enc m j Hj IH | k0 j Hk Hj IH | k0 j Hk Hj IH]; intros t1 k t2 E Hi.
  - destruct t1; discriminate.
  - destruct t1 as [|x t1]; [discriminate|]. injection E as _ E. eapply IH; eauto.
  - destruct t1 as [|x t1].
    + injection E as <- <-. eauto.
    + injection E as _ E. destruct t1 as [|y t1]; [discriminate|].
      injection E as _ E. eapply IH; eauto.
  - destruct t1 as [|x t1].
    + injection E as <- <-. congruence.
    + injection E as _ E. eapply IH; eauto.
Qed.

Lemma faithful_marks (inc : kind -> bool) (j : list event) :
  faithful inc j ->
  forall k, In k (marks j) -> In (CallConstruct k) j /\ inc k = true.
Proof.
  induction 1 as [|enc m j Hj IH | k0 j Hk Hj IH | k0 j Hk Hj IH]; simpl; intros k Hin.
  - contradiction.
  - destruct (IH k Hin). auto.
  - destruct Hin as [<- | Hin]; [auto|]. destruct (IH k Hin). auto.
  - destruct (IH k Hin). auto.
Qed.

(** In a faithful stretch that respects the incompatible classes, a class
    whose construction raises is constructed once, recorded at once and
    never constructed again. *)
Lemma faithful_once (inc : kind -> bool) (known : list kind) (j : list event) :
  faithful inc j -> sound known j ->
  forall t1 k t2, j = t1 ++ CallConstruct k :: t2 -> inc k = true ->
    (exists t2', t2 = LogIncompatible k :: t2') /\
    In k (marks j) /\
    ~ In (CallConstruct k) t1 /\ ~ In (CallConstruct k) t2.
Proof.
  intros Hf Hs t1 k t2 E Hi.
  destruct (faithful_follows inc j Hf t1 k t2 E Hi) as [t2' Ht2].
  split; [eauto|]. split; [|split].
  - subst j t2. rewrite marks_app. apply in_or_app. right. simpl. auto.
  - intros Hin. apply in_split in Hin. destruct Hin as (a & b & ->).
    rewrite <- app_assoc in E. simpl in E.
    destruct (faithful_follows inc j Hf a k _ E Hi) as [b' Hb].
    destruct b as [|x b]; [discriminate|]. simpl in Hb. injection Hb as -> _.
    assert (E' : j = (a ++ CallConstruct k :: LogIncompatible k :: b)
                     ++ CallConstruct k :: t2).
    { rewrite E, <- app_assoc. reflexivity. }
    destruct (Hs _ k t2 E') as [_ Hn]. apply Hn.
    apply in_or_app. right. simpl. auto.
  - intros Hin. apply in_split in Hin. destruct Hin as (a & b & Hab).
    subst t2. destruct a as [|x a]; [discriminate|]. simpl in Hab.
    injection Hab as <- ->.
    assert (E' : j = (t1 ++ CallConstruct k :: LogIncompatible k :: a)
                     ++ CallConstruct k :: b).
    { rewrite E, <- app_assoc. reflexivity. }
    destruct (Hs _ k b E') as [_ Hn]. apply Hn.
    apply in_or_app. right. simpl. auto.
Qed.

Section Record.
Context {Decryptor : Type}.
Variable inc : kind -> bool.

Lemma keeps_record_ret {A : Type} (a : A) :
  keeps_record (Decryptor := Decryptor) inc (ret a).
Proof. intros st. exists []. simpl. rewrite app_nil_r. split; [reflexivity | constructor]. Qed.

Lemma keeps_record_raise {A : Type} (e : exn) :
  keeps_record (Decryptor := Decryptor) inc (raise (A := A) e).
Proof. intros st. exists []. simpl. rewrite app_nil_r. split; [reflexivity | constructor]. Qed.

Lemma keeps_record_out_of_fuel {A : Type} :
  keeps_record (Decryptor := Decryptor) inc (out_of_fuel (A := A)).
Proof. intros st. exists []. simpl. rewrite app_nil_r. split; [reflexivity | constructor]. Qed.

Lemma keeps_record_call {A : Type} (c : collab A) :
  keeps_record (Decryptor := Decryptor) inc (call c).
Proof. destruct c; [apply keeps_record_raise | apply keeps_record_ret]. Qed.

Lemma keeps_record_gets {A : Type} (f : parser Decryptor -> A) :
  keeps_record inc (gets f).
Proof. intros st. exists []. simpl. rewrite app_nil_r. split; [reflexivity | constructor]. Qed.

Lemma keeps_record_log_decode (encrypted_config : bytes) (min_config_len : Z) :
  keeps_record (Decryptor := Decryptor) inc (log (CallDecode encrypted_config min_config_len)).
Proof.
  intros st. exists [CallDecode encrypted_config min_config_len]. simpl.
  split; [reflexivity | repeat constructor].
Qed.

Lemma keeps_record_bind {A B : Type} (m : M (parser Decryptor) A)
    (f : A -> M (parser Decryptor) B) :
  keeps_record inc m -> (forall a, keeps_record inc (f a)) -> keeps_record inc (bind m f).
Proof.
  intros Hm Hf st. destruct (Hm st) as (n1 & J1 & F1). unfold bind.
  destruct (m st) as [[a | e |] st1]; simpl in *; [|eauto..].
  destruct (Hf a st1) as (n2 & J2 & F2). exists (n1 ++ n2).
  split; [rewrite J2, J1, app_assoc; reflexivity | apply faithful_app; assumption].
Qed.

Lemma keeps_record_try {A : Type} (m : M (parser Decryptor) A)
    (h : exn -> M (parser Decryptor) A) :
  keeps_record inc m -> (forall e, keeps_record inc (h e)) ->
  keeps_record inc (try_except m h).
Proof.
  intros Hm Hh st. destruct (Hm st) as (n1 & J1 & F1). unfold try_except.
  destruct (m st) as [[a | e |] st1]; simpl in *; [eauto | | eauto].
  destruct (Hh e st1) as (n2 & J2 & F2). exists (n1 ++ n2).
  split; [rewrite J2, J1, app_assoc; reflexivity | apply faithful_app; assumption].
Qed.

End Record.

Ltac record_rule :=
  repeat first
    [ apply keeps_record_ret | apply keeps_record_raise | apply keeps_record_call
    | apply keeps_record_gets | apply keeps_record_out_of_fuel
    | apply keeps_record_log_decode
    | assumption
    | apply keeps_record_bind; [|intros ?]
    | apply keeps_record_try; [|intros ?]
    | match goal with
      | |- keeps_record _ (match ?x with _ => _ end) => destruct x
      end ].

(** ** The parser *)

Section Properties.
Context {Method Decryptor Rules : Type}.
Variable env : Collaborators Method Decryptor Rules.

#[local] Abbreviation state := (parser Decryptor).
#[local] Abbreviation config := (dict str pyval).

Implicit Types st : state.

Lemma kind_in_false (k : kind) (l : list kind) : kind_in k l = false <-> ~ In k l.
Proof.
  unfold kind_in. rewrite <- not_true_iff_false, existsb_exists. split.
  - intros Hn Hin. apply Hn. exists k. split; [exact Hin | apply N.eqb_refl].
  - intros Hn [x [Hin Hx]]. apply N.eqb_eq in Hx. subst x. auto.
Qed.

(** *** The decryptor-selection loop, one iteration at a time *)

Section Decoding.
Variable _dnpp : DotNetPEPayload Method.

Lemma decrypt_with_supported_cons (k : kind) (rest : list kind)
    (item_data : dict str str) st :
  decrypt_with_supported env _dnpp (k :: rest) item_data st =
  if kind_in k (_incompatible_decryptors st) then
    decrypt_with_supported env _dnpp rest item_data st
  else
    match _decryptor st with
    | Some d =>
        match decrypt_encrypted_strings env d item_data with
        | inr (decrypted, d') => (Ok (Some decrypted), set_decryptor (Some d') st)
        | inl _ => decrypt_with_supported env _dnpp rest item_data (set_decryptor None st)
        end
    | None =>
        match decryptor_new env k _dnpp with
        | inr d =>
            let st1 := set_decryptor (Some d) (logged (CallConstruct k) st) in
            match decrypt_encrypted_strings env d item_data with
            | inr (decrypted, d') => (Ok (Some decrypted), set_decryptor (Some d') st1)
            | inl _ => decrypt_with_supported env _dnpp rest item_data (set_decryptor None st1)
            end
        | inl ide =>
            match exn_cls ide with
            | IncompatibleDecryptorException =>
                decrypt_with_supported env _dnpp rest item_data (marked k st)
            | OtherException => (Raise (Collaborator ide), logged (CallConstruct k) st)
            end
        end
    end.
Proof.
  cbn [decrypt_with_supported]. unfold bind at 1. unfold gets at 1.
  destruct (kind_in k (_incompatible_decryptors st)); [reflexivity|].
  unfold bind at 1. unfold gets at 1.
  destruct (_decryptor st) as [d|] eqn:Ed.
  - unfold bind, ret. destruct (decrypt_encrypted_strings env d item_data) as [x | [decrypted d']];
      reflexivity.
  - unfold bind at 1. unfold bind at 1. unfold log at 1, modify at 1.
    destruct (decryptor_new env k _dnpp) as [ide | d].
    + destruct (exn_cls ide); reflexivity.
    + unfold bind, ret, modify.
      destruct (decrypt_encrypted_strings env d item_data) as [x | [decrypted d']];
        reflexivity.
Qed.

Lemma sound_called (k : kind) (inc : list kind) :
  ~ In k inc -> sound inc [CallConstruct k].
Proof.
  intros Hk t1 k' t2 E. destruct t1 as [|x t1].
  - injection E as <- _. auto.
  - destruct t1; discriminate.
Qed.

Lemma sound_marked (k : kind) (inc : list kind) :
  ~ In k inc -> sound inc [CallConstruct k; LogIncompatible k].
Proof.
  intros Hk t1 k' t2 E. destruct t1 as [|x t1].
  - injection E as <- _. auto.
  - destruct t1 as [|y t1]; [discriminate|]. destruct t1; discriminate.
Qed.

Lemma step_set_decryptor st (d : option Decryptor) :
  d = None \/ _decryptor st <> None -> step st (set_decryptor d st) [].
Proof.
  intros Hd. unfold step. simpl. rewrite !app_nil_r.
  split; [reflexivity|]. split; [reflexivity|]. split; [reflexivity|].
  split; [apply sound_nil|]. intros _ Hn. destruct Hd; congruence.
Qed.

Lemma step_called (k : kind) st (d : option Decryptor) :
  ~ In k (_incompatible_decryptors st) ->
  step st (set_decryptor d (logged (CallConstruct k) st)) [CallConstruct k].
Proof.
  intros Hk. unfold step. simpl. rewrite app_nil_r.
  split; [reflexivity|]. split; [reflexivity|]. split; [reflexivity|].
  split; [apply sound_called; exact Hk|].
  intros Hn. exfalso. apply (Hn k). simpl. auto.
Qed.

Lemma step_logged_call (k : kind) st :
  ~ In k (_incompatible_decryptors st) ->
  step st (logged (CallConstruct k) st) [CallConstruct k].
Proof.
  intros Hk. unfold step. simpl. rewrite app_nil_r.
  split; [reflexivity|]. split; [reflexivity|]. split; [reflexivity|].
  split; [apply sound_called; exact Hk|].
  intros Hn. exfalso. apply (Hn k). simpl. auto.
Qed.

Lemma step_marked (k : kind) st :
  ~ In k (_incompatible_decryptors st) ->
  step st (marked k st) [CallConstruct k; LogIncompatible k].
Proof.
  intros Hk. unfold step. simpl.
  split; [reflexivity|]. split; [rewrite <- app_assoc; reflexivity|].
  split; [reflexivity|].
  split; [apply sound_marked; exact Hk|].
  intros Hn. exfalso. apply (Hn k). simpl. auto.
Qed.

Lemma decrypt_with_supported_runs (ks : list kind) (item_data : dict str str) :
  runs no_decode decode_exn (decrypt_with_supported env _dnpp ks item_data).
Proof.
  induction ks as [|k rest IH]; intros st.
  - exists []. simpl.
    split_runs; [apply step_refl | reflexivity | discriminate | discriminate].
  - rewrite decrypt_with_supported_cons.
    destruct (kind_in k (_incompatible_decryptors st)) eqn:Ek; [apply IH|].
    apply kind_in_false in Ek.
    destruct (_decryptor st) as [d|] eqn:Ed.
    + destruct (decrypt_encrypted_strings env d item_data) as [x | [decrypted d']].
      * destruct (IH (set_decryptor None st)) as (n & S & G & F & X).
        exists ([] ++ n). split_runs; auto.
        eapply step_trans; [apply step_set_decryptor; auto | exact S].
      * exists []. simpl. split_runs; try discriminate; [|reflexivity].
        apply step_set_decryptor. right. congruence.
    + destruct (decryptor_new env k _dnpp) as [ide | d].
      * destruct (exn_cls ide).
        -- destruct (IH (marked k st)) as (n & S & G & F & X).
           exists ([CallConstruct k; LogIncompatible k] ++ n).
           split_runs; auto.
           eapply step_trans; [apply step_marked; exact Ek | exact S].
        -- exists [CallConstruct k]. simpl.
           split_runs; [apply step_logged_call; exact Ek | reflexivity | discriminate |].
           intros e [= <-]. exact I.
      * cbv zeta.
        destruct (decrypt_encrypted_strings env d item_data) as [x | [decrypted d']].
        -- destruct (IH (set_decryptor None (set_decryptor (Some d) (logged (CallConstruct k) st))))
             as (n & S & G & F & X).
           exists ([CallConstruct k] ++ n). split_runs; auto.
           eapply step_trans; [|exact S].
           apply (step_called k st None Ek).
        -- exists [CallConstruct k]. simpl.
           split_runs; [| reflexivity | discriminate | discriminate].
           apply (step_called k st (Some d') Ek).
Qed.

(** *** The decoding of the items makes no call of the decoder and raises
    only what the collaborators raise or "All decryptors failed" *)

Ltac inner_rule :=
  first
    [ apply runs_ret; exact no_decode_nil
    | apply runs_gets; exact no_decode_nil
    | apply runs_raise; [exact no_decode_nil | exact I]
    | apply runs_call; [exact no_decode_nil | intros ?; exact I]
    | apply runs_bind; [exact no_decode_app | | intros ?] ].

Lemma translate_fields_runs {V : Type} (raw : list (Z * V))
    (config_fields_map : dict Z str) (item_data : dict str V) :
  runs no_decode decode_exn
       (translate_fields (Decryptor := Decryptor) _dnpp raw config_fields_map item_data).
Proof.
  revert config_fields_map item_data.
  induction raw as [|[k v] rest IH]; intros config_fields_map item_data; simpl.
  - inner_rule.
  - inner_rule; [inner_rule | apply IH].
Qed.

Lemma resolve_user_strings_runs (item_data : dict str Z) :
  runs no_decode decode_exn (resolve_user_strings (Decryptor := Decryptor) _dnpp item_data).
Proof.
  induction item_data as [|[k v] rest IH]; simpl.
  - inner_rule.
  - inner_rule; [inner_rule|]. inner_rule; [apply IH|]. inner_rule.
Qed.

Lemma resolve_byte_arrays_runs (item_data : dict str (Z * Z)) :
  runs no_decode decode_exn (resolve_byte_arrays (Decryptor := Decryptor) _dnpp item_data).
Proof.
  induction item_data as [|[k [arr_size arr_rva]] rest IH]; simpl.
  - inner_rule.
  - inner_rule; [inner_rule|]. inner_rule; [apply IH|]. inner_rule.
Qed.

Lemma decrypt_batch_runs (item_data : dict str str) :
  runs no_decode decode_exn (decrypt_batch env _dnpp item_data).
Proof.
  unfold decrypt_batch.
  inner_rule; [apply decrypt_with_supported_runs|].
  inner_rule; [inner_rule|]. destruct a0; inner_rule.
Qed.

Lemma decode_item_runs (encrypted_config : bytes) (decoded_config : config)
    (config_fields_map : dict Z str) (item : ConfigItem) :
  runs no_decode decode_exn
       (decode_item env _dnpp encrypted_config decoded_config config_fields_map item).
Proof.
  destruct item as [parse_from | parse_from | parse_from]; simpl;
    (inner_rule; [inner_rule|]);
    (inner_rule; [apply translate_fields_runs|]);
    destruct a0 as [fm idata]; destruct (0 <? len idata).
  - inner_rule.
  - inner_rule.
  - inner_rule; [apply resolve_user_strings_runs|].
    inner_rule; [apply decrypt_batch_runs|]. inner_rule.
  - inner_rule.
  - inner_rule; [apply resolve_byte_arrays_runs|]. inner_rule.
  - inner_rule.
Qed.

Lemma decode_items_runs (items : list ConfigItem) (encrypted_config : bytes)
    (decoded_config : config) (config_fields_map : dict Z str)
    (item_data : option config) :
  runs no_decode decode_exn
       (decode_items env _dnpp items encrypted_config decoded_config
                     config_fields_map item_data).
Proof.
  revert decoded_config config_fields_map item_data.
  induction items as [|item rest IH]; intros decoded_config config_fields_map item_data;
    simpl.
  - inner_rule.
  - inner_rule; [apply decode_item_runs|]. destruct a as [[d f] i]. apply IH.
Qed.

Variable remap_config : bool.

Lemma check_threshold_eq (decoded_config : config) (item_data : option config)
    (min_config_len : Z) st :
  check_threshold decoded_config item_data min_config_len st =
  (if len decoded_config <? min_config_len then
     match item_data with
     | None => Raise (UnboundLocalError (lit "item_data"))
     | Some item_data =>
         if dict_mem (lit "UrlHost") item_data then Ok tt
         else Raise (ThresholdNotMet (len decoded_config) min_config_len)
     end
   else Ok tt, st).
Proof.
  unfold check_threshold. destruct (len decoded_config <? min_config_len); [|reflexivity].
  destruct item_data as [d|]; [|reflexivity].
  destruct (dict_mem (lit "UrlHost") d); reflexivity.
Qed.

Lemma remap_fields_runs (ks : list Z) (config_fields_map : dict Z str)
    (decoded_config sorted_decoded_config : config) (normalized_fields : list str) :
  runs no_decode remap_exn
       (remap_fields (Decryptor := Decryptor) env ks config_fields_map decoded_config
                     sorted_decoded_config normalized_fields).
Proof.
  revert sorted_decoded_config normalized_fields.
  induction ks as [|k rest IH]; intros sorted_decoded_config normalized_fields; simpl.
  - inner_rule.
  - destruct (dict_get k config_fields_map) as [key_name|]; [|inner_rule].
    destruct (dict_get key_name decoded_config) as [value|]; [|inner_rule].
    inner_rule; [inner_rule|]. destruct a as [key_normalized value']. apply IH.
Qed.

Lemma remap_or_keep_runs (decoded_config : config) (config_fields_map : dict Z str) :
  runs no_decode remap_exn
       (remap_or_keep (Decryptor := Decryptor) env remap_config decoded_config
                      config_fields_map).
Proof.
  unfold remap_or_keep. destruct remap_config; [|inner_rule].
  inner_rule; [apply remap_fields_runs|]. destruct a as [sorted_decoded_config nf].
  inner_rule.
Qed.

(** [_decrypt_and_decode_config], stage by stage. *)
Lemma decode_unfold (encrypted_config : bytes) (min_config_len : Z) st :
  _decrypt_and_decode_config env _dnpp remap_config encrypted_config min_config_len st =
  match decode_items env _dnpp (SUPPORTED_CONFIG_ITEMS env) encrypted_config [] [] None
                     (logged (CallDecode encrypted_config min_config_len) st) with
  | (Ok (decoded_config, config_fields_map, item_data), st1) =>
      match fst (check_threshold (Decryptor := Decryptor) decoded_config item_data
                                 min_config_len st1) with
      | Ok _ => remap_or_keep env remap_config decoded_config config_fields_map st1
      | Raise e => (Raise e, st1)
      | OutOfFuel => (OutOfFuel, st1)
      end
  | (Raise e, st1) => (Raise e, st1)
  | (OutOfFuel, st1) => (OutOfFuel, st1)
  end.
Proof.
  unfold _decrypt_and_decode_config. unfold bind at 1. unfold log at 1, modify at 1.
  unfold bind at 1. unfold logged, log, modify. simpl snd.
  destruct (decode_items _ _ _ _ _ _ _ _) as [[[[d f] i] | e |] st1]; try reflexivity.
  unfold bind. rewrite check_threshold_eq. simpl fst.
  destruct (len d <? min_config_len); [|reflexivity].
  destruct i as [i|]; [|reflexivity].
  destruct (dict_mem (lit "UrlHost") i); reflexivity.
Qed.

Lemma step_logged_decode (encrypted_config : bytes) (min_config_len : Z) st :
  step st (logged (CallDecode encrypted_config min_config_len) st)
       [CallDecode encrypted_config min_config_len].
Proof.
  unfold step. simpl. rewrite app_nil_r.
  split; [reflexivity|]. split; [reflexivity|]. split; [reflexivity|].
  split; [|auto].
  intros t1 k t2 E. destruct t1 as [|x t1]; [discriminate|]. destruct t1; discriminate.
Qed.

(** A call of the decoder journals itself and then no other call of the
    decoder; it is never cut off. *)
Lemma decode_runs (encrypted_config : bytes) (min_config_len : Z) st :
  exists new,
    step st (snd (_decrypt_and_decode_config env _dnpp remap_config
                    encrypted_config min_config_len st))
         (CallDecode encrypted_config min_config_len :: new) /\
    no_decode new /\
    fst (_decrypt_and_decode_config env _dnpp remap_config
           encrypted_config min_config_len st) <> OutOfFuel.
Proof.
  rewrite decode_unfold.
  pose proof (step_logged_decode encrypted_config min_config_len st) as S0.
  destruct (decode_items_runs (SUPPORTED_CONFIG_ITEMS env) encrypted_config [] [] None
              (logged (CallDecode encrypted_config min_config_len) st))
    as (n1 & S1 & G1 & F1 & X1).
  destruct (decode_items _ _ _ _ _ _ _ _) as [[[[d f] i] | e |] st1]; simpl in *.
  - rewrite check_threshold_eq. simpl fst.
    assert (Hk : exists new, step st (snd (remap_or_keep (Decryptor := Decryptor)
                    env remap_config d f st1))
                   (CallDecode encrypted_config min_config_len :: new) /\
               no_decode new /\
               fst (remap_or_keep (Decryptor := Decryptor) env remap_config d f st1)
                 <> OutOfFuel).
    { destruct (remap_or_keep_runs d f st1) as (n2 & S2 & G2 & F2 & X2).
      exists (n1 ++ n2). split; [|split; [apply no_decode_app; assumption | exact F2]].
      apply (step_trans _ _ _ [CallDecode encrypted_config min_config_len] (n1 ++ n2) S0).
      eapply step_trans; eassumption. }
    assert (Hr : forall e : exn, exists new,
               step st st1 (CallDecode encrypted_config min_config_len :: new) /\
               no_decode new /\ Raise (A := config) e <> OutOfFuel).
    { intros e. exists n1. split; [|split; [exact G1 | discriminate]].
      apply (step_trans _ _ _ [CallDecode encrypted_config min_config_len] n1 S0 S1). }
    destruct (len d <? min_config_len); [|exact Hk].
    destruct i as [i|]; [|apply Hr].
    destruct (dict_mem (lit "UrlHost") i); [exact Hk | apply Hr].
  - exists n1. split; [|split; [exact G1 | discriminate]].
    apply (step_trans _ _ _ [CallDecode encrypted_config min_config_len] n1 S0 S1).
  - congruence.
Qed.

(** *** What the selection loop returns *)

Lemma decrypt_with_supported_break (ks : list kind) (item_data : dict str str) st
    (decrypted : config) st' :
  decrypt_with_supported env _dnpp ks item_data st = (Ok (Some decrypted), st') ->
  _decryptor st' <> None.
Proof.
  revert st. induction ks as [|k rest IH]; intros st; [discriminate|].
  rewrite decrypt_with_supported_cons.
  destruct (kind_in k (_incompatible_decryptors st)); [apply IH|].
  destruct (_decryptor st) as [d|].
  - destruct (decrypt_encrypted_strings env d item_data) as [x | [out d']]; [apply IH|].
    intros [= _ <-]. discriminate.
  - destruct (decryptor_new env k _dnpp) as [ide | d].
    + destruct (exn_cls ide); [apply IH | discriminate].
    + cbv zeta.
      destruct (decrypt_encrypted_strings env d item_data) as [x | [out d']]; [apply IH|].
      intros [= _ <-]. discriminate.
Qed.

Lemma decrypt_with_supported_raises (ks : list kind) (item_data : dict str str) st
    (e : exn) st' :
  decrypt_with_supported env _dnpp ks item_data st = (Raise e, st') ->
  exists c, e = Collaborator c.
Proof.
  revert st. induction ks as [|k rest IH]; intros st; [discriminate|].
  rewrite decrypt_with_supported_cons.
  destruct (kind_in k (_incompatible_decryptors st)); [apply IH|].
  destruct (_decryptor st) as [d|].
  - destruct (decrypt_encrypted_strings env d item_data) as [x | [out d']];
      [apply IH | discriminate].
  - destruct (decryptor_new env k _dnpp) as [ide | d].
    + destruct (exn_cls ide); [apply IH|]. intros [= <- _]. eauto.
    + cbv zeta.
      destruct (decrypt_encrypted_strings env d item_data) as [x | [out d']];
        [apply IH | discriminate].
Qed.

(** C6. In an iteration of the selection loop on a class that is not
    marked incompatible: when the decryption of the batch by the
    decryptor in use raises, the loop goes on with the next class from a
    state with no decryptor selected and the same incompatible classes;
    when it succeeds, the loop ends at once with the decrypted batch and
    that decryptor selected.  The batch raises "All decryptors failed"
    exactly when the loop runs to the end of the registry and leaves no
    decryptor selected. *)
Theorem C6_selection_loop (k : kind) (rest : list kind) (item_data : dict str str) st :
  kind_in k (_incompatible_decryptors st) = false ->
  (forall d x, selected_for env _dnpp k st d ->
     decrypt_encrypted_strings env d item_data = inl x ->
     exists st1,
       _decryptor st1 = None /\
       _incompatible_decryptors st1 = _incompatible_decryptors st /\
       decrypt_with_supported env _dnpp (k :: rest) item_data st =
       decrypt_with_supported env _dnpp rest item_data st1) /\
  (forall d decrypted d', selected_for env _dnpp k st d ->
     decrypt_encrypted_strings env d item_data = inr (decrypted, d') ->
     exists st1,
       _decryptor st1 = Some d' /\
       _incompatible_decryptors st1 = _incompatible_decryptors st /\
       decrypt_with_supported env _dnpp (k :: rest) item_data st =
       (Ok (Some decrypted), st1)) /\
  (fst (decrypt_batch env _dnpp item_data st) = Raise AllDecryptorsFailed <->
   exists st',
     decrypt_with_supported env _dnpp (SUPPORTED_DECRYPTORS env) item_data st =
     (Ok None, st') /\
     _decryptor st' = None).
Proof.
  intros Hk. split; [|split].
  - intros d x Hsel Hdec. rewrite decrypt_with_supported_cons, Hk.
    destruct Hsel as [Hs | [Hs Hnew]]; rewrite Hs.
    + rewrite Hdec. exists (set_decryptor None st). auto.
    + rewrite Hnew. cbv zeta. rewrite Hdec.
      exists (set_decryptor None (set_decryptor (Some d) (logged (CallConstruct k) st))).
      auto.
  - intros d decrypted d' Hsel Hdec. rewrite decrypt_with_supported_cons, Hk.
    destruct Hsel as [Hs | [Hs Hnew]]; rewrite Hs.
    + rewrite Hdec. exists (set_decryptor (Some d') st). auto.
    + rewrite Hnew. cbv zeta. rewrite Hdec.
      exists (set_decryptor (Some d') (set_decryptor (Some d) (logged (CallConstruct k) st))).
      auto.
  - unfold decrypt_batch. unfold bind at 1.
    destruct (decrypt_with_supported env _dnpp (SUPPORTED_DECRYPTORS env) item_data st)
      as [[r | e |] st'] eqn:El.
    + unfold bind, gets. destruct (_decryptor st') as [d|] eqn:Ed; simpl.
      * split; [discriminate|]. intros [st2 [[= _ <-] Hd]]. congruence.
      * split; [|reflexivity]. intros _. exists st'. split; [|exact Ed].
        destruct r as [decrypted|]; [|reflexivity].
        apply decrypt_with_supported_break in El. congruence.
    + simpl. split.
      * intros [= ->]. apply decrypt_with_supported_raises in El.
        destruct El as [c Hc]. discriminate.
      * intros [st2 [Hx _]]. discriminate.
    + simpl. split; [discriminate|]. intros [st2 [Hx _]]. discriminate.
Qed.


(** *** The remapping *)

Lemma remap_fields_spec (ks : list Z) (config_fields_map : dict Z str)
    (decoded_config sorted_decoded_config : config) (normalized_fields : list str)
    st out nf st' :
  remap_fields env ks config_fields_map decoded_config sorted_decoded_config
               normalized_fields st = (Ok (out, nf), st') ->
  exists entries,
    canonicalize env ks config_fields_map decoded_config = Some entries /\
    map field_id entries = ks /\
    out = dict_update sorted_decoded_config (map canonical_item entries) /\
    nf = normalized_fields ++ map original_name (filter is_renamed entries) /\
    st' = st.
Proof.
  revert sorted_decoded_config normalized_fields.
  induction ks as [|k rest IH]; intros acc nfs; simpl.
  - intros [= <- <- <-]. exists []. simpl. rewrite app_nil_r. auto.
  - destruct (dict_get k config_fields_map) as [name|]; [|discriminate].
    destruct (dict_get name decoded_config) as [value|]; [|discriminate].
    unfold bind at 1.
    destruct (check_key_n_value env name value) as [x | [cname cvalue]]; [discriminate|].
    simpl. intros Hr. apply IH in Hr.
    destruct Hr as (entries & Hc & Hid & Ho & Hn & Hs). rewrite Hc.
    eexists. split; [reflexivity|]. simpl. split; [congruence|].
    split; [exact Ho|]. split; [|exact Hs].
    rewrite Hn. unfold is_renamed at 2. simpl.
    destruct (str_eqb cname name); simpl; [reflexivity|].
    rewrite <- app_assoc. reflexivity.
Qed.

Lemma remap_or_keep_spec (decoded_config : config) (config_fields_map : dict Z str)
    st out st' :
  remap_config = true -> is_dict decoded_config ->
  remap_or_keep env remap_config decoded_config config_fields_map st = (Ok out, st') ->
  exists entries,
    canonicalize env (sorted (dict_keys config_fields_map)) config_fields_map
                 decoded_config = Some entries /\
    map field_id entries = sorted (dict_keys config_fields_map) /\
    out = remapped entries decoded_config /\ st' = st.
Proof.
  intros Hr Hd. unfold remap_or_keep. rewrite Hr. unfold bind at 1.
  destruct (remap_fields _ _ _ _ _ _ _) as [[[acc nf] | e |] st1] eqn:Ef; try discriminate.
  apply remap_fields_spec in Ef. destruct Ef as (entries & Hc & Hid & Ho & Hn & Hs).
  unfold ret. intros [= <- <-]. exists entries.
  split; [exact Hc|]. split; [exact Hid|]. split; [|exact Hs].
  simpl in Hn. subst acc nf. unfold remapped, dict_of_items.
  apply dict_update_fresh.
  - apply is_dict_filter. exact Hd.
  - intros k Hk. unfold dict_keys in Hk. apply in_map_iff in Hk.
    destruct Hk as [kv [<- Hin]]. apply filter_In in Hin. destruct Hin as [_ Hf].
    apply andb_true_iff in Hf. destruct Hf as [Hf _]. apply negb_true_iff in Hf. exact Hf.
Qed.







(** *** The two locating strategies *)

Ltac outer_rule :=
  first
    [ apply runs_ret; exact I
    | apply runs_gets; exact I
    | apply runs_raise; [exact I | exact I]
    | apply runs_call; [exact I | intros ?; exact I]
    | apply runs_bind; [intros ? ? ? ?; exact I | | intros ?]
    | apply runs_try with (E1 := any_exn); [intros ? ? ? ?; exact I | | intros ? _] ].

Lemma decode_runs_outer (encrypted_config : bytes) (min_config_len : Z) :
  runs any_journal any_exn
       (_decrypt_and_decode_config env _dnpp remap_config encrypted_config min_config_len).
Proof.
  intros st. destruct (decode_runs encrypted_config min_config_len st) as (n & S & _ & F).
  eexists. split_runs; [exact S | exact I | exact F | intros; exact I].
Qed.

Lemma try_candidates_runs (candidate_cctor_data : dict Z bytes) (min_config_len : Z) :
  runs any_journal any_exn
       (try_candidates env _dnpp remap_config candidate_cctor_data min_config_len).
Proof.
  induction candidate_cctor_data as [|[method_rva method_body] rest IH]; simpl.
  - outer_rule.
  - outer_rule; [|exact IH]. outer_rule; [apply decode_runs_outer | outer_rule].
Qed.

Lemma brute_force_while_runs (fuel : nat) (candidate_cctor_data : dict Z bytes)
    (found : option (Z * config)) (min_config_len : Z) :
  (1 + Z.to_nat (min_config_len - _MIN_CONFIG_LEN_FLOOR + 1) <= fuel)%nat ->
  runs any_journal any_exn
       (brute_force_while env _dnpp remap_config fuel candidate_cctor_data found
                          min_config_len).
Proof.
  revert found min_config_len.
  induction fuel as [|fuel IH]; intros found min_config_len Hf; [lia|]. simpl.
  destruct found as [r|]; [outer_rule|].
  destruct (_MIN_CONFIG_LEN_FLOOR <=? min_config_len) eqn:Em; [|outer_rule].
  apply Z.leb_le in Em. outer_rule; [apply try_candidates_runs|].
  apply IH. unfold _MIN_CONFIG_LEN_FLOOR in *. lia.
Qed.

Lemma cctor_data_runs (candidates : list Method) (acc : dict Z bytes) :
  runs any_journal any_exn (cctor_data (Decryptor := Decryptor) env _dnpp candidates acc).
Proof.
  revert acc. induction candidates as [|m rest IH]; intros acc; simpl.
  - outer_rule.
  - outer_rule; [outer_rule | apply IH].
Qed.

Lemma brute_force_runs :
  runs any_journal any_exn (_get_config_cctor_brute_force env _dnpp remap_config).
Proof.
  unfold _get_config_cctor_brute_force.
  outer_rule; [outer_rule|]. destruct (len a =? 0); [outer_rule|].
  outer_rule; [apply cctor_data_runs|].
  outer_rule; [apply brute_force_while_runs; vm_compute; lia|].
  destruct a1; outer_rule.
Qed.

Lemma verify_hash_while_runs (fuel : nat) (config_method : Method)
    (encrypted_config : bytes) (min_config_len : Z) :
  (1 + Z.to_nat (min_config_len - _MIN_CONFIG_LEN_FLOOR + 1) <= fuel)%nat ->
  runs any_journal any_exn
       (verify_hash_while env _dnpp remap_config fuel config_method encrypted_config
                          min_config_len).
Proof.
  revert min_config_len.
  induction fuel as [|fuel IH]; intros min_config_len Hf; [lia|]. simpl.
  outer_rule.
  - outer_rule; [apply decode_runs_outer | outer_rule].
  - destruct (min_config_len <? _MIN_CONFIG_LEN_FLOOR) eqn:Em; [outer_rule|].
    apply Z.ltb_ge in Em. apply IH. unfold _MIN_CONFIG_LEN_FLOOR in *. lia.
Qed.

Lemma verify_hash_runs :
  runs any_journal any_exn (_get_config_verify_hash_method env _dnpp remap_config).
Proof.
  unfold _get_config_verify_hash_method.
  destruct (search _PATTERN_VERIFY_HASH (data _dnpp)); [|outer_rule].
  outer_rule; [outer_rule|]. outer_rule; [outer_rule|].
  apply verify_hash_while_runs. vm_compute. lia.
Qed.

Lemma get_config_runs (preserve_obfuscated_keys : bool) :
  runs any_journal any_exn (_get_config env _dnpp remap_config preserve_obfuscated_keys).
Proof.
  unfold _get_config. outer_rule.
  - outer_rule; [apply verify_hash_runs|].
    outer_rule; [apply brute_force_runs | outer_rule].
  - destruct a as [config_start decrypted_config].
    destruct (negb preserve_obfuscated_keys
              && _is_likely_obfuscated_config env decrypted_config); outer_rule.
Qed.

(** *** The brute force is the first success over the attempts *)

Lemma first_success_app_none (l1 l2 : list attempt) st tried1 st1 tried2 r st2 :
  first_success env _dnpp remap_config l1 st tried1 None st1 ->
  first_success env _dnpp remap_config l2 st1 tried2 r st2 ->
  first_success env _dnpp remap_config (l1 ++ l2) st (tried1 ++ tried2) r st2.
Proof.
  intros H1. remember None as r1 eqn:Er. revert Er.
  induction H1 as [st | t rv body rest st cfg st' Hd
                  | t rv body rest st e st' tried r1 st'' Hd H1 IH]; intros Er H2.
  - exact H2.
  - discriminate.
  - simpl. eapply fs_miss; [exact Hd | apply IH; assumption].
Qed.

Lemma first_success_app_some (l1 l2 : list attempt) st tried x st1 :
  first_success env _dnpp remap_config l1 st tried (Some x) st1 ->
  first_success env _dnpp remap_config (l1 ++ l2) st tried (Some x) st1.
Proof.
  intros H1. remember (Some x) as r1 eqn:Er. revert Er.
  induction H1 as [st | t rv body rest st cfg st' Hd
                  | t rv body rest st e st' tried r1 st'' Hd H1 IH]; intros Er.
  - discriminate.
  - simpl. apply fs_hit. exact Hd.
  - simpl. eapply fs_miss; [exact Hd | apply IH; assumption].
Qed.

(** The attempts made are a prefix of the attempts to make, all of them
    when none succeeds; the one that succeeds is the last one made. *)
Lemma first_success_prefix (l : list attempt) st tried r st' :
  first_success env _dnpp remap_config l st tried r st' ->
  exists rest,
    l = tried ++ rest /\
    (r = None -> rest = []) /\
    (forall method_rva cfg, r = Some (method_rva, cfg) ->
       exists before t method_body st1,
         tried = before ++ [(t, (method_rva, method_body))] /\
         _decrypt_and_decode_config env _dnpp remap_config method_body t st1
         = (Ok cfg, st')).
Proof.
  induction 1 as [st | t rv body rest st cfg st' Hd
                 | t rv body rest st e st' tried r st'' Hd H1 IH].
  - exists []. split; [reflexivity|]. split; [reflexivity | discriminate].
  - exists rest. split; [reflexivity|]. split; [discriminate|].
    intros mr c [= <- <-]. exists [], t, body, st. auto.
  - destruct IH as (rest' & -> & Hn & Hs). exists rest'.
    split; [reflexivity|]. split; [exact Hn|].
    intros mr c Hr. destruct (Hs mr c Hr) as (before & t' & b' & s1 & -> & Hd').
    exists ((t, (rv, body)) :: before), t', b', s1. auto.
Qed.

(** The journal holds one call of the decoder per attempt made, in order. *)
Lemma first_success_journal (l : list attempt) st tried r st' :
  first_success env _dnpp remap_config l st tried r st' ->
  decode_calls (journal st') = decode_calls (journal st) ++ map attempt_call tried.
Proof.
  assert (Hone : forall body t s,
    decode_calls (journal (snd (_decrypt_and_decode_config env _dnpp remap_config body t s)))
    = decode_calls (journal s) ++ [CallDecode body t]).
  { intros body t s. destruct (decode_runs body t s) as (n & (_ & J & _) & G & _).
    rewrite J, decode_calls_app. simpl. unfold no_decode in G. rewrite G. reflexivity. }
  induction 1 as [st | t rv body rest st cfg st' Hd
                 | t rv body rest st e st' tried r st'' Hd H1 IH].
  - simpl. rewrite app_nil_r. reflexivity.
  - specialize (Hone body t st). rewrite Hd in Hone. exact Hone.
  - specialize (Hone body t st). rewrite Hd in Hone. simpl in Hone.
    rewrite IH, Hone, <- app_assoc. reflexivity.
Qed.

Lemma try_candidates_first_success (candidate_cctor_data : dict Z bytes)
    (min_config_len : Z) st :
  exists tried r st',
    first_success env _dnpp remap_config
      (map (fun c => (min_config_len, c)) candidate_cctor_data) st tried r st' /\
    try_candidates env _dnpp remap_config candidate_cctor_data min_config_len st
    = (Ok r, st').
Proof.
  revert st. induction candidate_cctor_data as [|[rv body] rest IH]; intros st; simpl.
  - exists [], None, st. split; [constructor | reflexivity].
  - unfold try_except, bind.
    destruct (decode_runs body min_config_len st) as (n & _ & _ & F).
    destruct (_decrypt_and_decode_config env _dnpp remap_config body min_config_len st)
      as [[cfg | e |] st1] eqn:Ed.
    + exists [(min_config_len, (rv, body))], (Some (rv, cfg)), st1.
      split; [apply fs_hit; exact Ed | reflexivity].
    + destruct (IH st1) as (tried & r & st' & Hfs & Ht).
      exists ((min_config_len, (rv, body)) :: tried), r, st'.
      split; [eapply fs_miss; eassumption | exact Ht].
    + simpl in F. congruence.
Qed.

Lemma brute_force_while_first_success (n fuel : nat) (candidate_cctor_data : dict Z bytes)
    (min_config_len : Z) st :
  min_config_len - _MIN_CONFIG_LEN_FLOOR + 1 = Z.of_nat n ->
  (n < fuel)%nat ->
  exists tried r st',
    first_success env _dnpp remap_config
      (flat_map (fun t => map (fun c => (t, c)) candidate_cctor_data)
                (descending min_config_len n)) st tried r st' /\
    brute_force_while env _dnpp remap_config fuel candidate_cctor_data None
                      min_config_len st = (Ok r, st').
Proof.
  revert fuel min_config_len st.
  induction n as [|n IH]; intros fuel min_config_len st Hn Hf;
    (destruct fuel as [|fuel]; [lia|]); simpl.
  - replace (_MIN_CONFIG_LEN_FLOOR <=? min_config_len) with false
      by (symmetry; apply Z.leb_gt; lia).
    exists [], None, st. split; [constructor | reflexivity].
  - replace (_MIN_CONFIG_LEN_FLOOR <=? min_config_len) with true
      by (symmetry; apply Z.leb_le; lia).
    unfold bind.
    destruct (try_candidates_first_success candidate_cctor_data min_config_len st)
      as (tried1 & r1 & st1 & Hfs1 & Ht1).
    rewrite Ht1. destruct r1 as [x|].
    + exists tried1, (Some x), st1. split.
      * apply first_success_app_some. exact Hfs1.
      * destruct fuel as [|fuel]; [lia | reflexivity].
    + destruct (IH fuel (min_config_len - 1) st1) as (tried2 & r & st' & Hfs2 & Ht2);
        [lia | lia |].
      exists (tried1 ++ tried2), r, st'. split; [|exact Ht2].
      eapply first_success_app_none; eassumption.
Qed.

Lemma cctor_data_spec (candidates : list Method) (acc cdata : dict Z bytes) st st' :
  cctor_data env _dnpp candidates acc st = (Ok cdata, st') ->
  st' = st /\
  exists bodies,
    Forall2 (fun m b => method_body_from_method _dnpp m = inr b) candidates bodies /\
    cdata = dict_update acc (combine (map (rva env) candidates) bodies).
Proof.
  revert acc. induction candidates as [|m rest IH]; intros acc; simpl.
  - intros [= <- <-]. split; [reflexivity|]. exists []. split; [constructor | reflexivity].
  - unfold bind at 1.
    destruct (method_body_from_method _dnpp m) as [x | body] eqn:Eb; [discriminate|].
    simpl. intros Hr. apply IH in Hr. destruct Hr as [-> (bodies & Hb & ->)].
    split; [reflexivity|]. exists (body :: bodies). split; [|reflexivity].
    constructor; assumption.
Qed.

(** *** Every construction that raises is recorded *)

Lemma decrypt_with_supported_record (ks : list kind) (item_data : dict str str) :
  keeps_record (raises_incompatible env _dnpp)
               (decrypt_with_supported env _dnpp ks item_data).
Proof.
  induction ks as [|k rest IH]; intros st.
  - exists []. simpl. rewrite app_nil_r. split; [reflexivity | constructor].
  - rewrite decrypt_with_supported_cons.
    destruct (kind_in k (_incompatible_decryptors st)); [apply IH|].
    destruct (_decryptor st) as [d|].
    + destruct (decrypt_encrypted_strings env d item_data) as [x | [decrypted d']].
      * apply (IH (set_decryptor None st)).
      * exists []. simpl. rewrite app_nil_r. split; [reflexivity | constructor].
    + pose proof (eq_refl (raises_incompatible env _dnpp k)) as Hi.
      unfold raises_incompatible at 2 in Hi.
      destruct (decryptor_new env k _dnpp) as [ide | d].
      * destruct (exn_cls ide).
        -- destruct (IH (marked k st)) as (n & J & F).
           exists ([CallConstruct k; LogIncompatible k] ++ n).
           split; [rewrite J; simpl; rewrite <- !app_assoc; reflexivity|].
           simpl. apply faithful_marked; assumption.
        -- exists [CallConstruct k]. simpl.
           split; [reflexivity | apply faithful_built; [exact Hi | constructor]].
      * cbv zeta.
        destruct (decrypt_encrypted_strings env d item_data) as [x | [decrypted d']].
        -- destruct (IH (set_decryptor None
                           (set_decryptor (Some d) (logged (CallConstruct k) st))))
             as (n & J & F).
           exists ([CallConstruct k] ++ n).
           split; [rewrite J; simpl; rewrite <- app_assoc; reflexivity|].
           simpl. apply faithful_built; assumption.
        -- exists [CallConstruct k]. simpl.
           split; [reflexivity | apply faithful_built; [exact Hi | constructor]].
Qed.

Lemma translate_fields_record {V : Type} (raw : list (Z * V))
    (config_fields_map : dict Z str) (item_data : dict str V) :
  keeps_record (raises_incompatible env _dnpp)
    (translate_fields (Decryptor := Decryptor) _dnpp raw config_fields_map item_data).
Proof.
  revert config_fields_map item_data.
  induction raw as [|[k v] rest IH]; intros fm idata; simpl; record_rule. apply IH.
Qed.

Lemma resolve_user_strings_record (item_data : dict str Z) :
  keeps_record (raises_incompatible env _dnpp)
    (resolve_user_strings (Decryptor := Decryptor) _dnpp item_data).
Proof. induction item_data as [|[k v] rest IH]; simpl; record_rule. Qed.

Lemma resolve_byte_arrays_record (item_data : dict str (Z * Z)) :
  keeps_record (raises_incompatible env _dnpp)
    (resolve_byte_arrays (Decryptor := Decryptor) _dnpp item_data).
Proof. induction item_data as [|[k [size r]] rest IH]; simpl; record_rule. Qed.

Lemma decode_item_record (encrypted_config : bytes) (decoded_config : config)
    (config_fields_map : dict Z str) (item : ConfigItem) :
  keeps_record (raises_incompatible env _dnpp)
    (decode_item env _dnpp encrypted_config decoded_config config_fields_map item).
Proof.
  destruct item as [parse_from | parse_from | parse_from]; simpl.
  - apply keeps_record_bind; [apply keeps_record_call | intros raw].
    apply keeps_record_bind; [apply translate_fields_record | intros [fm idata]].
    record_rule.
  - apply keeps_record_bind; [apply keeps_record_call | intros raw].
    apply keeps_record_bind; [apply translate_fields_record | intros [fm idata]].
    destruct (0 <? len idata); [|apply keeps_record_ret].
    apply keeps_record_bind; [apply resolve_user_strings_record | intros strings].
    apply keeps_record_bind; [|intros batch; apply keeps_record_ret].
    unfold decrypt_batch.
    apply keeps_record_bind; [apply decrypt_with_supported_record | intros decrypted].
    record_rule.
  - apply keeps_record_bind; [apply keeps_record_call | intros raw].
    apply keeps_record_bind; [apply translate_fields_record | intros [fm idata]].
    destruct (0 <? len idata); [|apply keeps_record_ret].
    apply keeps_record_bind; [apply resolve_byte_arrays_record | intros arrays].
    apply keeps_record_ret.
Qed.

Lemma decode_items_record (items : list ConfigItem) (encrypted_config : bytes)
    (decoded_config : config) (config_fields_map : dict Z str)
    (item_data : option config) :
  keeps_record (raises_incompatible env _dnpp)
    (decode_items env _dnpp items encrypted_config decoded_config config_fields_map
                  item_data).
Proof.
  revert decoded_config config_fields_map item_data.
  induction items as [|item rest IH]; intros d f i; simpl; [apply keeps_record_ret|].
  apply keeps_record_bind; [apply decode_item_record | intros [[d1 f1] i1]; apply IH].
Qed.

Lemma remap_fields_record (ks : list Z) (config_fields_map : dict Z str)
    (decoded_config sorted_decoded_config : config) (normalized_fields : list str) :
  keeps_record (raises_incompatible env _dnpp)
    (remap_fields (Decryptor := Decryptor) env ks config_fields_map decoded_config
                  sorted_decoded_config normalized_fields).
Proof.
  revert sorted_decoded_config normalized_fields.
  induction ks as [|k rest IH]; intros acc nf; simpl; [apply keeps_record_ret|].
  destruct (dict_get k config_fields_map) as [name|]; [|apply keeps_record_raise].
  destruct (dict_get name decoded_config) as [value|]; [|apply keeps_record_raise].
  apply keeps_record_bind; [apply keeps_record_call | intros [kn v]; apply IH].
Qed.

Lemma decode_record (encrypted_config : bytes) (min_config_len : Z) :
  keeps_record (raises_incompatible env _dnpp)
    (_decrypt_and_decode_config env _dnpp remap_config encrypted_config min_config_len).
Proof.
  unfold _decrypt_and_decode_config.
  apply keeps_record_bind; [apply keeps_record_log_decode | intros _].
  apply keeps_record_bind; [apply decode_items_record | intros [[d f] i]].
  apply keeps_record_bind; [unfold check_threshold; record_rule | intros _].
  unfold remap_or_keep. destruct remap_config; [|apply keeps_record_ret].
  apply keeps_record_bind; [apply remap_fields_record | intros [acc nf]].
  apply keeps_record_ret.
Qed.

Lemma try_candidates_record (candidate_cctor_data : dict Z bytes) (min_config_len : Z) :
  keeps_record (raises_incompatible env _dnpp)
    (try_candidates env _dnpp remap_config candidate_cctor_data min_config_len).
Proof.
  induction candidate_cctor_data as [|[method_rva method_body] rest IH]; simpl;
    [apply keeps_record_ret|].
  apply keeps_record_try; [|intros _; exact IH].
  apply keeps_record_bind; [apply decode_record | intros cfg; apply keeps_record_ret].
Qed.

Lemma brute_force_record :
  keeps_record (raises_incompatible env _dnpp)
    (_get_config_cctor_brute_force env _dnpp remap_config).
Proof.
  assert (Hc : forall candidates acc,
             keeps_record (raises_incompatible env _dnpp)
               (cctor_data (Decryptor := Decryptor) env _dnpp candidates acc)).
  { induction candidates as [|m rest IH]; intros acc; simpl; [apply keeps_record_ret|].
    apply keeps_record_bind; [apply keeps_record_call | intros body; apply IH]. }
  assert (Hw : forall fuel cdata found min_config_len,
             keeps_record (raises_incompatible env _dnpp)
               (brute_force_while env _dnpp remap_config fuel cdata found min_config_len)).
  { induction fuel as [|fuel IH]; intros cdata found min_config_len; simpl;
      [apply keeps_record_out_of_fuel|].
    destruct found; [apply keeps_record_ret|].
    destruct (_MIN_CONFIG_LEN_FLOOR <=? min_config_len); [|apply keeps_record_ret].
    apply keeps_record_bind; [apply try_candidates_record | intros found'; apply IH]. }
  unfold _get_config_cctor_brute_force.
  apply keeps_record_bind; [apply keeps_record_call | intros candidates].
  destruct (len candidates =? 0); [apply keeps_record_raise|].
  apply keeps_record_bind; [apply Hc | intros cdata].
  apply keeps_record_bind; [apply Hw | intros found]. record_rule.
Qed.

Lemma verify_hash_record :
  keeps_record (raises_incompatible env _dnpp)
    (_get_config_verify_hash_method env _dnpp remap_config).
Proof.
  assert (Hw : forall fuel config_method encrypted_config min_config_len,
             keeps_record (raises_incompatible env _dnpp)
               (verify_hash_while env _dnpp remap_config fuel config_method
                                  encrypted_config min_config_len)).
  { induction fuel as [|fuel IH]; intros config_method encrypted_config min_config_len;
      simpl; [apply keeps_record_out_of_fuel|].
    apply keeps_record_try.
    - apply keeps_record_bind; [apply decode_record | intros cfg; apply keeps_record_ret].
    - intros e. destruct (min_config_len <? _MIN_CONFIG_LEN_FLOOR);
        [apply keeps_record_raise | apply IH]. }
  unfold _get_config_verify_hash_method.
  destruct (search _PATTERN_VERIFY_HASH (data _dnpp)); [|apply keeps_record_raise].
  apply keeps_record_bind; [apply keeps_record_call | intros config_method].
  apply keeps_record_bind; [apply keeps_record_call | intros encrypted_config].
  apply Hw.
Qed.

Lemma get_config_record (preserve_obfuscated_keys : bool) :
  keeps_record (raises_incompatible env _dnpp)
    (_get_config env _dnpp remap_config preserve_obfuscated_keys).
Proof.
  unfold _get_config.
  apply keeps_record_bind.
  - apply keeps_record_try; [apply verify_hash_record | intros _].
    apply keeps_record_try; [apply brute_force_record | intros e].
    apply keeps_record_raise.
  - intros [config_start decrypted_config]. record_rule.
Qed.

(** C3. The brute force tries the attempts [attempts candidate_cctor_data]
    in order: thresholds 9, 8, 7, 6, 5, and at each threshold every entry
    of the candidate dictionary in the dictionary's order.  The dictionary
    is keyed by RVA (lines 234-237): it has one entry for each RVA, where
    the RVA first occurs among the candidates, with the body of the last
    candidate of that RVA; when the candidates have distinct RVAs it is
    the candidates with their bodies, in the order of enumeration.  The
    brute force returns the result of the first attempt that decodes,
    which is the last attempt made; the calls of the decoder that it
    journals are the attempts up to that one and no other; it raises when
    every attempt has failed. *)
Theorem C3_brute_force_first_success (candidates : list Method)
    (candidate_cctor_data : dict Z bytes) st :
  methods_from_name _dnpp (lit ".cctor") = inr candidates ->
  candidates <> [] ->
  fst (cctor_data env _dnpp candidates [] st) = Ok candidate_cctor_data ->
  thresholds = [9; 8; 7; 6; 5] /\
  (NoDup (map (rva env) candidates) ->
   dict_keys candidate_cctor_data = map (rva env) candidates) /\
  (exists bodies,
     Forall2 (fun m b => method_body_from_method _dnpp m = inr b) candidates bodies /\
     dict_keys candidate_cctor_data = first_occurrences (map (rva env) candidates) /\
     (forall k body,
        dict_get k candidate_cctor_data = Some body <->
        exists before after,
          combine (map (rva env) candidates) bodies = before ++ (k, body) :: after /\
          ~ In k (dict_keys after)) /\
     (NoDup (map (rva env) candidates) ->
      candidate_cctor_data = combine (map (rva env) candidates) bodies)) /\
  exists tried r st',
    first_success env _dnpp remap_config (attempts candidate_cctor_data) st tried r st' /\
    _get_config_cctor_brute_force env _dnpp remap_config st
    = (match r with Some found => Ok found | None => Raise NoValidCctorConfig end, st') /\
    (exists rest, attempts candidate_cctor_data = tried ++ rest /\ (r = None -> rest = [])) /\
    (forall method_rva cfg, r = Some (method_rva, cfg) ->
       exists before t method_body st1,
         tried = before ++ [(t, (method_rva, method_body))] /\
         _decrypt_and_decode_config env _dnpp remap_config method_body t st1
         = (Ok cfg, st')) /\
    decode_calls (journal st') = decode_calls (journal st) ++ map attempt_call tried.
Proof.
  intros Hm Hne Hc. split; [reflexivity|].
  destruct (cctor_data env _dnpp candidates [] st) as [o st1] eqn:Ec. simpl in Hc. subst o.
  apply cctor_data_spec in Ec as Hs. destruct Hs as [-> (bodies & Hb & Hcd)].
  split.
  - intros Hn. rewrite Hcd. unfold dict_update.
    assert (Hl : List.length (map (rva env) candidates) = List.length bodies).
    { rewrite length_map. eapply Forall2_length. exact Hb. }
    change (fold_left _ _ []) with
      (dict_update (K := Z) [] (combine (map (rva env) candidates) bodies)).
    rewrite dict_update_fresh; [| |reflexivity].
    + unfold dict_keys. simpl. revert Hl. generalize (map (rva env) candidates).
      clear. intros l. revert bodies. induction l as [|x l IH]; intros [|b bs] Hl;
        simpl in *; try discriminate; [reflexivity|]. f_equal. apply IH. lia.
    + unfold dict_keys. revert Hl Hn. generalize (map (rva env) candidates).
      clear. intros l. revert bodies. induction l as [|x l IH]; intros [|b bs] Hl Hn;
        simpl in *; try discriminate; [constructor|].
      inversion Hn as [|? ? Hx Hn']; subst. constructor; [|apply IH; [lia | exact Hn']].
      intros Hin. apply Hx. apply in_map_iff in Hin. destruct Hin as [[k v] [<- Hin]].
      apply in_combine_l in Hin. exact Hin.
  - split.
    { assert (Hk : dict_keys (combine (map (rva env) candidates) bodies)
                   = map (rva env) candidates).
      { apply keys_combine. rewrite length_map. eapply Forall2_length. exact Hb. }
      exists bodies. split; [exact Hb|]. split; [|split].
      - rewrite Hcd. change (dict_update [] ?i) with (dict_of_items i).
        rewrite dict_keys_of_items, Hk. reflexivity.
      - intros k body. rewrite Hcd, dict_get_update. split.
        + intros [Hl | [_ Hr]]; [exact Hl | discriminate].
        + intros Hl. left. exact Hl.
      - intros Hn. rewrite Hcd. apply (dict_update_fresh (K := Z) []).
        + unfold is_dict. rewrite Hk. exact Hn.
        + reflexivity. }
    destruct (brute_force_while_first_success 5 loop_fuel candidate_cctor_data
                _MIN_CONFIG_LEN_CEILING st) as (tried & r & st' & Hfs & Hw);
      [reflexivity | vm_compute; lia |].
    change (flat_map _ (descending _MIN_CONFIG_LEN_CEILING 5))
      with (attempts candidate_cctor_data) in Hfs.
    exists tried, r, st'. split; [exact Hfs|]. split; [|split; [|split]].
    + unfold _get_config_cctor_brute_force. unfold bind at 1. rewrite Hm.
      unfold call at 1, ret at 1.
      replace (len candidates =? 0) with false.
      * unfold bind at 1. rewrite Ec. unfold bind at 1. rewrite Hw.
        destruct r; reflexivity.
      * symmetry. apply Z.eqb_neq. unfold len. destruct candidates; [congruence|].
        simpl. lia.
    + destruct (first_success_prefix _ _ _ _ _ Hfs) as (rest & Hr & Hn & _).
      exists rest. auto.
    + destruct (first_success_prefix _ _ _ _ _ Hfs) as (rest & _ & _ & Hlast).
      exact Hlast.
    + eapply first_success_journal. exact Hfs.
Qed.

End Decoding.

(** *** The constructor *)

Lemma init_cases (file_path : str) (yara_rule : option Rules) (data : option bytes)
    (remap_config preserve_obfuscated_keys : bool) :
  __init__ env file_path yara_rule data remap_config preserve_obfuscated_keys =
  if source_given env file_path data then
    match DotNetPEPayload_new env file_path yara_rule data with
    | inl x =>
        (Ok tt, failed file_path (Collaborator x)
                       (set_incompatible_decryptors [] (new_parser file_path)))
    | inr _dnpp =>
        match _get_config env _dnpp remap_config preserve_obfuscated_keys
                          (loaded file_path _dnpp) with
        | (Ok cfg, st) => (Ok tt, reported env cfg st)
        | (Raise e, st) => (Ok tt, failed file_path e st)
        | (OutOfFuel, st) => (OutOfFuel, st)
        end
    end
  else (Ok tt, failed file_path FileNotFound (new_parser file_path)).
Proof.
  unfold __init__, try_except, init_try, source_given, bind, modify, call, ret, raise, gets.
  destruct data as [b|].
  - destruct (DotNetPEPayload_new env file_path yara_rule (Some b)) as [x | _dnpp];
      [reflexivity|].
    fold (loaded (Decryptor := Decryptor) file_path _dnpp).
    destruct (_get_config _ _ _ _ _) as [[cfg | e |] st]; reflexivity.
  - destruct (isfile env file_path); unfold negb; cbv beta iota; [|reflexivity].
    destruct (DotNetPEPayload_new env file_path yara_rule None) as [x | _dnpp];
      [reflexivity|].
    fold (loaded (Decryptor := Decryptor) file_path _dnpp).
    destruct (_get_config _ _ _ _ _) as [[cfg | e |] st]; reflexivity.
Qed.

Lemma loaded_step (file_path : str) (_dnpp : DotNetPEPayload Method) st (new : list event) :
  step (loaded file_path _dnpp) st new ->
  report_sha256 (report st) = sha256 _dnpp /\
  report_yara_possible_family (report st) = yara_match _dnpp /\
  report_key (report st) = [] /\ report_salt (report st) = [] /\
  journal st = new /\
  _incompatible_decryptors st = marks new /\
  sound [] new /\
  ((forall k, ~ In (CallConstruct k) new) -> _decryptor st = None).
Proof.
  intros (R & J & I & S & D). simpl in *. rewrite R. simpl. auto 10.
Qed.

(** C4. The constructor always returns, with a report: it is never cut
    off and raises nothing.  The report holds either a configuration or
    the text of line 106 for the exception that ended the parse: "File
    not found" when there is no source, the exception of the payload
    loader when the payload does not load, and whatever [_get_config]
    raises when it fails; it holds the configuration exactly when
    [_get_config] returns one.  The digest and the family are those of
    the payload whenever it loaded, also when the parse failed later, and
    are empty when there was no source or the payload did not load.  A
    binary with neither the marker nor a static constructor is reported
    as "Could not identify config". *)
Theorem C4_init_always_returns_report (file_path : str) (yara_rule : option Rules)
    (input : option bytes) (remap_config preserve_obfuscated_keys : bool) :
  exists p,
    __init__ env file_path yara_rule input remap_config preserve_obfuscated_keys
    = (Ok tt, p) /\
    ((exists cfg, report_config_ (report p) = ConfigDict cfg) \/
     (exists e, report_config_ (report p) = ConfigError (failure_text file_path e))) /\
    (forall _dnpp,
       source_given env file_path input = true ->
       DotNetPEPayload_new env file_path yara_rule input = inr _dnpp ->
       report_sha256 (report p) = sha256 _dnpp /\
       report_yara_possible_family (report p) = yara_match _dnpp) /\
    (source_given env file_path input = false \/
     (exists x, DotNetPEPayload_new env file_path yara_rule input = inl x) ->
     report_sha256 (report p) = [] /\
     report_yara_possible_family (report p) = [] /\
     exists e, report_config_ (report p) = ConfigError (failure_text file_path e)) /\
    (forall _dnpp,
       source_given env file_path input = true ->
       DotNetPEPayload_new env file_path yara_rule input = inr _dnpp ->
       search _PATTERN_VERIFY_HASH (data _dnpp) = None ->
       methods_from_name _dnpp (lit ".cctor") = inr [] ->
       report_config_ (report p)
       = ConfigError (failure_text file_path (CouldNotIdentifyConfig NoCctorMethod))) /\
    (source_given env file_path input = false ->
     report_config_ (report p) = ConfigError (failure_text file_path FileNotFound)) /\
    (forall x,
       source_given env file_path input = true ->
       DotNetPEPayload_new env file_path yara_rule input = inl x ->
       report_config_ (report p) = ConfigError (failure_text file_path (Collaborator x))) /\
    (forall _dnpp,
       source_given env file_path input = true ->
       DotNetPEPayload_new env file_path yara_rule input = inr _dnpp ->
       match fst (_get_config env _dnpp remap_config preserve_obfuscated_keys
                    (loaded file_path _dnpp)) with
       | Ok cfg => report_config_ (report p) = ConfigDict cfg
       | Raise e => report_config_ (report p) = ConfigError (failure_text file_path e)
       | OutOfFuel => False
       end).
Proof.
  rewrite init_cases. destruct (source_given env file_path input) eqn:Eg.
  - destruct (DotNetPEPayload_new env file_path yara_rule input) as [x | _dnpp] eqn:El.
    + eexists. split; [reflexivity|]. split; [right; eexists; reflexivity|].
      split; [intros ? _ [=]|]. split; [|split; [intros ? _ [=]|]].
      * intros _. simpl. split; [reflexivity|]. split; [reflexivity|].
        eexists; reflexivity.
      * split; [intros [=]|]. split; [intros x' _ [= <-]; reflexivity|].
        intros ? _ [=].
    + destruct (get_config_runs _dnpp remap_config preserve_obfuscated_keys
                  (loaded file_path _dnpp)) as (new & S & _ & F & _).
      assert (Hnone : search _PATTERN_VERIFY_HASH (data _dnpp) = None ->
                      methods_from_name _dnpp (lit ".cctor") = inr [] ->
                      fst (_get_config env _dnpp remap_config preserve_obfuscated_keys
                             (loaded file_path _dnpp))
                      = Raise (CouldNotIdentifyConfig NoCctorMethod)).
      { intros Hs Hm. unfold _get_config, _get_config_verify_hash_method,
          _get_config_cctor_brute_force.
        rewrite Hs. unfold bind at 1. unfold try_except at 1. unfold raise at 1.
        unfold try_except at 1. unfold bind at 1. rewrite Hm. reflexivity. }
      destruct (_get_config env _dnpp remap_config preserve_obfuscated_keys
                  (loaded file_path _dnpp)) as [[cfg | e |] st] eqn:Ec;
        simpl in S, F, Hnone.
      * apply loaded_step in S. destruct S as (Hsha & Hy & _).
        eexists. split; [reflexivity|]. split; [left; eexists; reflexivity|].
        split; [intros d _ [= <-]; simpl; auto|].
        split; [intros [[=] | [x [=]]]|].
        split; [intros d _ [= <-] Hs Hm; specialize (Hnone Hs Hm); discriminate|].
        split; [intros [=]|]. split; [intros x _ [=]|].
        intros d _ [= <-]. rewrite Ec. reflexivity.
      * apply loaded_step in S. destruct S as (Hsha & Hy & _).
        eexists. split; [reflexivity|]. split; [right; eexists; reflexivity|].
        split; [intros d _ [= <-]; simpl; auto|].
        split; [intros [[=] | [x [=]]]|].
        split; [intros d _ [= <-] Hs Hm; specialize (Hnone Hs Hm);
                injection Hnone as ->; reflexivity|].
        split; [intros [=]|]. split; [intros x _ [=]|].
        intros d _ [= <-]. rewrite Ec. reflexivity.
      * congruence.
  - eexists. split; [reflexivity|]. split; [right; eexists; reflexivity|].
    split; [intros ? [=]|]. split; [|split; [intros ? [=]|]].
    + intros _. simpl. split; [reflexivity|]. split; [reflexivity|].
      eexists; reflexivity.
    + split; [intros _; reflexivity|]. split; [intros ? [=]|]. intros ? [=].
Qed.


(** The journal and the decryptor state of a finished constructor. *)
Lemma init_journal (file_path : str) (yara_rule : option Rules) (input : option bytes)
    (remap_config preserve_obfuscated_keys : bool) :
  let p := snd (__init__ env file_path yara_rule input remap_config
                         preserve_obfuscated_keys) in
  _incompatible_decryptors p = marks (journal p) /\
  sound [] (journal p) /\
  ((forall k, ~ In (CallConstruct k) (journal p)) -> _decryptor p = None).
Proof.
  rewrite init_cases. destruct (source_given env file_path input).
  - destruct (DotNetPEPayload_new env file_path yara_rule input) as [x | _dnpp].
    + simpl. split; [reflexivity|]. split; [apply sound_nil | reflexivity].
    + destruct (get_config_runs _dnpp remap_config preserve_obfuscated_keys
                  (loaded file_path _dnpp)) as (new & S & _ & _ & _).
      apply loaded_step in S. destruct S as (_ & _ & _ & _ & J & I & So & D).
      destruct (_get_config env _dnpp remap_config preserve_obfuscated_keys
                  (loaded file_path _dnpp)) as [[cfg | e |] st];
        simpl in *; subst new; auto.
  - simpl. split; [reflexivity|]. split; [apply sound_nil | reflexivity].
Qed.

Lemma init_record (file_path : str) (yara_rule : option Rules) (input : option bytes)
    (remap_config preserve_obfuscated_keys : bool) (_dnpp : DotNetPEPayload Method) :
  source_given env file_path input = true ->
  DotNetPEPayload_new env file_path yara_rule input = inr _dnpp ->
  faithful (raises_incompatible env _dnpp)
           (journal (snd (__init__ env file_path yara_rule input remap_config
                                   preserve_obfuscated_keys))).
Proof.
  intros Hs Hl. rewrite init_cases, Hs, Hl.
  destruct (get_config_record _dnpp remap_config preserve_obfuscated_keys
              (loaded file_path _dnpp)) as (new & J & F).
  destruct (_get_config env _dnpp remap_config preserve_obfuscated_keys
              (loaded file_path _dnpp)) as [[cfg | e |] st]; simpl in *;
    rewrite J; exact F.
Qed.

(** C5. The incompatible classes only grow: a class is appended when
    its construction raises IncompatibleDecryptorException, and a class in
    the list is never called again.  For one call of the decoder, from any
    state: the list afterwards is the list before followed by the classes
    that the call recorded; no class of the list before is called; a
    class that is called and raises the exception is recorded at once, is
    in the list afterwards and is called only that once; and only such
    classes are recorded.  For a whole parse: the list starts empty and is
    what the journal records, no class is called after it is recorded, and
    a class whose construction raises the exception is called once at
    most, across all candidates and thresholds.  In the loop itself
    (lines 132-145): a listed class is skipped, and an unlisted class
    whose construction raises is appended before the loop goes on. *)
Theorem C5_incompatible_never_retried :
  (forall (_dnpp : DotNetPEPayload Method) (remap_config : bool)
          (encrypted_config : bytes) (min_config_len : Z) st,
     let st' := snd (_decrypt_and_decode_config env _dnpp remap_config
                       encrypted_config min_config_len st) in
     exists new,
       journal st' = journal st ++ new /\
       _incompatible_decryptors st'
       = _incompatible_decryptors st ++ marks new /\
       (forall k, In k (_incompatible_decryptors st) -> ~ In (CallConstruct k) new) /\
       (forall t1 k t2,
          new = t1 ++ CallConstruct k :: t2 ->
          raises_incompatible env _dnpp k = true ->
          (exists t2', t2 = LogIncompatible k :: t2') /\
          In k (_incompatible_decryptors st') /\
          ~ In (CallConstruct k) t1 /\ ~ In (CallConstruct k) t2) /\
       (forall k, In k (marks new) ->
          In (CallConstruct k) new /\ raises_incompatible env _dnpp k = true)) /\
  (forall (file_path : str) (yara_rule : option Rules) (input : option bytes)
          (remap_config preserve_obfuscated_keys : bool),
     let p := snd (__init__ env file_path yara_rule input remap_config
                            preserve_obfuscated_keys) in
     _incompatible_decryptors p = marks (journal p) /\
     (forall t1 k t2, journal p = t1 ++ LogIncompatible k :: t2 ->
                      ~ In (CallConstruct k) t2) /\
     (forall _dnpp,
        source_given env file_path input = true ->
        DotNetPEPayload_new env file_path yara_rule input = inr _dnpp ->
        forall t1 k t2,
          journal p = t1 ++ CallConstruct k :: t2 ->
          raises_incompatible env _dnpp k = true ->
          (exists t2', t2 = LogIncompatible k :: t2') /\
          In k (_incompatible_decryptors p) /\
          ~ In (CallConstruct k) t1 /\ ~ In (CallConstruct k) t2)) /\
  (forall (_dnpp : DotNetPEPayload Method) (k : kind) (rest : list kind)
          (item_data : dict str str) st,
     (kind_in k (_incompatible_decryptors st) = true ->
      decrypt_with_supported env _dnpp (k :: rest) item_data st
      = decrypt_with_supported env _dnpp rest item_data st) /\
     (kind_in k (_incompatible_decryptors st) = false ->
      _decryptor st = None ->
      raises_incompatible env _dnpp k = true ->
      decrypt_with_supported env _dnpp (k :: rest) item_data st
      = decrypt_with_supported env _dnpp rest item_data (marked k st) /\
      _incompatible_decryptors (marked k st) = _incompatible_decryptors st ++ [k])).
Proof.
  split; [|split].
  - intros _dnpp remap_config encrypted_config min_config_len st st'. subst st'.
    destruct (decode_runs _dnpp remap_config encrypted_config min_config_len st)
      as (new & (_ & J & I & S & _) & _ & _).
    destruct (decode_record _dnpp remap_config encrypted_config min_config_len st)
      as (n & J' & F).
    rewrite J in J'. apply app_inv_head in J'. subst n.
    eexists. split; [exact J|]. split; [exact I|]. split; [|split].
    + intros k Hk Hin. apply in_split in Hin. destruct Hin as (a & b & Hab).
      destruct (S a k b Hab) as [Hn _]. contradiction.
    + intros t1 k t2 E Hi.
      destruct (faithful_once _ _ _ F S t1 k t2 E Hi) as (H1 & H2 & H3 & H4).
      split; [exact H1|]. split; [|split; assumption].
      rewrite I. apply in_or_app. right. exact H2.
    + intros k Hk. exact (faithful_marks _ _ F k Hk).
  - intros file_path yara_rule input remap_config preserve_obfuscated_keys p.
    destruct (init_journal file_path yara_rule input remap_config
                preserve_obfuscated_keys) as (I & S & _).
    fold p in I, S. split; [exact I|]. split.
    + intros t1 k t2 Hj Hin. apply in_split in Hin. destruct Hin as (a & b & ->).
      destruct (S (t1 ++ LogIncompatible k :: a) k b) as [_ Hn].
      * rewrite Hj, <- app_assoc. reflexivity.
      * apply Hn. apply in_or_app. right. simpl. auto.
    + intros _dnpp Hs Hl t1 k t2 E Hi.
      pose proof (init_record file_path yara_rule input remap_config
                    preserve_obfuscated_keys _dnpp Hs Hl) as F.
      fold p in F.
      destruct (faithful_once _ _ _ F S t1 k t2 E Hi) as (H1 & H2 & H3 & H4).
      split; [exact H1|]. split; [|split; assumption].
      rewrite I. exact H2.
  - intros _dnpp k rest item_data st. split.
    + intros Hk. rewrite decrypt_with_supported_cons, Hk. reflexivity.
    + intros Hk Hd Hi. split; [|reflexivity].
      rewrite decrypt_with_supported_cons, Hk, Hd.
      unfold raises_incompatible in Hi.
      destruct (decryptor_new env k _dnpp) as [ide | d]; [|discriminate].
      destruct (exn_cls ide); [reflexivity | discriminate].
Qed.


Lemma init_report_success (file_path : str) (yara_rule : option Rules)
    (input : option bytes) (remap_config preserve_obfuscated_keys : bool) :
  let p := snd (__init__ env file_path yara_rule input remap_config
                         preserve_obfuscated_keys) in
  forall cfg, report_config_ (report p) = ConfigDict cfg ->
    report_key (report p) = hex_or_None (_decryptor p) (key env) /\
    report_salt (report p) = hex_or_None (_decryptor p) (salt env).
Proof.
  rewrite init_cases. destruct (source_given env file_path input).
  - destruct (DotNetPEPayload_new env file_path yara_rule input) as [x | _dnpp].
    + simpl. discriminate.
    + destruct (get_config_runs _dnpp remap_config preserve_obfuscated_keys
                  (loaded file_path _dnpp)) as (new & _ & _ & F & _).
      destruct (_get_config env _dnpp remap_config preserve_obfuscated_keys
                  (loaded file_path _dnpp)) as [[cfg | e |] st]; simpl in *.
      * auto.
      * discriminate.
      * congruence.
  - simpl. discriminate.
Qed.

Lemma init_report_failure (file_path : str) (yara_rule : option Rules)
    (input : option bytes) (remap_config preserve_obfuscated_keys : bool) :
  let p := snd (__init__ env file_path yara_rule input remap_config
                         preserve_obfuscated_keys) in
  forall s, report_config_ (report p) = ConfigError s ->
    report_key (report p) = [] /\ report_salt (report p) = [].
Proof.
  rewrite init_cases. destruct (source_given env file_path input).
  - destruct (DotNetPEPayload_new env file_path yara_rule input) as [x | _dnpp].
    + simpl. auto.
    + destruct (get_config_runs _dnpp remap_config preserve_obfuscated_keys
                  (loaded file_path _dnpp)) as (new & S & _ & F & _).
      apply loaded_step in S. destruct S as (_ & _ & Hk & Hs & _).
      destruct (_get_config env _dnpp remap_config preserve_obfuscated_keys
                  (loaded file_path _dnpp)) as [[cfg | e |] st]; simpl in *.
      * discriminate.
      * auto.
      * congruence.
  - simpl. auto.
Qed.

Lemma init_config_cases (file_path : str) (yara_rule : option Rules)
    (input : option bytes) (remap_config preserve_obfuscated_keys : bool) :
  let p := snd (__init__ env file_path yara_rule input remap_config
                         preserve_obfuscated_keys) in
  (exists cfg, report_config_ (report p) = ConfigDict cfg) \/
  (exists s, report_config_ (report p) = ConfigError s).
Proof.
  rewrite init_cases. destruct (source_given env file_path input).
  - destruct (DotNetPEPayload_new env file_path yara_rule input) as [x | _dnpp].
    + simpl. eauto.
    + destruct (get_config_runs _dnpp remap_config preserve_obfuscated_keys
                  (loaded file_path _dnpp)) as (new & _ & _ & F & _).
      destruct (_get_config env _dnpp remap_config preserve_obfuscated_keys
                  (loaded file_path _dnpp)) as [[cfg | e |] st]; simpl in *; eauto.
      congruence.
  - simpl. eauto.
Qed.

Lemma hex_nil (b : bytes) : hex b = [] -> b = [].
Proof. destruct b; [reflexivity | discriminate]. Qed.

Lemma lit_None_not_empty : lit "None" <> [].
Proof. discriminate. Qed.

(** C9. After a parse that returned a configuration: if no decryptor
    class was ever called, and more generally if no decryptor is
    selected at the end, key and salt are both "None"; if one is
    selected, each of key and salt is the hex of the decryptor's when it
    has one and "None" when it has none. *)
Theorem C9_key_and_salt_of_success (file_path : str) (yara_rule : option Rules)
    (input : option bytes) (remap_config preserve_obfuscated_keys : bool)
    (cfg : config) :
  let p := snd (__init__ env file_path yara_rule input remap_config
                         preserve_obfuscated_keys) in
  report_config_ (report p) = ConfigDict cfg ->
  ((forall k, ~ In (CallConstruct k) (journal p)) ->
   _decryptor p = None /\
   report_key (report p) = lit "None" /\ report_salt (report p) = lit "None") /\
  match _decryptor p with
  | None => report_key (report p) = lit "None" /\ report_salt (report p) = lit "None"
  | Some d =>
      report_key (report p)
      = match key env d with Some b => hex b | None => lit "None" end /\
      report_salt (report p)
      = match salt env d with Some b => hex b | None => lit "None" end
  end.
Proof.
  intros p Hc.
  destruct (init_report_success file_path yara_rule input remap_config
              preserve_obfuscated_keys cfg Hc) as [Hk Hs].
  destruct (init_journal file_path yara_rule input remap_config
              preserve_obfuscated_keys) as (_ & _ & D).
  fold p in Hk, Hs, D. split.
  - intros Hn. specialize (D Hn). rewrite D in Hk, Hs. auto.
  - destruct (_decryptor p) as [d|]; simpl in Hk, Hs; auto.
Qed.

(** C10, amended. After a parse that failed, key and salt are empty.
    After a parse that returned a configuration, the key is "None" or the
    hex of the selected decryptor's key.  So the key is empty only after
    a failure or when the selected decryptor's key is the empty byte
    string. *)
Theorem C10_key_and_salt_of_failure (file_path : str) (yara_rule : option Rules)
    (input : option bytes) (remap_config preserve_obfuscated_keys : bool) :
  let p := snd (__init__ env file_path yara_rule input remap_config
                         preserve_obfuscated_keys) in
  (forall s, report_config_ (report p) = ConfigError s ->
     report_key (report p) = [] /\ report_salt (report p) = []) /\
  (forall cfg, report_config_ (report p) = ConfigDict cfg ->
     report_key (report p) = lit "None" \/
     exists d b, _decryptor p = Some d /\ key env d = Some b /\
                 report_key (report p) = hex b) /\
  (report_key (report p) = [] ->
   (exists s, report_config_ (report p) = ConfigError s) \/
   (exists d, _decryptor p = Some d /\ key env d = Some [])).
Proof.
  intros p.
  assert (Hsucc : forall cfg, report_config_ (report p) = ConfigDict cfg ->
     report_key (report p) = lit "None" \/
     exists d b, _decryptor p = Some d /\ key env d = Some b /\
                 report_key (report p) = hex b).
  { intros cfg Hc.
    destruct (init_report_success file_path yara_rule input remap_config
                preserve_obfuscated_keys cfg Hc) as [Hk _].
    fold p in Hk. unfold hex_or_None in Hk.
    destruct (_decryptor p) as [d|]; [|auto].
    destruct (key env d) as [b|] eqn:Eb; [|auto]. right. exists d, b. auto. }
  split; [|split].
  - apply init_report_failure.
  - exact Hsucc.
  - intros Hk.
    destruct (init_config_cases file_path yara_rule input remap_config
                preserve_obfuscated_keys) as [[cfg Hc] | Hf]; [|left; exact Hf].
    fold p in Hc. right. destruct (Hsucc cfg Hc) as [Hn | (d & b & Hd & Hb & Hh)].
    + rewrite Hk in Hn. symmetry in Hn. destruct (lit_None_not_empty Hn).
    + rewrite Hk in Hh. symmetry in Hh. apply hex_nil in Hh. subst b. eauto.
Qed.

(** C2, amended. The first key, in the order of the mapping, that is
    not ASCII or is a known name decides: the mapping is classified as
    obfuscated when a key that is not ASCII comes before every known name,
    and as not obfuscated when a known ASCII name comes before every key
    that is not ASCII. *)
Theorem C2_first_signal_decides (before after : config) (k : str) (v : pyval) :
  (forall k', In k' (dict_keys before) ->
     str_in k' (KNOWN_CONFIG_FIELD_NAMES env) = false) ->
  (isascii k = false ->
   _is_likely_obfuscated_config env (before ++ (k, v) :: after) = true) /\
  ((forall k', In k' (dict_keys before) -> isascii k' = true) ->
   isascii k = true -> str_in k (KNOWN_CONFIG_FIELD_NAMES env) = true ->
   _is_likely_obfuscated_config env (before ++ (k, v) :: after) = false).
Proof.
  induction before as [|[k0 v0] t IH]; intros Hknown; simpl.
  - split.
    + intros ->. reflexivity.
    + intros _ -> ->. reflexivity.
  - assert (H0 : str_in k0 (KNOWN_CONFIG_FIELD_NAMES env) = false)
      by (apply Hknown; simpl; auto).
    assert (Ht : forall k', In k' (dict_keys t) ->
                 str_in k' (KNOWN_CONFIG_FIELD_NAMES env) = false)
      by (intros k' Hk'; apply Hknown; simpl; auto).
    destruct (IH Ht) as [IH1 IH2]. rewrite H0. split.
    + intros Hk. destruct (isascii k0); simpl; [apply IH1; exact Hk | reflexivity].
    + intros Ha Hk Hin. rewrite (Ha k0) by (simpl; auto). simpl.
      apply IH2; [|exact Hk | exact Hin]. intros k' Hk'. apply Ha. simpl. auto.
Qed.

End Properties.

(** * The properties on the concrete binaries *)

Section Concrete.
Import Demo.

(** C1. The VerifyHash strategy accepts a decode made with a threshold
    below the floor: on the binary [four_fields], whose configuration
    method holds four plain fields and no UrlHost, the decoder is called
    with thresholds 9, 8, 7, 6, 5 and then 4; it raises the
    insufficient-fields error at 5 and returns the four fields at 4, and
    the strategy returns them. *)
Theorem C1_verify_hash_accepts_below_floor :
  let body := m_body four_fields_method in
  let run := _get_config_verify_hash_method collaborators four_fields false state0 in
  exists cfg,
    fst run = Ok (100, cfg) /\
    len cfg = 4 /\ len cfg < _MIN_CONFIG_LEN_FLOOR /\
    dict_mem (lit "UrlHost") cfg = false /\
    fst (_decrypt_and_decode_config collaborators four_fields false body
           _MIN_CONFIG_LEN_FLOOR state0)
    = Raise (ThresholdNotMet 4 _MIN_CONFIG_LEN_FLOOR) /\
    decode_calls (journal (snd run)) = map (CallDecode body) [9; 8; 7; 6; 5; 4].
Proof.
  eexists. split; [vm_compute; reflexivity|]. vm_compute. auto 10.
Qed.

(** C2 fails when a known name comes first: the mapping
    {"port": "1234", "\u00e9Key": "a"} has a key that is not ASCII and is
    classified as not obfuscated. *)
Lemma C2_known_name_first :
  let cfg := [(lit "port", VStr (lit "1234")); (accented_key, VStr (lit "a"))] in
  In accented_key (dict_keys cfg) /\
  isascii accented_key = false /\
  _is_likely_obfuscated_config collaborators cfg = false.
Proof.
  split; [right; left; reflexivity|]. split; reflexivity.
Qed.

Lemma C2_witness :
  _is_likely_obfuscated_config collaborators
    ([(lit "field_9", VInt 9)] ++ (accented_key, VStr (lit "a"))
       :: [(lit "port", VStr (lit "1234"))]) = true.
Proof.
  refine (proj1 (C2_first_signal_decides collaborators [(lit "field_9", VInt 9)]
                   [(lit "port", VStr (lit "1234"))] accented_key (VStr (lit "a")) _) _).
  - intros k' [<- | []]. reflexivity.
  - reflexivity.
Defined.

(** C3 fails when two static constructors share an RVA.  The first
    candidate of the enumeration holds six plain fields, which the decoder
    accepts at threshold 6 from any state; it is never tried, the body of
    the last candidate is tried before that of the second, and the brute
    force fails. *)
Lemma C3_shared_rva_skips_candidate :
  methods_from_name shared_rva (lit ".cctor")
  = inr [first_shared; between_shared; last_shared] /\
  (forall st, exists cfg,
     fst (_decrypt_and_decode_config collaborators shared_rva false
            (m_body first_shared) 6 st) = Ok cfg) /\
  let run := _get_config_cctor_brute_force collaborators shared_rva false state0 in
  fst run = Raise NoValidCctorConfig /\
  decode_calls (journal (snd run))
  = flat_map (fun t => [CallDecode (m_body last_shared) t;
                        CallDecode (m_body between_shared) t]) [9; 8; 7; 6; 5] /\
  forall t, ~ In (CallDecode (m_body first_shared) t) (journal (snd run)).
Proof.
  split; [reflexivity|]. split; [intros st; eexists; reflexivity|].
  split; [reflexivity|]. split; [reflexivity|].
  intros t. vm_compute. intuition discriminate.
Qed.

Lemma C3_witness :
  exists tried r st',
    _get_config_cctor_brute_force collaborators two_cctors false state0
    = (match r with Some found => Ok found | None => Raise NoValidCctorConfig end, st') /\
    decode_calls (journal st')
    = decode_calls (journal state0) ++ map attempt_call tried.
Proof.
  destruct (C3_brute_force_first_success collaborators two_cctors false
              [small_cctor; config_cctor]
              [(200, m_body small_cctor); (300, m_body config_cctor)] state0)
    as (_ & _ & _ & tried & r & st' & _ & Hb & _ & _ & Hj).
  - reflexivity.
  - discriminate.
  - reflexivity.
  - exists tried, r, st'. split; assumption.
Defined.

Lemma C5_witness :
  let p := snd (__init__ collaborators (lit "cctors.exe") None None false true) in
  ~ In (CallConstruct 0%N) (skipn 4 (journal p)).
Proof.
  intros p.
  refine (proj1 (proj2 (proj1 (proj2 (C5_incompatible_never_retried collaborators))
                          (lit "cctors.exe") None None false true))
                (firstn 3 (journal p)) 0%N (skipn 4 (journal p)) _).
  vm_compute. reflexivity.
Defined.

Lemma C6_witness :
  exists st1,
    _decryptor st1 = None /\
    _incompatible_decryptors st1 = _incompatible_decryptors state0 /\
    decrypt_with_supported collaborators two_cctors [1%N; 2%N]
      [(lit "field_133", lit "enc_133")] state0
    = decrypt_with_supported collaborators two_cctors [2%N]
        [(lit "field_133", lit "enc_133")] st1.
Proof.
  refine (proj1 (C6_selection_loop collaborators two_cctors 1%N [2%N]
                   [(lit "field_133", lit "enc_133")] state0 _)
                {| d_class := 1%N; d_key := None; d_salt := None |}
                (failure "bad padding") _ _).
  - reflexivity.
  - right. split; reflexivity.
  - reflexivity.
Defined.



Lemma C9_witness :
  let p := snd (__init__ collaborators (lit "plain.exe") None None false false) in
  _decryptor p = None /\
  report_key (report p) = lit "None" /\ report_salt (report p) = lit "None".
Proof.
  intros p.
  refine (proj1 (C9_key_and_salt_of_success collaborators (lit "plain.exe") None None
                   false false
                   (match report_config_ (report p) with
                    | ConfigDict cfg => cfg
                    | ConfigError _ => []
                    end) _) _).
  - vm_compute. reflexivity.
  - intros k. vm_compute. intros [H | [H | [H | [H | []]]]]; discriminate.
Defined.

(** C10 fails on a successful parse whose decryptor has an empty key:
    the report holds a configuration and its key is the empty string. *)
Lemma C10_empty_key_on_success :
  let p := snd (__init__ collaborators_empty_key (lit "cctors.exe") None None false true) in
  (exists cfg, report_config_ (report p) = ConfigDict cfg) /\
  report_key (report p) = [].
Proof.
  split; [eexists|]; vm_compute; reflexivity.
Qed.

Lemma C10_witness :
  let p := snd (__init__ collaborators (lit "nothing.exe") None None false false) in
  report_key (report p) = [] /\ report_salt (report p) = [].
Proof.
  intros p.
  refine (proj1 (C10_key_and_salt_of_failure collaborators (lit "nothing.exe") None None
                   false false)
                (failure_text (lit "nothing.exe") FileNotFound) _).
  vm_compute. reflexivity.
Defined.

End Concrete.

(** * Further properties of the methods *)

(** ** The text of an integer *)

Lemma lit_inj (a b : string) : lit a = lit b -> a = b.
Proof.
  unfold lit. intros E.
  rewrite <- (string_of_list_ascii_of_string a), <- (string_of_list_ascii_of_string b).
  f_equal. revert E.
  generalize (list_ascii_of_string a) (list_ascii_of_string b).
  induction l as [|x l IH]; intros [|y l']; simpl; try discriminate; [reflexivity|].
  intros [= Exy E]. f_equal; [|apply IH; exact E].
  rewrite <- (ascii_N_embedding x), <- (ascii_N_embedding y), Exy. reflexivity.
Qed.

Lemma str_of_int_inj (a b : Z) : str_of_int a = str_of_int b -> a = b.
Proof.
  unfold str_of_int. intros E. apply lit_inj in E.
  assert (Hn : forall z, Z.to_int z <> Decimal.Pos Decimal.Nil
                         /\ Z.to_int z <> Decimal.Neg Decimal.Nil).
  { intros [|p|p]; simpl; split; try discriminate;
      intros [= H]; apply (DecimalPos.Unsigned.to_uint_nonnil p H). }
  apply DecimalZ.to_int_inj.
  assert (Hs : Some (Z.to_int a) = Some (Z.to_int b)).
  { rewrite <- (NilZero.isi (Z.to_int a)), <- (NilZero.isi (Z.to_int b)), E;
      try apply Hn. reflexivity. }
  injection Hs. auto.
Qed.

(** ** The redaction of the keys (lines 211-220) *)

Lemma obfuscated_items_keys (i : nat) (items : list (str * pyval)) :
  map fst (obfuscated_items (Z.of_nat i) items)
  = map (fun j => lit "obfuscated_key_" ++ str_of_int (Z.of_nat j))
        (seq i (List.length items)).
Proof.
  revert i. induction items as [|[k v] rest IH]; intros i; simpl; [reflexivity|].
  f_equal. replace (Z.of_nat i + 1) with (Z.of_nat (S i)) by lia. apply IH.
Qed.

Lemma obfuscated_items_values (idx : Z) (items : list (str * pyval)) :
  map snd (obfuscated_items idx items) = map snd items.
Proof.
  revert idx. induction items as [|[k v] rest IH]; intros idx; simpl; [reflexivity|].
  f_equal. apply IH.
Qed.

Lemma redacted_keys_NoDup (i n : nat) :
  NoDup (map (fun j => lit "obfuscated_key_" ++ str_of_int (Z.of_nat j)) (seq i n)).
Proof.
  apply Finite.Injective_map_NoDup; [|apply seq_NoDup].
  intros a b E. apply app_inv_head in E. apply str_of_int_inj in E. lia.
Qed.

(** X4. The redacted mapping has the keys obfuscated_key_1 ...
    obfuscated_key_n, all distinct, and the values of the decoded mapping
    in their order: no value is lost or overwritten. *)
Theorem X4_redaction_keeps_values (decrypted_config : dict str pyval) :
  let out := dict_of_items (obfuscated_items 1 decrypted_config) in
  dict_keys out = redacted_keys (List.length decrypted_config) /\
  map snd out = map snd decrypted_config /\
  len out = len decrypted_config.
Proof.
  assert (Hout : dict_of_items (obfuscated_items 1 decrypted_config)
                 = obfuscated_items 1 decrypted_config).
  { unfold dict_of_items. rewrite dict_update_fresh; [reflexivity | | reflexivity].
    unfold dict_keys. rewrite (obfuscated_items_keys 1). apply redacted_keys_NoDup. }
  intros out. subst out. rewrite Hout. split; [|split].
  - unfold dict_keys. apply (obfuscated_items_keys 1).
  - apply obfuscated_items_values.
  - unfold len. f_equal.
    rewrite <- (length_map snd), obfuscated_items_values, length_map. reflexivity.
Qed.

Section More.
Context {Method Decryptor Rules : Type}.
Variable env : Collaborators Method Decryptor Rules.

#[local] Abbreviation state := (parser Decryptor).
#[local] Abbreviation config := (dict str pyval).

Implicit Types st : state.

(** ** The obfuscation heuristic (lines 296-302) *)

(** X5. A mapping none of whose keys is a known name, the empty mapping
    among them, is classified as obfuscated; and a mapping is classified
    as not obfuscated exactly when one of its keys is a known ASCII name
    and every key before it is ASCII and not a known name. *)
Theorem X5_obfuscated_by_default (cfg : config) :
  ((forall k, In k (dict_keys cfg) -> str_in k (KNOWN_CONFIG_FIELD_NAMES env) = false) ->
   _is_likely_obfuscated_config env cfg = true) /\
  (_is_likely_obfuscated_config env cfg = false <->
   exists before k v after,
     cfg = before ++ (k, v) :: after /\
     (forall k', In k' (dict_keys before) ->
        isascii k' = true /\ str_in k' (KNOWN_CONFIG_FIELD_NAMES env) = false) /\
     isascii k = true /\ str_in k (KNOWN_CONFIG_FIELD_NAMES env) = true).
Proof.
  split.
  - induction cfg as [|[k v] rest IH]; intros Hn; simpl; [reflexivity|].
    destruct (isascii k); simpl; [|reflexivity].
    rewrite (Hn k) by (simpl; auto). apply IH. intros k' Hk'. apply Hn. simpl. auto.
  - induction cfg as [|[k v] rest IH]; simpl.
    + split; [discriminate|]. intros (b & k & v & a & E & _). destruct b; discriminate.
    + destruct (isascii k) eqn:Ea; simpl.
      * destruct (str_in k (KNOWN_CONFIG_FIELD_NAMES env)) eqn:Ek.
        -- split; [|reflexivity]. intros _. exists [], k, v, rest.
           split; [reflexivity|]. split; [intros k' []|]. auto.
        -- rewrite IH. split.
           ++ intros (b & k1 & v1 & a & -> & Hb & Hk1).
              exists ((k, v) :: b), k1, v1, a. split; [reflexivity|].
              split; [|exact Hk1]. intros k' [<- | Hk']; [auto | apply Hb; exact Hk'].
           ++ intros (b & k1 & v1 & a & E & Hb & Ha1 & Hk1).
              destruct b as [|[k0 v0] b].
              ** injection E as <- _ _. congruence.
              ** injection E as <- _ ->. exists b, k1, v1, a.
                 split; [reflexivity|]. split; [|auto].
                 intros k' Hk'. apply Hb. simpl. auto.
      * split; [discriminate|].
        intros (b & k1 & v1 & a & E & Hb & Ha1 & Hk1).
        destruct b as [|[k0 v0] b].
        -- injection E as <- _ _. congruence.
        -- injection E as <- _ _. destruct (Hb k) as [Hx _]; [simpl; auto|]. congruence.
Qed.

(** ** The search of the marker (lines 273-275) *)

Lemma match_here_length (pat : list (option byte)) (s : bytes) :
  match_here pat s = true -> (List.length pat <= List.length s)%nat.
Proof.
  revert s. induction pat as [|o pat IH]; intros s; simpl; [lia|].
  destruct s as [|c s]; [destruct o; discriminate|].
  destruct o as [b|]; simpl.
  - intros H. apply andb_true_iff in H. destruct H as [_ H]. apply IH in H. lia.
  - intros H. apply IH in H. lia.
Qed.

Lemma search_from_none (pat : list (option byte)) (s : bytes) (pos : Z) :
  search_from pat s pos = None <-> forall n, match_here pat (skipn n s) = false.
Proof.
  revert pos. induction s as [|c s IH]; intros pos; simpl.
  - destruct (match_here pat []) eqn:E.
    + split; [discriminate|]. intros H. specialize (H O). simpl in H. congruence.
    + split; [|reflexivity]. intros _ n. rewrite skipn_nil. exact E.
  - destruct (match_here pat (c :: s)) eqn:E.
    + split; [discriminate|]. intros H. specialize (H O). simpl in H. congruence.
    + rewrite IH. split.
      * intros H [|n]; simpl; [exact E | apply H].
      * intros H n. apply (H (S n)).
Qed.

Lemma search_from_some (pat : list (option byte)) (s : bytes) (pos start : Z) :
  search_from pat s pos = Some start ->
  exists n,
    start = pos + Z.of_nat n /\
    match_here pat (skipn n s) = true /\
    (forall m, (m < n)%nat -> match_here pat (skipn m s) = false).
Proof.
  revert pos. induction s as [|c s IH]; intros pos; simpl.
  - destruct (match_here pat []) eqn:E; [|discriminate].
    intros [= <-]. exists O. split; [lia|]. split; [exact E|]. intros m Hm. lia.
  - destruct (match_here pat (c :: s)) eqn:E.
    + intros [= <-]. exists O. split; [lia|]. split; [exact E|]. intros m Hm. lia.
    + intros H. apply IH in H. destruct H as (n & -> & Hn & Hb).
      exists (S n). split; [lia|]. split; [exact Hn|].
      intros [|m] Hm; simpl; [exact E | apply Hb; lia].
Qed.

(** ** What the decoder and the strategies raise *)

Section Strategies.
Variable _dnpp : DotNetPEPayload Method.
Variable remap_config : bool.

Lemma decode_raises (encrypted_config : bytes) (min_config_len : Z) st (e : exn) :
  fst (_decrypt_and_decode_config env _dnpp remap_config encrypted_config
         min_config_len st) = Raise e ->
  decoder_exn e.
Proof.
  rewrite decode_unfold.
  destruct (decode_items_runs env _dnpp (SUPPORTED_CONFIG_ITEMS env) encrypted_config
              [] [] None (logged (CallDecode encrypted_config min_config_len) st))
    as (n1 & _ & _ & _ & X1).
  destruct (decode_items _ _ _ _ _ _ _ _) as [[[[d f] i] | e1 |] st1]; simpl in X1.
  - rewrite check_threshold_eq. simpl fst.
    destruct (remap_or_keep_runs env remap_config d f st1) as (n2 & _ & _ & _ & X2).
    assert (Hk : fst (remap_or_keep (Decryptor := Decryptor) env remap_config d f st1)
                 = Raise e -> decoder_exn e).
    { intros Hr. specialize (X2 e Hr). destruct e; simpl in *; tauto. }
    destruct (len d <? min_config_len); [|exact Hk].
    destruct i as [i|]; [|intros [= <-]; exact I].
    destruct (dict_mem (lit "UrlHost") i); [exact Hk | intros [= <-]; exact I].
  - simpl. intros [= <-]. specialize (X1 e1 eq_refl). destruct e1; simpl in *; tauto.
  - discriminate.
Qed.

Lemma verify_hash_while_S (fuel : nat) (config_method : Method)
    (encrypted_config : bytes) (min_config_len : Z) st :
  verify_hash_while env _dnpp remap_config (S fuel) config_method encrypted_config
                    min_config_len st =
  match _decrypt_and_decode_config env _dnpp remap_config encrypted_config
          min_config_len st with
  | (Ok cfg, st1) => (Ok (rva env config_method, cfg), st1)
  | (Raise e, st1) =>
      if min_config_len <? _MIN_CONFIG_LEN_FLOOR then (Raise e, st1)
      else verify_hash_while env _dnpp remap_config fuel config_method
             encrypted_config (min_config_len - 1) st1
  | (OutOfFuel, st1) => (OutOfFuel, st1)
  end.
Proof.
  cbn [verify_hash_while]. unfold try_except, bind.
  destruct (_decrypt_and_decode_config _ _ _ _ _ _) as [[cfg | e |] st1];
    try reflexivity.
  destruct (min_config_len <? _MIN_CONFIG_LEN_FLOOR); reflexivity.
Qed.

Lemma verify_hash_while_raises (fuel : nat) (config_method : Method)
    (encrypted_config : bytes) (min_config_len : Z) st (e : exn) :
  fst (verify_hash_while env _dnpp remap_config fuel config_method encrypted_config
         min_config_len st) = Raise e ->
  decoder_exn e.
Proof.
  revert min_config_len st. induction fuel as [|fuel IH]; intros min_config_len st;
    [discriminate|].
  rewrite verify_hash_while_S.
  pose proof (decode_raises encrypted_config min_config_len st) as Hd.
  destruct (_decrypt_and_decode_config _ _ _ _ _ _) as [[cfg | e1 |] st1];
    try discriminate.
  destruct (min_config_len <? _MIN_CONFIG_LEN_FLOOR); [|apply IH].
  simpl. intros [= <-]. apply Hd. reflexivity.
Qed.

Lemma verify_hash_cases st :
  _get_config_verify_hash_method env _dnpp remap_config st =
  match search _PATTERN_VERIFY_HASH (data _dnpp) with
  | None => (Raise NoVerifyHashMarker, st)
  | Some start =>
      match method_from_instruction_offset _dnpp start 1 with
      | inl x => (Raise (Collaborator x), st)
      | inr config_method =>
          match method_body_from_method _dnpp config_method with
          | inl x => (Raise (Collaborator x), st)
          | inr encrypted_config =>
              verify_hash_while env _dnpp remap_config loop_fuel config_method
                                encrypted_config _MIN_CONFIG_LEN_CEILING st
          end
      end
  end.
Proof.
  unfold _get_config_verify_hash_method.
  destruct (search _PATTERN_VERIFY_HASH (data _dnpp)) as [start|]; [|reflexivity].
  unfold bind at 1.
  destruct (method_from_instruction_offset _dnpp start 1) as [x | m]; [reflexivity|].
  unfold call at 1, ret at 1. unfold bind at 1.
  destruct (method_body_from_method _dnpp m) as [x | body]; reflexivity.
Qed.

(** X2. The VerifyHash strategy raises "Could not identify VerifyHash()
    marker" exactly when the pattern matches at no offset of the data,
    and then it leaves the object as it was; data shorter than the twenty
    bytes of the pattern never match.  When the pattern matches, the
    offset used is that of the leftmost match. *)
Theorem X2_marker_search st :
  (fst (_get_config_verify_hash_method env _dnpp remap_config st)
   = Raise NoVerifyHashMarker <->
   forall n, match_here _PATTERN_VERIFY_HASH (skipn n (data _dnpp)) = false) /\
  ((forall n, match_here _PATTERN_VERIFY_HASH (skipn n (data _dnpp)) = false) ->
   _get_config_verify_hash_method env _dnpp remap_config st
   = (Raise NoVerifyHashMarker, st)) /\
  ((List.length (data _dnpp) < 20)%nat ->
   _get_config_verify_hash_method env _dnpp remap_config st
   = (Raise NoVerifyHashMarker, st)) /\
  (forall start, search _PATTERN_VERIFY_HASH (data _dnpp) = Some start ->
     exists n,
       start = Z.of_nat n /\ (n + 20 <= List.length (data _dnpp))%nat /\
       match_here _PATTERN_VERIFY_HASH (skipn n (data _dnpp)) = true /\
       (forall m, (m < n)%nat ->
          match_here _PATTERN_VERIFY_HASH (skipn m (data _dnpp)) = false)).
Proof.
  assert (Hnone : (forall n, match_here _PATTERN_VERIFY_HASH (skipn n (data _dnpp)) = false) ->
                  _get_config_verify_hash_method env _dnpp remap_config st
                  = (Raise NoVerifyHashMarker, st)).
  { intros H. apply search_from_none with (pos := 0) in H.
    rewrite verify_hash_cases. unfold search. rewrite H. reflexivity. }
  split; [|split; [exact Hnone|split]].
  - split; [|intros H; rewrite (Hnone H); reflexivity].
    rewrite verify_hash_cases. unfold search.
    destruct (search_from _PATTERN_VERIFY_HASH (data _dnpp) 0) as [start|] eqn:Es.
    + intros Hr. exfalso. revert Hr.
      destruct (method_from_instruction_offset _dnpp start 1) as [x | m]; [discriminate|].
      destruct (method_body_from_method _dnpp m) as [x | body]; [discriminate|].
      intros Hr. apply verify_hash_while_raises in Hr. exact Hr.
    + intros _. exact (proj1 (search_from_none _ _ _) Es).
  - intros Hl. apply Hnone. intros n.
    destruct (match_here _PATTERN_VERIFY_HASH (skipn n (data _dnpp))) eqn:E; [|reflexivity].
    apply match_here_length in E. rewrite length_skipn in E. simpl in E. lia.
  - intros start Hs. unfold search in Hs. apply search_from_some in Hs.
    destruct Hs as (n & -> & Hn & Hb). exists n. split; [lia|]. split; [|auto].
    apply match_here_length in Hn. rewrite length_skipn in Hn. simpl in Hn. lia.
Qed.

(** ** The VerifyHash strategy as a first success (lines 283-294) *)

Lemma verify_hash_while_first_success (n fuel : nat) (config_method : Method)
    (encrypted_config : bytes) (min_config_len : Z) st :
  min_config_len - _MIN_CONFIG_LEN_FLOOR + 2 = Z.of_nat (S n) ->
  (S n <= fuel)%nat ->
  exists tried r st',
    first_success env _dnpp remap_config
      (map (fun t => (t, (rva env config_method, encrypted_config)))
           (descending min_config_len (S n))) st tried r st' /\
    match r with
    | Some found =>
        verify_hash_while env _dnpp remap_config fuel config_method encrypted_config
                          min_config_len st = (Ok found, st')
    | None =>
        exists e st4,
          verify_hash_while env _dnpp remap_config fuel config_method encrypted_config
                            min_config_len st = (Raise e, st') /\
          _decrypt_and_decode_config env _dnpp remap_config encrypted_config
            (_MIN_CONFIG_LEN_FLOOR - 1) st4 = (Raise e, st')
    end.
Proof.
  revert fuel min_config_len st.
  induction n as [|n IH]; intros fuel min_config_len st Hn Hf;
    (destruct fuel as [|fuel]; [lia|]); rewrite verify_hash_while_S;
    destruct (decode_runs env _dnpp remap_config encrypted_config min_config_len st)
      as (new & _ & _ & F);
    destruct (_decrypt_and_decode_config env _dnpp remap_config encrypted_config
                min_config_len st) as [[cfg | e |] st1] eqn:Ed;
    try (simpl in F; congruence).
  - eexists _, (Some (rva env config_method, cfg)), st1.
    split; [apply fs_hit; exact Ed | reflexivity].
  - replace (min_config_len <? _MIN_CONFIG_LEN_FLOOR) with true
      by (symmetry; apply Z.ltb_lt; unfold _MIN_CONFIG_LEN_FLOOR in *; lia).
    eexists _, None, st1. split.
    + eapply fs_miss; [exact Ed | apply fs_exhausted].
    + exists e, st. split; [reflexivity|].
      replace (_MIN_CONFIG_LEN_FLOOR - 1) with min_config_len
        by (unfold _MIN_CONFIG_LEN_FLOOR in *; lia).
      exact Ed.
  - eexists _, (Some (rva env config_method, cfg)), st1.
    split; [apply fs_hit; exact Ed | reflexivity].
  - replace (min_config_len <? _MIN_CONFIG_LEN_FLOOR) with false
      by (symmetry; apply Z.ltb_ge; unfold _MIN_CONFIG_LEN_FLOOR in *; lia).
    destruct (IH fuel (min_config_len - 1) st1) as (tried & r & st' & Hfs & Hr);
      [lia | lia |].
    exists ((min_config_len, (rva env config_method, encrypted_config)) :: tried), r, st'.
    split; [|exact Hr].
    change (descending min_config_len (S (S n)))
      with (min_config_len :: descending (min_config_len - 1) (S n)).
    simpl map. eapply fs_miss; eassumption.
Qed.

(** X1. When the marker is found, the VerifyHash strategy calls the
    decoder on the body of the method that follows it with the thresholds
    9, 8, 7, 6, 5, 4 in that order, returns the mapping of the first call
    that succeeds together with the RVA of that method, and makes no
    call after it; when all six calls fail it raises the exception of
    the last one, made with threshold 4. *)
Theorem X1_verify_hash_first_success (start : Z) (config_method : Method)
    (encrypted_config : bytes) st :
  search _PATTERN_VERIFY_HASH (data _dnpp) = Some start ->
  method_from_instruction_offset _dnpp start 1 = inr config_method ->
  method_body_from_method _dnpp config_method = inr encrypted_config ->
  exists tried r st',
    first_success env _dnpp remap_config
      (map (fun t => (t, (rva env config_method, encrypted_config))) [9; 8; 7; 6; 5; 4])
      st tried r st' /\
    decode_calls (journal st') = decode_calls (journal st) ++ map attempt_call tried /\
    match r with
    | Some found =>
        _get_config_verify_hash_method env _dnpp remap_config st = (Ok found, st')
    | None =>
        exists e st4,
          _get_config_verify_hash_method env _dnpp remap_config st = (Raise e, st') /\
          _decrypt_and_decode_config env _dnpp remap_config encrypted_config 4 st4
          = (Raise e, st')
    end.
Proof.
  intros Hs Hm Hb. rewrite verify_hash_cases, Hs, Hm, Hb.
  destruct (verify_hash_while_first_success 5 loop_fuel config_method encrypted_config
              _MIN_CONFIG_LEN_CEILING st) as (tried & r & st' & Hfs & Hr);
    [reflexivity | vm_compute; lia |].
  exists tried, r, st'. split; [exact Hfs|]. split; [|exact Hr].
  eapply first_success_journal. exact Hfs.
Qed.

(** ** What a strategy accepts (lines 171-174 with 243 and 292) *)

Lemma decode_accepts (encrypted_config : bytes) (min_config_len : Z) st
    (out : config) st' :
  _decrypt_and_decode_config env _dnpp remap_config encrypted_config min_config_len st
  = (Ok out, st') ->
  exists decoded_config config_fields_map item_data st1,
    decode_items env _dnpp (SUPPORTED_CONFIG_ITEMS env) encrypted_config [] [] None
                 (logged (CallDecode encrypted_config min_config_len) st)
    = (Ok (decoded_config, config_fields_map, item_data), st1) /\
    (min_config_len <= len decoded_config \/
     exists last, item_data = Some last /\ dict_mem (lit "UrlHost") last = true) /\
    remap_or_keep env remap_config decoded_config config_fields_map st1 = (Ok out, st').
Proof.
  rewrite decode_unfold.
  destruct (decode_items _ _ _ _ _ _ _ _) as [[[[d f] i] | e |] st1]; try discriminate.
  rewrite check_threshold_eq. simpl fst.
  destruct (len d <? min_config_len) eqn:El.
  - destruct i as [i|]; [|discriminate].
    destruct (dict_mem (lit "UrlHost") i) eqn:Eu; [|discriminate].
    intros Hr. exists d, f, (Some i), st1. split; [reflexivity|]. split; [|exact Hr].
    right. exists i. auto.
  - apply Z.ltb_ge in El. intros Hr. exists d, f, i, st1. auto.
Qed.

(** The mapping that one successful attempt returns, when remapping is
    off, is the decoded mapping itself. *)
Lemma decode_accepts_plain (encrypted_config : bytes) (min_config_len : Z) st
    (out : config) st' :
  remap_config = false ->
  _decrypt_and_decode_config env _dnpp remap_config encrypted_config min_config_len st
  = (Ok out, st') ->
  min_config_len <= len out \/
  exists config_fields_map last,
    decode_items env _dnpp (SUPPORTED_CONFIG_ITEMS env) encrypted_config [] [] None
                 (logged (CallDecode encrypted_config min_config_len) st)
    = (Ok (out, config_fields_map, Some last), st') /\
    dict_mem (lit "UrlHost") last = true.
Proof.
  intros Hr Hd. apply decode_accepts in Hd.
  destruct Hd as (d & f & i & st1 & Hi & Hc & Hk).
  unfold remap_or_keep in Hk. rewrite Hr in Hk. injection Hk as <- <-.
  destruct Hc as [Hc | (last & -> & Hu)]; [left; exact Hc|].
  right. exists f, last. auto.
Qed.

(** X6. Without remapping, a mapping returned by the brute force has at
    least five fields, unless the data of the last item decoded has a
    field UrlHost. *)
Theorem X6_brute_force_floor st (config_start : Z) (cfg : config) st' :
  remap_config = false ->
  _get_config_cctor_brute_force env _dnpp remap_config st
  = (Ok (config_start, cfg), st') ->
  _MIN_CONFIG_LEN_FLOOR <= len cfg \/
  exists t method_body st1 config_fields_map last,
    decode_items env _dnpp (SUPPORTED_CONFIG_ITEMS env) method_body [] [] None
                 (logged (CallDecode method_body t) st1)
    = (Ok (cfg, config_fields_map, Some last), st') /\
    dict_mem (lit "UrlHost") last = true.
Proof.
  intros Hr Hb. unfold _get_config_cctor_brute_force in Hb.
  apply bind_ok_inv in Hb. destruct Hb as (candidates & st1 & _ & Hb).
  destruct (len candidates =? 0); [discriminate|].
  apply bind_ok_inv in Hb. destruct Hb as (cdata & st2 & _ & Hb).
  apply bind_ok_inv in Hb. destruct Hb as (found & st3 & Hw & Hb).
  destruct found as [[rv c]|]; [|discriminate]. injection Hb as -> -> ->.
  destruct (brute_force_while_first_success env _dnpp remap_config 5 loop_fuel cdata
              _MIN_CONFIG_LEN_CEILING st2) as (tried & r & st4 & Hfs & Hw');
    [reflexivity | vm_compute; lia |].
  rewrite Hw in Hw'. injection Hw' as <- <-.
  destruct (first_success_prefix env _dnpp remap_config _ _ _ _ _ Hfs)
    as (rest & Hall & _ & Hlast).
  destruct (Hlast config_start cfg eq_refl) as (before & t & body & s1 & Ht & Hd).
  assert (Hin : In t (descending _MIN_CONFIG_LEN_CEILING 5)).
  { assert (Hmem : In (t, (config_start, body))
                      (flat_map (fun t0 => map (fun c => (t0, c)) cdata)
                                (descending _MIN_CONFIG_LEN_CEILING 5))).
    { rewrite Hall, Ht. apply in_or_app. left. apply in_or_app. right. simpl. auto. }
    apply in_flat_map in Hmem. destruct Hmem as (t0 & Ht0 & Hm).
    apply in_map_iff in Hm. destruct Hm as (c & [= <- _] & _). exact Ht0. }
  apply (decode_accepts_plain body t s1 cfg st' Hr) in Hd.
  destruct Hd as [Hd | (f & last & Hi & Hu)].
  - left. unfold _MIN_CONFIG_LEN_FLOOR.
    simpl in Hin. unfold _MIN_CONFIG_LEN_CEILING in Hin. lia.
  - right. exists t, body, s1, f, last. auto.
Qed.

(** X7. Without remapping, a mapping returned by the VerifyHash strategy
    has at least four fields, unless the data of the last item decoded
    has a field UrlHost: the floor that this strategy keeps is one below
    [_MIN_CONFIG_LEN_FLOOR]. *)
Theorem X7_verify_hash_floor st (config_start : Z) (cfg : config) st' :
  remap_config = false ->
  _get_config_verify_hash_method env _dnpp remap_config st
  = (Ok (config_start, cfg), st') ->
  _MIN_CONFIG_LEN_FLOOR - 1 <= len cfg \/
  exists t method_body st1 config_fields_map last,
    decode_items env _dnpp (SUPPORTED_CONFIG_ITEMS env) method_body [] [] None
                 (logged (CallDecode method_body t) st1)
    = (Ok (cfg, config_fields_map, Some last), st') /\
    dict_mem (lit "UrlHost") last = true.
Proof.
  intros Hr Hv. rewrite verify_hash_cases in Hv.
  destruct (search _PATTERN_VERIFY_HASH (data _dnpp)) as [start|]; [|discriminate].
  destruct (method_from_instruction_offset _dnpp start 1) as [x | m]; [discriminate|].
  destruct (method_body_from_method _dnpp m) as [x | body]; [discriminate|].
  destruct (verify_hash_while_first_success 5 loop_fuel m body
              _MIN_CONFIG_LEN_CEILING st) as (tried & r & st4 & Hfs & Hw);
    [reflexivity | vm_compute; lia |].
  destruct r as [found|].
  - rewrite Hv in Hw. injection Hw as <- <-.
    destruct (first_success_prefix env _dnpp remap_config _ _ _ _ _ Hfs)
      as (rest & Hall & _ & Hlast).
    destruct (Hlast config_start cfg eq_refl) as (before & t & b & s1 & Ht & Hd).
    assert (Hin : In t (descending _MIN_CONFIG_LEN_CEILING 6)).
    { assert (Hmem : In (t, (config_start, b))
                        (map (fun t0 => (t0, (rva env m, body)))
                             (descending _MIN_CONFIG_LEN_CEILING 6))).
      { rewrite Hall, Ht. apply in_or_app. left. apply in_or_app. right. simpl. auto. }
      apply in_map_iff in Hmem. destruct Hmem as (t0 & [= <- _ _] & Ht0). exact Ht0. }
    apply (decode_accepts_plain b t s1 cfg st' Hr) in Hd.
    destruct Hd as [Hd | (f & last & Hi & Hu)].
    + left. unfold _MIN_CONFIG_LEN_FLOOR.
      simpl in Hin. unfold _MIN_CONFIG_LEN_CEILING in Hin. lia.
    + right. exists t, b, s1, f, last. auto.
  - destruct Hw as (e & s4 & Hw & _). rewrite Hv in Hw. discriminate.
Qed.

(** ** What the brute force raises (lines 229-265) *)

Lemma cctor_data_raises (candidates : list Method) (acc : dict Z bytes) st (e : exn) st' :
  cctor_data env _dnpp candidates acc st = (Raise e, st') ->
  st' = st /\ exists x, e = Collaborator x.
Proof.
  revert acc. induction candidates as [|m rest IH]; intros acc; simpl; [discriminate|].
  unfold bind at 1.
  destruct (method_body_from_method _dnpp m) as [x | body]; simpl.
  - intros [= <- <-]. eauto.
  - apply IH.
Qed.

Lemma brute_force_cases st :
  _get_config_cctor_brute_force env _dnpp remap_config st =
  match methods_from_name _dnpp (lit ".cctor") with
  | inl x => (Raise (Collaborator x), st)
  | inr candidates =>
      if len candidates =? 0 then (Raise NoCctorMethod, st)
      else
        match cctor_data env _dnpp candidates [] st with
        | (Ok candidate_cctor_data, st1) =>
            match brute_force_while env _dnpp remap_config loop_fuel
                    candidate_cctor_data None _MIN_CONFIG_LEN_CEILING st1 with
            | (Ok (Some found), st2) => (Ok found, st2)
            | (Ok None, st2) => (Raise NoValidCctorConfig, st2)
            | (Raise e, st2) => (Raise e, st2)
            | (OutOfFuel, st2) => (OutOfFuel, st2)
            end
        | (Raise e, st1) => (Raise e, st1)
        | (OutOfFuel, st1) => (OutOfFuel, st1)
        end
  end.
Proof.
  unfold _get_config_cctor_brute_force. unfold bind at 1.
  destruct (methods_from_name _dnpp (lit ".cctor")) as [x | candidates]; [reflexivity|].
  unfold call at 1, ret at 1. destruct (len candidates =? 0); [reflexivity|].
  unfold bind at 1.
  destruct (cctor_data env _dnpp candidates [] st) as [[cdata | e |] st1]; try reflexivity.
  unfold bind at 1.
  destruct (brute_force_while _ _ _ _ _ _ _ _) as [[[found|] | e |] st2]; reflexivity.
Qed.

Lemma brute_force_raises st (e : exn) :
  fst (_get_config_cctor_brute_force env _dnpp remap_config st) = Raise e ->
  e = NoCctorMethod \/ e = NoValidCctorConfig \/ exists x, e = Collaborator x.
Proof.
  rewrite brute_force_cases.
  destruct (methods_from_name _dnpp (lit ".cctor")) as [x | candidates].
  - intros [= <-]. eauto.
  - destruct (len candidates =? 0); [intros [= <-]; auto|].
    destruct (cctor_data env _dnpp candidates [] st) as [[cdata | e1 |] st1] eqn:Ec.
    + destruct (brute_force_while_first_success env _dnpp remap_config 5 loop_fuel cdata
                  _MIN_CONFIG_LEN_CEILING st1) as (tried & r & st4 & _ & Hw);
        [reflexivity | vm_compute; lia |].
      rewrite Hw. destruct r; [discriminate | intros [= <-]; auto].
    + apply cctor_data_raises in Ec. destruct Ec as [_ [x ->]]. intros [= <-]. eauto.
    + discriminate.
Qed.

(** X8. The brute force raises "No .cctor method could be found"
    exactly when the payload names no static constructor, and then and
    when a lookup of the payload fails it has called no decoder and left
    the object as it was; otherwise it raises only "No valid configuration
    could be parsed from any .cctor methods": no exception of the decoder
    escapes it. *)
Theorem X8_brute_force_raises st :
  (fst (_get_config_cctor_brute_force env _dnpp remap_config st) = Raise NoCctorMethod <->
   methods_from_name _dnpp (lit ".cctor") = inr []) /\
  (methods_from_name _dnpp (lit ".cctor") = inr [] ->
   _get_config_cctor_brute_force env _dnpp remap_config st = (Raise NoCctorMethod, st)) /\
  (forall x,
     fst (_get_config_cctor_brute_force env _dnpp remap_config st)
     = Raise (Collaborator x) ->
     snd (_get_config_cctor_brute_force env _dnpp remap_config st) = st) /\
  (forall e,
     fst (_get_config_cctor_brute_force env _dnpp remap_config st) = Raise e ->
     e = NoCctorMethod \/ e = NoValidCctorConfig \/ exists x, e = Collaborator x).
Proof.
  split; [|split; [|split]].
  - rewrite brute_force_cases.
    destruct (methods_from_name _dnpp (lit ".cctor")) as [x | candidates].
    + split; discriminate.
    + destruct candidates as [|m rest]; [split; reflexivity|].
      replace (len (m :: rest) =? 0) with false
        by (symmetry; apply Z.eqb_neq; unfold len; simpl; lia).
      split; [|discriminate]. intros Hr. exfalso.
      destruct (cctor_data env _dnpp (m :: rest) [] st) as [[cdata | e1 |] st1] eqn:Ec.
      * destruct (brute_force_while_first_success env _dnpp remap_config 5 loop_fuel cdata
                    _MIN_CONFIG_LEN_CEILING st1) as (tried & r & st4 & _ & Hw);
          [reflexivity | vm_compute; lia |].
        rewrite Hw in Hr. destruct r; discriminate.
      * apply cctor_data_raises in Ec. destruct Ec as [_ [x ->]]. discriminate.
      * discriminate.
  - intros Hm. rewrite brute_force_cases, Hm. reflexivity.
  - intros x. rewrite brute_force_cases.
    destruct (methods_from_name _dnpp (lit ".cctor")) as [y | candidates];
      [reflexivity|].
    destruct (len candidates =? 0); [reflexivity|].
    destruct (cctor_data env _dnpp candidates [] st) as [[cdata | e1 |] st1] eqn:Ec.
    + destruct (brute_force_while_first_success env _dnpp remap_config 5 loop_fuel cdata
                  _MIN_CONFIG_LEN_CEILING st1) as (tried & r & st4 & _ & Hw);
        [reflexivity | vm_compute; lia |].
      rewrite Hw. destruct r; discriminate.
    + apply cctor_data_raises in Ec. destruct Ec as [-> _]. reflexivity.
    + discriminate.
  - apply brute_force_raises.
Qed.

(** ** How [_get_config] composes the strategies (lines 198-222) *)

Variable preserve_obfuscated_keys : bool.

Lemma get_config_cases st :
  _get_config env _dnpp remap_config preserve_obfuscated_keys st =
  match _get_config_verify_hash_method env _dnpp remap_config st with
  | (Ok (_, cfg), st1) => (Ok (redact env preserve_obfuscated_keys cfg), st1)
  | (Raise _, st1) =>
      match _get_config_cctor_brute_force env _dnpp remap_config st1 with
      | (Ok (_, cfg), st2) => (Ok (redact env preserve_obfuscated_keys cfg), st2)
      | (Raise e, st2) => (Raise (CouldNotIdentifyConfig e), st2)
      | (OutOfFuel, st2) => (OutOfFuel, st2)
      end
  | (OutOfFuel, st1) => (OutOfFuel, st1)
  end.
Proof.
  unfold _get_config, redact. unfold bind at 1. unfold try_except at 1.
  destruct (_get_config_verify_hash_method env _dnpp remap_config st)
    as [[[s cfg] | e |] st1].
  - destruct (negb preserve_obfuscated_keys && _is_likely_obfuscated_config env cfg);
      reflexivity.
  - unfold try_except at 1.
    destruct (_get_config_cctor_brute_force env _dnpp remap_config st1)
      as [[[s cfg] | e' |] st2]; try reflexivity.
    destruct (negb preserve_obfuscated_keys && _is_likely_obfuscated_config env cfg);
      reflexivity.
  - reflexivity.
Qed.

Lemma get_config_raises st (e : exn) :
  fst (_get_config env _dnpp remap_config preserve_obfuscated_keys st) = Raise e ->
  exists e', e = CouldNotIdentifyConfig e' /\
    (e' = NoCctorMethod \/ e' = NoValidCctorConfig \/ exists x, e' = Collaborator x).
Proof.
  rewrite get_config_cases.
  destruct (_get_config_verify_hash_method env _dnpp remap_config st)
    as [[[s cfg] | e0 |] st1]; try discriminate.
  pose proof (brute_force_raises st1) as Hb.
  destruct (_get_config_cctor_brute_force env _dnpp remap_config st1)
    as [[[s cfg] | e' |] st2]; try discriminate.
  simpl. intros [= <-]. exists e'. split; [reflexivity|]. apply Hb. reflexivity.
Qed.

(** X3. When the VerifyHash strategy returns a mapping, [_get_config]
    returns it (redacted or not) from the state that the strategy left,
    and the brute force is not run.  When it raises, its exception is
    dropped and the brute force runs from the state that it left, so
    with the decryptor selected and the classes marked so far; and
    [_get_config] then raises only "Could not identify config" about the
    exception of the brute force, which is never one of the decoder. *)
Theorem X3_get_config_fallback st :
  (forall config_start cfg st1,
     _get_config_verify_hash_method env _dnpp remap_config st
     = (Ok (config_start, cfg), st1) ->
     _get_config env _dnpp remap_config preserve_obfuscated_keys st
     = (Ok (redact env preserve_obfuscated_keys cfg), st1)) /\
  (forall e st1,
     _get_config_verify_hash_method env _dnpp remap_config st = (Raise e, st1) ->
     (forall config_start cfg st2,
        _get_config_cctor_brute_force env _dnpp remap_config st1
        = (Ok (config_start, cfg), st2) ->
        _get_config env _dnpp remap_config preserve_obfuscated_keys st
        = (Ok (redact env preserve_obfuscated_keys cfg), st2)) /\
     (forall e' st2,
        _get_config_cctor_brute_force env _dnpp remap_config st1 = (Raise e', st2) ->
        _get_config env _dnpp remap_config preserve_obfuscated_keys st
        = (Raise (CouldNotIdentifyConfig e'), st2))) /\
  (forall e,
     fst (_get_config env _dnpp remap_config preserve_obfuscated_keys st) = Raise e ->
     exists e', e = CouldNotIdentifyConfig e' /\
       (e' = NoCctorMethod \/ e' = NoValidCctorConfig \/ exists x, e' = Collaborator x)).
Proof.
  split; [|split].
  - intros s cfg st1 Hv. rewrite get_config_cases, Hv. reflexivity.
  - intros e st1 Hv. split.
    + intros s cfg st2 Hb. rewrite get_config_cases, Hv, Hb. reflexivity.
    + intros e' st2 Hb. rewrite get_config_cases, Hv, Hb. reflexivity.
  - apply get_config_raises.
Qed.

(** ** The selection across batches (lines 131-160) *)

Lemma decrypt_with_supported_reuse (ks : list kind) (item_data : dict str str) st
    (d d' : Decryptor) (decrypted : config) :
  _decryptor st = Some d ->
  decrypt_encrypted_strings env d item_data = inr (decrypted, d') ->
  (exists k, In k ks /\ kind_in k (_incompatible_decryptors st) = false) ->
  decrypt_with_supported env _dnpp ks item_data st
  = (Ok (Some decrypted), set_decryptor (Some d') st).
Proof.
  intros Hd Hdec. induction ks as [|k rest IH]; intros (k0 & Hin & Hk0); [destruct Hin|].
  rewrite decrypt_with_supported_cons.
  destruct (kind_in k (_incompatible_decryptors st)) eqn:Ek.
  - apply IH. destruct Hin as [-> | Hin]; [congruence|]. eauto.
  - rewrite Hd, Hdec. reflexivity.
Qed.

(** X9. A decryptor selected by an earlier batch is reused: when it
    decrypts the batch, the batch returns what it decrypted, no class is
    called, nothing is added to the journal or to the incompatible
    classes, and it stays selected.  (The registry must hold a class that
    is not marked incompatible, as the class of the selected decryptor
    is.) *)
Theorem X9_selected_decryptor_reused (item_data : dict str str) st
    (d d' : Decryptor) (decrypted : config) :
  _decryptor st = Some d ->
  decrypt_encrypted_strings env d item_data = inr (decrypted, d') ->
  (exists k, In k (SUPPORTED_DECRYPTORS env)
             /\ kind_in k (_incompatible_decryptors st) = false) ->
  decrypt_batch env _dnpp item_data st = (Ok decrypted, set_decryptor (Some d') st) /\
  journal (snd (decrypt_batch env _dnpp item_data st)) = journal st /\
  _incompatible_decryptors (snd (decrypt_batch env _dnpp item_data st))
  = _incompatible_decryptors st.
Proof.
  intros Hd Hdec Hk.
  assert (Hb : decrypt_batch env _dnpp item_data st
               = (Ok decrypted, set_decryptor (Some d') st)).
  { unfold decrypt_batch. unfold bind at 1.
    rewrite (decrypt_with_supported_reuse _ _ _ d d' decrypted Hd Hdec Hk).
    reflexivity. }
  rewrite Hb. auto.
Qed.

Lemma kind_in_true (k : kind) (l : list kind) : kind_in k l = true <-> In k l.
Proof.
  destruct (kind_in k l) eqn:E.
  - split; [intros _|reflexivity]. unfold kind_in in E. apply existsb_exists in E.
    destruct E as [x [Hin Hx]]. apply N.eqb_eq in Hx. subst x. exact Hin.
  - apply kind_in_false in E. split; [discriminate | contradiction].
Qed.

Lemma decrypt_with_supported_all_marked (ks : list kind) (item_data : dict str str) st :
  (forall k, In k ks -> In k (_incompatible_decryptors st)) ->
  decrypt_with_supported env _dnpp ks item_data st = (Ok None, st).
Proof.
  induction ks as [|k rest IH]; intros Hall; [reflexivity|].
  rewrite decrypt_with_supported_cons.
  replace (kind_in k (_incompatible_decryptors st)) with true
    by (symmetry; apply kind_in_true; apply Hall; simpl; auto).
  apply IH. intros k' Hk'. apply Hall. simpl. auto.
Qed.

Lemma decrypt_with_supported_none_compatible (ks : list kind)
    (item_data : dict str str) st :
  _decryptor st = None ->
  (forall k, In k ks ->
     In k (_incompatible_decryptors st) \/
     exists x, decryptor_new env k _dnpp = inl x
               /\ exn_cls x = IncompatibleDecryptorException) ->
  exists st',
    decrypt_with_supported env _dnpp ks item_data st = (Ok None, st') /\
    _decryptor st' = None /\
    (forall k, In k ks -> In k (_incompatible_decryptors st')) /\
    (forall k, In k (_incompatible_decryptors st) -> In k (_incompatible_decryptors st')).
Proof.
  revert st. induction ks as [|k rest IH]; intros st Hd Hall.
  - exists st. split; [reflexivity|]. split; [exact Hd|]. split; [intros k []|auto].
  - rewrite decrypt_with_supported_cons.
    destruct (kind_in k (_incompatible_decryptors st)) eqn:Ek.
    + destruct (IH st Hd) as (st' & Hl & Hd' & Hin & Hmono).
      { intros k' Hk'. apply Hall. simpl. auto. }
      exists st'. split; [exact Hl|]. split; [exact Hd'|]. split; [|exact Hmono].
      intros k' [<- | Hk']; [|apply Hin; exact Hk'].
      apply Hmono. apply kind_in_true. exact Ek.
    + rewrite Hd.
      destruct (Hall k) as [Hin | (x & Hx & Hc)]; [simpl; auto | |].
      { apply kind_in_true in Hin. congruence. }
      rewrite Hx, Hc.
      destruct (IH (marked k st)) as (st' & Hl & Hd' & Hin & Hmono).
      { simpl. exact Hd. }
      { intros k' Hk'. destruct (Hall k') as [Hi | Hn]; [simpl; auto | | right; exact Hn].
        left. simpl. apply in_or_app. left. exact Hi. }
      exists st'. split; [exact Hl|]. split; [exact Hd'|]. split.
      * intros k' [<- | Hk']; [|apply Hin; exact Hk'].
        apply Hmono. simpl. apply in_or_app. right. simpl. auto.
      * intros k' Hk'. apply Hmono. simpl.
        apply in_or_app. left. exact Hk'.
Qed.

(** X10. When no decryptor is selected and every class of the registry
    is marked incompatible or cannot be built on the binary (the empty
    registry included), the batch raises "All decryptors failed" and
    leaves every class of the registry marked; and every later batch
    raises the same from that state without calling a class or changing
    anything. *)
Theorem X10_no_compatible_decryptor (item_data : dict str str) st :
  _decryptor st = None ->
  (forall k, In k (SUPPORTED_DECRYPTORS env) ->
     In k (_incompatible_decryptors st) \/
     exists x, decryptor_new env k _dnpp = inl x
               /\ exn_cls x = IncompatibleDecryptorException) ->
  exists st',
    decrypt_batch env _dnpp item_data st = (Raise AllDecryptorsFailed, st') /\
    _decryptor st' = None /\
    (forall k, In k (SUPPORTED_DECRYPTORS env) -> In k (_incompatible_decryptors st')) /\
    (forall later, decrypt_batch env _dnpp later st' = (Raise AllDecryptorsFailed, st')).
Proof.
  intros Hd Hall.
  destruct (decrypt_with_supported_none_compatible (SUPPORTED_DECRYPTORS env) item_data
              st Hd Hall) as (st' & Hl & Hd' & Hin & _).
  exists st'. split; [|split; [exact Hd'|split; [exact Hin|]]].
  - unfold decrypt_batch. unfold bind at 1. rewrite Hl. unfold bind, gets.
    rewrite Hd'. reflexivity.
  - intros later. unfold decrypt_batch. unfold bind at 1.
    rewrite (decrypt_with_supported_all_marked _ later st' Hin).
    unfold bind, gets. rewrite Hd'. reflexivity.
Qed.

(** ** The parts of the decoder that leave the object alone *)

Lemma quiet_ret {A : Type} (a : A) : quiet (Decryptor := Decryptor) (ret a).
Proof. intros st. reflexivity. Qed.

Lemma quiet_raise {A : Type} (e : exn) : quiet (Decryptor := Decryptor) (raise (A := A) e).
Proof. intros st. reflexivity. Qed.

Lemma quiet_call {A : Type} (c : collab A) : quiet (Decryptor := Decryptor) (call c).
Proof. destruct c; intros st; reflexivity. Qed.

Lemma quiet_bind {A B : Type} (m : M state A) (f : A -> M state B) :
  quiet m -> (forall a, quiet (f a)) -> quiet (bind m f).
Proof.
  intros Hm Hf st. unfold bind. specialize (Hm st).
  destruct (m st) as [[a | e |] st1]; simpl in *; subst; [apply Hf | reflexivity..].
Qed.

Lemma translate_fields_quiet {V : Type} (raw : list (Z * V))
    (config_fields_map : dict Z str) (item_data : dict str V) :
  quiet (translate_fields (Decryptor := Decryptor) _dnpp raw config_fields_map item_data).
Proof.
  revert config_fields_map item_data.
  induction raw as [|[k v] rest IH]; intros fm idata; simpl.
  - apply quiet_ret.
  - apply quiet_bind; [apply quiet_call | intros name; apply IH].
Qed.

Lemma resolve_byte_arrays_quiet (item_data : dict str (Z * Z)) :
  quiet (resolve_byte_arrays (Decryptor := Decryptor) _dnpp item_data).
Proof.
  induction item_data as [|[k [size r]] rest IH]; simpl.
  - apply quiet_ret.
  - apply quiet_bind; [apply quiet_call | intros b].
    apply quiet_bind; [apply IH | intros rest'; apply quiet_ret].
Qed.

Lemma remap_fields_quiet (ks : list Z) (config_fields_map : dict Z str)
    (decoded_config sorted_decoded_config : config) (normalized_fields : list str) :
  quiet (remap_fields (Decryptor := Decryptor) env ks config_fields_map decoded_config
                      sorted_decoded_config normalized_fields).
Proof.
  revert sorted_decoded_config normalized_fields.
  induction ks as [|k rest IH]; intros acc nf; simpl; [apply quiet_ret|].
  destruct (dict_get k config_fields_map) as [name|]; [|apply quiet_raise].
  destruct (dict_get name decoded_config) as [value|]; [|apply quiet_raise].
  apply quiet_bind; [apply quiet_call | intros [kn v]; apply IH].
Qed.

Lemma remap_or_keep_quiet (decoded_config : config) (config_fields_map : dict Z str) :
  quiet (remap_or_keep (Decryptor := Decryptor) env remap_config decoded_config
                       config_fields_map).
Proof.
  unfold remap_or_keep. destruct remap_config; [|apply quiet_ret].
  apply quiet_bind; [apply remap_fields_quiet | intros [acc nf]; apply quiet_ret].
Qed.

Lemma decode_item_quiet (encrypted_config : bytes) (decoded_config : config)
    (config_fields_map : dict Z str) (item : ConfigItem) :
  no_encrypted_string encrypted_config item ->
  quiet (decode_item env _dnpp encrypted_config decoded_config config_fields_map item).
Proof.
  destruct item as [parse_from | parse_from | parse_from]; simpl; intros Hn.
  - apply quiet_bind; [apply quiet_call | intros raw].
    apply quiet_bind; [apply translate_fields_quiet | intros [fm idata]].
    destruct (0 <? len idata); apply quiet_ret.
  - destruct Hn as [Hn | [x Hn]]; rewrite Hn; intros st; reflexivity.
  - apply quiet_bind; [apply quiet_call | intros raw].
    apply quiet_bind; [apply translate_fields_quiet | intros [fm idata]].
    destruct (0 <? len idata); [|apply quiet_ret].
    apply quiet_bind; [apply resolve_byte_arrays_quiet | intros i; apply quiet_ret].
Qed.

Lemma decode_items_quiet (items : list ConfigItem) (encrypted_config : bytes)
    (decoded_config : config) (config_fields_map : dict Z str)
    (item_data : option config) :
  Forall (no_encrypted_string encrypted_config) items ->
  quiet (decode_items env _dnpp items encrypted_config decoded_config
                      config_fields_map item_data).
Proof.
  revert decoded_config config_fields_map item_data.
  induction items as [|item rest IH]; intros d f i Hall; simpl; [apply quiet_ret|].
  inversion Hall as [|? ? Hitem Hrest]; subst.
  apply quiet_bind; [apply decode_item_quiet; exact Hitem|].
  intros [[d1 f1] i1]. apply IH. exact Hrest.
Qed.

(** X11. When the bytecode holds no encrypted string (every
    encrypted-string item class parses it to nothing or fails), a call of
    the decoder, whatever its outcome, calls no decryptor class and leaves
    the selected decryptor and the incompatible classes as they were: it
    only journals itself. *)
Theorem X11_no_encrypted_string_no_selection (encrypted_config : bytes)
    (min_config_len : Z) st :
  Forall (no_encrypted_string encrypted_config) (SUPPORTED_CONFIG_ITEMS env) ->
  let st' := snd (_decrypt_and_decode_config env _dnpp remap_config encrypted_config
                    min_config_len st) in
  st' = logged (CallDecode encrypted_config min_config_len) st /\
  _decryptor st' = _decryptor st /\
  _incompatible_decryptors st' = _incompatible_decryptors st /\
  journal st' = journal st ++ [CallDecode encrypted_config min_config_len].
Proof.
  intros Hall st'.
  assert (Hq : st' = logged (CallDecode encrypted_config min_config_len) st).
  { subst st'. rewrite decode_unfold.
    pose proof (decode_items_quiet (SUPPORTED_CONFIG_ITEMS env) encrypted_config [] []
                  None Hall (logged (CallDecode encrypted_config min_config_len) st))
      as Hi.
    destruct (decode_items _ _ _ _ _ _ _ _) as [[[[d f] i] | e |] st1]; simpl in Hi;
      subst st1; [|reflexivity..].
    destruct (fst (check_threshold d i min_config_len _)); [|reflexivity..].
    apply remap_or_keep_quiet. }
  rewrite Hq. auto.
Qed.

(** ** When the remapping succeeds (lines 175-193) *)

Lemma remap_fields_total (ks : list Z) (config_fields_map : dict Z str)
    (decoded_config sorted_decoded_config : config) (normalized_fields : list str)
    (entries : list canonical_entry) st :
  canonicalize env ks config_fields_map decoded_config = Some entries ->
  remap_fields env ks config_fields_map decoded_config sorted_decoded_config
               normalized_fields st
  = (Ok (dict_update sorted_decoded_config (map canonical_item entries),
         normalized_fields ++ map original_name (filter is_renamed entries)), st).
Proof.
  revert sorted_decoded_config normalized_fields entries.
  induction ks as [|k rest IH]; intros acc nf entries; simpl.
  - intros [= <-]. simpl. rewrite app_nil_r. reflexivity.
  - destruct (dict_get k config_fields_map) as [name|]; [|discriminate].
    destruct (dict_get name decoded_config) as [value|]; [|discriminate].
    destruct (check_key_n_value env name value) as [x | [cname cvalue]]; [discriminate|].
    destruct (canonicalize env rest config_fields_map decoded_config) as [tl|] eqn:Et;
      [|discriminate].
    intros [= <-]. unfold bind at 1. simpl call. unfold ret at 1.
    rewrite (IH _ _ tl eq_refl). simpl. unfold is_renamed at 2. simpl.
    destruct (str_eqb cname name); simpl; [reflexivity|].
    rewrite <- app_assoc. reflexivity.
Qed.

Lemma remap_fields_key_error (ks : list Z) (config_fields_map : dict Z str)
    (decoded_config sorted_decoded_config : config) (normalized_fields : list str)
    st (name : str) :
  (forall k, In k ks -> dict_get k config_fields_map <> None) ->
  fst (remap_fields env ks config_fields_map decoded_config sorted_decoded_config
         normalized_fields st) = Raise (KeyError name) ->
  dict_get name decoded_config = None /\
  exists k, In k ks /\ dict_get k config_fields_map = Some name.
Proof.
  revert sorted_decoded_config normalized_fields.
  induction ks as [|k rest IH]; intros acc nf Hks; simpl; [discriminate|].
  destruct (dict_get k config_fields_map) as [nm|] eqn:Ek.
  - destruct (dict_get nm decoded_config) as [value|] eqn:En.
    + unfold bind at 1.
      destruct (check_key_n_value env nm value) as [x | [cname cvalue]]; [discriminate|].
      simpl. intros Hr. apply IH in Hr; [|intros k' Hk'; apply Hks; simpl; auto].
      destruct Hr as [Hn (k' & Hk' & Hg)]. split; [exact Hn|]. exists k'. simpl. auto.
    + simpl. intros [= <-]. split; [exact En|]. exists k. simpl. auto.
  - destruct (Hks k); [simpl; auto | exact Ek].
Qed.

Lemma dict_get_keys (k : Z) (d : dict Z str) :
  In k (dict_keys d) -> dict_get k d <> None.
Proof.
  induction d as [|[k' v] t IH]; simpl; [intros []|].
  destruct (k =? k') eqn:E; [discriminate|].
  intros [<- | Hin]; [rewrite Z.eqb_refl in E; discriminate | apply IH; exact Hin].
Qed.

Lemma remap_fields_fails (ks : list Z) (config_fields_map : dict Z str)
    (decoded_config sorted_decoded_config : config) (normalized_fields : list str) st :
  canonicalize env ks config_fields_map decoded_config = None ->
  exists e,
    fst (remap_fields env ks config_fields_map decoded_config sorted_decoded_config
           normalized_fields st) = Raise e /\ remap_exn e.
Proof.
  revert sorted_decoded_config normalized_fields.
  induction ks as [|k rest IH]; intros acc nf; simpl; [discriminate|].
  destruct (dict_get k config_fields_map) as [name|];
    [|intros _; eexists; split; [reflexivity | exact I]].
  destruct (dict_get name decoded_config) as [value|];
    [|intros _; eexists; split; [reflexivity | exact I]].
  unfold bind at 1.
  destruct (check_key_n_value env name value) as [x | [cname cvalue]];
    [intros _; eexists; split; [reflexivity | exact I]|].
  simpl call. unfold ret at 1.
  destruct (canonicalize env rest config_fields_map decoded_config) as [tl|];
    [discriminate|].
  intros _. apply IH. reflexivity.
Qed.

(** X12. With remapping requested, the remapping stage never changes
    the object.  It returns the remapped mapping when every field name
    of the fields map is still a key of the decoded mapping and
    [check_key_n_value] accepts each of them; otherwise it raises, a
    KeyError or the exception of [check_key_n_value].  A KeyError names a
    field name of the fields map that the decoded mapping lacks. *)
Theorem X12_remap_succeeds_or_key_error (decoded_config : config)
    (config_fields_map : dict Z str) st :
  remap_config = true ->
  is_dict decoded_config ->
  let ids := sorted (dict_keys config_fields_map) in
  let run := remap_or_keep env remap_config decoded_config config_fields_map st in
  snd run = st /\
  (forall entries,
     canonicalize env ids config_fields_map decoded_config = Some entries ->
     fst run = Ok (remapped entries decoded_config) /\ map field_id entries = ids) /\
  (canonicalize env ids config_fields_map decoded_config = None ->
     exists e, fst run = Raise e /\ remap_exn e) /\
  (forall name,
     fst run = Raise (KeyError name) ->
     dict_get name decoded_config = None /\
     exists k, dict_get k config_fields_map = Some name).
Proof.
  intros Hr Hd ids run. subst ids run. split; [apply remap_or_keep_quiet|]. split; [|split].
  - intros entries Hc.
    destruct (remap_or_keep env remap_config decoded_config config_fields_map st)
      as [o st1] eqn:Ek.
    pose proof Ek as Ek'. unfold remap_or_keep in Ek'. rewrite Hr in Ek'.
    unfold bind in Ek'.
    rewrite (remap_fields_total _ _ _ [] [] entries st Hc) in Ek'.
    unfold ret in Ek'. injection Ek' as <- <-.
    pose proof (remap_or_keep_spec env remap_config decoded_config config_fields_map
                  st _ _ Hr Hd Ek) as (entries' & Hc' & Hid & Ho & _).
    rewrite Hc in Hc'. injection Hc' as <-.
    simpl. split; [f_equal; exact Ho | exact Hid].
  - intros Hc. unfold remap_or_keep. rewrite Hr. unfold bind.
    destruct (remap_fields_fails _ config_fields_map decoded_config [] [] st Hc)
      as (e & He & Hre).
    destruct (remap_fields env _ config_fields_map decoded_config [] [] st)
      as [[[acc nf] | e0 |] st1]; simpl in He; try discriminate.
    injection He as ->. exists e. split; [reflexivity | exact Hre].
  - intros name Hk. unfold remap_or_keep in Hk. rewrite Hr in Hk.
    unfold bind in Hk.
    destruct (remap_fields env _ config_fields_map decoded_config [] [] st)
      as [[[acc nf] | e |] st1] eqn:Ef; try discriminate.
    simpl in Hk. injection Hk as ->.
    pose proof (remap_fields_key_error (sorted (dict_keys config_fields_map)) config_fields_map decoded_config [] [] st name)
      as Hke.
    rewrite Ef in Hke. destruct Hke as [Hn (k & _ & Hg)]; [|reflexivity|eauto].
    intros k Hk. apply dict_get_keys.
    eapply Permutation_in; [symmetry; apply sorted_perm | exact Hk].
Qed.

(** ** The threshold only gates the result (lines 171-174) *)

Lemma same_object_logged (e1 e2 : event) st :
  same_object (logged e1 st) (logged e2 st).
Proof. repeat split. Qed.

Lemma blind_ret {A : Type} (a : A) : blind (Decryptor := Decryptor) (ret a).
Proof. intros st1 st2 H. split; [reflexivity | exact H]. Qed.

Lemma blind_raise {A : Type} (e : exn) : blind (Decryptor := Decryptor) (raise (A := A) e).
Proof. intros st1 st2 H. split; [reflexivity | exact H]. Qed.

Lemma blind_call {A : Type} (c : collab A) : blind (Decryptor := Decryptor) (call c).
Proof. destruct c; intros st1 st2 H; (split; [reflexivity | exact H]). Qed.

Lemma blind_bind {A B : Type} (m : M state A) (f : A -> M state B) :
  blind m -> (forall a, blind (f a)) -> blind (bind m f).
Proof.
  intros Hm Hf st1 st2 H. unfold bind. destruct (Hm st1 st2 H) as [Ho Hs].
  destruct (m st1) as [[a1 | e1 |] s1], (m st2) as [[a2 | e2 |] s2]; simpl in *;
    try discriminate.
  - injection Ho as <-. apply Hf. exact Hs.
  - injection Ho as <-. split; [reflexivity | exact Hs].
  - split; [reflexivity | exact Hs].
Qed.

Lemma blind_gets_incompatible :
  blind (gets (_incompatible_decryptors (Decryptor := Decryptor))).
Proof.
  intros st1 st2 H. split; [|exact H]. simpl. f_equal. apply H.
Qed.

Lemma blind_gets_decryptor : blind (gets (_decryptor (Decryptor := Decryptor))).
Proof.
  intros st1 st2 H. split; [|exact H]. simpl. f_equal. apply H.
Qed.

Lemma blind_log (e : event) : blind (log (Decryptor := Decryptor) e).
Proof.
  intros st1 st2 H. split; [reflexivity|]. exact H.
Qed.

Lemma blind_set_decryptor (d : option Decryptor) : blind (modify (set_decryptor d)).
Proof.
  intros st1 st2 (H1 & H2 & H3). split; [reflexivity|]. repeat split; assumption.
Qed.

Lemma blind_mark (k : kind) :
  blind (modify (fun st : state =>
           set_incompatible_decryptors (_incompatible_decryptors st ++ [k]) st)).
Proof.
  intros st1 st2 (H1 & H2 & H3). split; [reflexivity|].
  split; [exact H1|]. split; [simpl; rewrite H2; reflexivity | exact H3].
Qed.

Ltac blind_rule :=
  repeat first
    [ apply blind_ret | apply blind_raise | apply blind_call | apply blind_log
    | apply blind_gets_incompatible | apply blind_gets_decryptor
    | apply blind_set_decryptor | apply blind_mark
    | assumption
    | apply blind_bind; [|intros ?]
    | match goal with
      | |- blind (match ?x with _ => _ end) => destruct x
      end ].

Lemma translate_fields_blind {V : Type} (raw : list (Z * V))
    (config_fields_map : dict Z str) (item_data : dict str V) :
  blind (translate_fields (Decryptor := Decryptor) _dnpp raw config_fields_map item_data).
Proof.
  revert config_fields_map item_data.
  induction raw as [|[k v] rest IH]; intros fm idata; simpl; [apply blind_ret|].
  apply blind_bind; [apply blind_call | intros name; apply IH].
Qed.

Lemma resolve_user_strings_blind (item_data : dict str Z) :
  blind (resolve_user_strings (Decryptor := Decryptor) _dnpp item_data).
Proof.
  induction item_data as [|[k v] rest IH]; simpl; blind_rule.
Qed.

Lemma resolve_byte_arrays_blind (item_data : dict str (Z * Z)) :
  blind (resolve_byte_arrays (Decryptor := Decryptor) _dnpp item_data).
Proof.
  induction item_data as [|[k [size r]] rest IH]; simpl; blind_rule.
Qed.

Lemma decrypt_with_supported_blind (ks : list kind) (item_data : dict str str) :
  blind (decrypt_with_supported env _dnpp ks item_data).
Proof.
  induction ks as [|k rest IH]; simpl; blind_rule.
Qed.

Lemma decrypt_batch_blind (item_data : dict str str) :
  blind (decrypt_batch env _dnpp item_data).
Proof.
  unfold decrypt_batch.
  apply blind_bind; [apply decrypt_with_supported_blind | intros decrypted].
  blind_rule.
Qed.

Lemma decode_item_blind (encrypted_config : bytes) (decoded_config : config)
    (config_fields_map : dict Z str) (item : ConfigItem) :
  blind (decode_item env _dnpp encrypted_config decoded_config config_fields_map item).
Proof.
  destruct item as [parse_from | parse_from | parse_from]; simpl.
  - apply blind_bind; [apply blind_call | intros raw].
    apply blind_bind; [apply translate_fields_blind | intros [fm idata]].
    blind_rule.
  - apply blind_bind; [apply blind_call | intros raw].
    apply blind_bind; [apply translate_fields_blind | intros [fm idata]].
    destruct (0 <? len idata); [|apply blind_ret].
    apply blind_bind; [apply resolve_user_strings_blind | intros strings].
    apply blind_bind; [apply decrypt_batch_blind | intros batch; apply blind_ret].
  - apply blind_bind; [apply blind_call | intros raw].
    apply blind_bind; [apply translate_fields_blind | intros [fm idata]].
    destruct (0 <? len idata); [|apply blind_ret].
    apply blind_bind; [apply resolve_byte_arrays_blind | intros arrays; apply blind_ret].
Qed.

Lemma decode_items_blind (items : list ConfigItem) (encrypted_config : bytes)
    (decoded_config : config) (config_fields_map : dict Z str)
    (item_data : option config) :
  blind (decode_items env _dnpp items encrypted_config decoded_config
                      config_fields_map item_data).
Proof.
  revert decoded_config config_fields_map item_data.
  induction items as [|item rest IH]; intros d f i; simpl; [apply blind_ret|].
  apply blind_bind; [apply decode_item_blind | intros [[d1 f1] i1]; apply IH].
Qed.

Lemma remap_or_keep_const (decoded_config : config) (config_fields_map : dict Z str)
    st1 st2 :
  fst (remap_or_keep env remap_config decoded_config config_fields_map st1)
  = fst (remap_or_keep env remap_config decoded_config config_fields_map st2).
Proof.
  assert (Hf : forall ks acc nf,
            fst (remap_fields env ks config_fields_map decoded_config acc nf st1)
            = fst (remap_fields env ks config_fields_map decoded_config acc nf st2)).
  { induction ks as [|k rest IH]; intros acc nf; simpl; [reflexivity|].
    destruct (dict_get k config_fields_map) as [name|]; [|reflexivity].
    destruct (dict_get name decoded_config) as [value|]; [|reflexivity].
    unfold bind.
    destruct (check_key_n_value env name value) as [x | [cname cvalue]]; [reflexivity|].
    simpl. apply IH. }
  unfold remap_or_keep. destruct remap_config; [|reflexivity].
  unfold bind. specialize (Hf (sorted (dict_keys config_fields_map)) [] []).
  destruct (remap_fields env _ config_fields_map decoded_config [] [] st1)
    as [[[a1 n1] | e1 |] s1],
    (remap_fields env _ config_fields_map decoded_config [] [] st2)
    as [[[a2 n2] | e2 |] s2]; simpl in Hf; try discriminate.
  - injection Hf as <- <-. reflexivity.
  - injection Hf as <-. reflexivity.
  - reflexivity.
Qed.

Lemma decode_items_bound (items : list ConfigItem) (encrypted_config : bytes)
    (decoded_config : config) (config_fields_map : dict Z str)
    (item_data : option config) st d f s :
  decode_items env _dnpp items encrypted_config decoded_config config_fields_map
               item_data st = (Ok (d, f, None), s) ->
  items = [] /\ item_data = None.
Proof.
  revert decoded_config config_fields_map item_data st.
  induction items as [|item rest IH]; intros d0 f0 i0 st; simpl.
  - intros [= _ _ ->]. split; reflexivity.
  - unfold bind at 1.
    destruct (decode_item env _dnpp encrypted_config d0 f0 item st)
      as [[[[d1 f1] i1] | e |] s1]; try discriminate.
    intros H. apply IH in H. destruct H as [_ [=]].
Qed.

(** X14. The threshold only gates the result.  Two calls of the decoder
    on the same bytecode from the same object, with thresholds [t] and
    [t'], leave the same selected decryptor, incompatible classes and
    report.  They have the same outcome unless one of them raises at the
    threshold test: the threshold exception or, with no supported item
    class at all, the unbound [item_data].  A configuration accepted at
    [t] is accepted, the same, at every lower threshold. *)
Theorem X14_threshold_only_gates (encrypted_config : bytes) (t t' : Z) st :
  let r := _decrypt_and_decode_config env _dnpp remap_config encrypted_config t st in
  let r' := _decrypt_and_decode_config env _dnpp remap_config encrypted_config t' st in
  same_object (snd r) (snd r') /\
  (fst r = fst r' \/
   (exists n, fst r = Raise (ThresholdNotMet n t)) \/
   (exists n, fst r' = Raise (ThresholdNotMet n t')) \/
   (SUPPORTED_CONFIG_ITEMS env = [] /\
    (fst r = Raise (UnboundLocalError (lit "item_data")) \/
     fst r' = Raise (UnboundLocalError (lit "item_data"))))) /\
  (forall cfg, t' <= t -> fst r = Ok cfg -> fst r' = Ok cfg).
Proof.
  intros r r'. subst r r'. rewrite !decode_unfold.
  destruct (decode_items_blind (SUPPORTED_CONFIG_ITEMS env) encrypted_config [] [] None
              (logged (CallDecode encrypted_config t) st)
              (logged (CallDecode encrypted_config t') st)
              (same_object_logged _ _ st)) as [Ho Hs].
  destruct (decode_items _ _ _ _ _ _ _ (logged (CallDecode encrypted_config t) st))
    as [[[[d f] i] | e |] s1] eqn:E1,
    (decode_items _ _ _ _ _ _ _ (logged (CallDecode encrypted_config t') st))
    as [[[[d' f'] i'] | e' |] s2]; simpl in Ho, Hs; try discriminate.
  - injection Ho as <- <- <-.
    pose proof (remap_or_keep_quiet d f s1) as Q1.
    pose proof (remap_or_keep_quiet d f s2) as Q2.
    pose proof (remap_or_keep_const d f s1 s2) as Hc.
    rewrite !check_threshold_eq. simpl fst.
    destruct (remap_or_keep env remap_config d f s1) as [o1 q1],
             (remap_or_keep env remap_config d f s2) as [o2 q2].
    simpl in Q1, Q2, Hc. subst q1 q2 o2.
    assert (Hnil : i = None -> SUPPORTED_CONFIG_ITEMS env = []).
    { intros ->. apply decode_items_bound in E1. apply E1. }
    destruct (Z.ltb_spec (len d) t) as [Lt | Lt],
             (Z.ltb_spec (len d) t') as [Lt' | Lt'];
      (destruct i as [i|]; [destruct (dict_mem (lit "UrlHost") i)|]);
      simpl; (split; [exact Hs|]);
      (split;
       [ first [ left; reflexivity
               | right; left; eexists; reflexivity
               | right; right; left; eexists; reflexivity
               | right; right; right; split;
                 [apply Hnil; reflexivity | first [left; reflexivity | right; reflexivity]] ]
       | intros cfg Hle H; first [exact H | discriminate H | lia] ]).
  - injection Ho as <-. split; [exact Hs|].
    split; [left; reflexivity | intros cfg _ [=]].
  - split; [exact Hs|]. split; [left; reflexivity | intros cfg _ [=]].
Qed.

End Strategies.

(** ** What a failed parse reports (lines 86-106) *)

(** X13. The text that a failed parse leaves in the report names one of
    three causes: no source ("File not found"), the exception of the
    payload loader, or "Could not identify config" around the exception of
    the brute force: no static constructor, no valid configuration in
    one, or the exception of a collaborator it called. *)
Theorem X13_failure_causes (file_path : str) (yara_rule : option Rules)
    (input : option bytes) (remap_config preserve_obfuscated_keys : bool) (s : str) :
  report_config_ (report (snd (__init__ env file_path yara_rule input remap_config
                                        preserve_obfuscated_keys))) = ConfigError s ->
  (source_given env file_path input = false /\
   s = failure_text file_path FileNotFound) \/
  (source_given env file_path input = true /\
   exists x, DotNetPEPayload_new env file_path yara_rule input = inl x /\
             s = failure_text file_path (Collaborator x)) \/
  (source_given env file_path input = true /\
   exists _dnpp e,
     DotNetPEPayload_new env file_path yara_rule input = inr _dnpp /\
     s = failure_text file_path (CouldNotIdentifyConfig e) /\
     (e = NoCctorMethod \/ e = NoValidCctorConfig \/ exists x, e = Collaborator x)).
Proof.
  rewrite init_cases. destruct (source_given env file_path input).
  - destruct (DotNetPEPayload_new env file_path yara_rule input) as [x | _dnpp].
    + simpl. intros [= <-]. right. left. split; [reflexivity|].
      exists x. split; reflexivity.
    + pose proof (get_config_raises _dnpp remap_config preserve_obfuscated_keys
                    (loaded file_path _dnpp)) as Hr.
      destruct (get_config_runs env _dnpp remap_config preserve_obfuscated_keys
                  (loaded file_path _dnpp)) as (new & _ & _ & F & _).
      destruct (_get_config env _dnpp remap_config preserve_obfuscated_keys
                  (loaded file_path _dnpp)) as [[cfg | e |] st]; simpl in *.
      * discriminate.
      * intros [= <-]. destruct (Hr e eq_refl) as (e' & -> & He').
        right. right. split; [reflexivity|]. exists _dnpp, e'.
        split; [reflexivity|]. split; [reflexivity | exact He'].
      * congruence.
  - simpl. intros [= <-]. left. split; reflexivity.
Qed.

End More.

(** ** The further properties on the concrete binaries *)

Section ConcreteMore.
Import Demo.

Lemma X1_witness :
  exists tried r st',
    first_success collaborators four_fields false
      (map (fun t => (t, (rva collaborators four_fields_method,
                          m_body four_fields_method))) [9; 8; 7; 6; 5; 4])
      state0 tried r st' /\
    decode_calls (journal st') = decode_calls (journal state0) ++ map attempt_call tried /\
    match r with
    | Some found =>
        _get_config_verify_hash_method collaborators four_fields false state0
        = (Ok found, st')
    | None =>
        exists e st4,
          _get_config_verify_hash_method collaborators four_fields false state0
          = (Raise e, st') /\
          _decrypt_and_decode_config collaborators four_fields false
            (m_body four_fields_method) 4 st4 = (Raise e, st')
    end.
Proof.
  apply (X1_verify_hash_first_success collaborators four_fields false 1
           four_fields_method (m_body four_fields_method) state0); reflexivity.
Defined.

Lemma X6_witness :
  let run := _get_config_cctor_brute_force collaborators two_cctors false state0 in
  fst run = Ok (300, [(lit "Hosts", VInt 2); (lit "Ports", VInt 1);
                      (lit "field_5", VInt 5); (lit "field_6", VInt 6);
                      (lit "field_7", VInt 7);
                      (lit "field_133", VStr (lit "plain_enc_133"))]) /\
  (_MIN_CONFIG_LEN_FLOOR <= 6 \/
   exists t method_body st1 config_fields_map last,
     decode_items collaborators two_cctors (SUPPORTED_CONFIG_ITEMS collaborators)
                  method_body [] [] None (logged (CallDecode method_body t) st1)
     = (Ok ([(lit "Hosts", VInt 2); (lit "Ports", VInt 1);
             (lit "field_5", VInt 5); (lit "field_6", VInt 6);
             (lit "field_7", VInt 7);
             (lit "field_133", VStr (lit "plain_enc_133"))],
            config_fields_map, Some last), snd run) /\
     dict_mem (lit "UrlHost") last = true).
Proof.
  intros run. split; [vm_compute; reflexivity|].
  apply (X6_brute_force_floor collaborators two_cctors false state0 300
           [(lit "Hosts", VInt 2); (lit "Ports", VInt 1);
            (lit "field_5", VInt 5); (lit "field_6", VInt 6);
            (lit "field_7", VInt 7);
            (lit "field_133", VStr (lit "plain_enc_133"))]
           (snd run)); [reflexivity | vm_compute; reflexivity].
Defined.

Lemma X7_witness :
  let run := _get_config_verify_hash_method collaborators four_fields false state0 in
  _MIN_CONFIG_LEN_FLOOR - 1 <= 4 \/
  exists t method_body st1 config_fields_map last,
    decode_items collaborators four_fields (SUPPORTED_CONFIG_ITEMS collaborators)
                 method_body [] [] None (logged (CallDecode method_body t) st1)
    = (Ok ([(lit "field_5", VInt 5); (lit "field_6", VInt 6);
            (lit "field_7", VInt 7); (lit "field_8", VInt 8)],
           config_fields_map, Some last), snd run) /\
    dict_mem (lit "UrlHost") last = true.
Proof.
  intros run.
  apply (X7_verify_hash_floor collaborators four_fields false state0 100
           [(lit "field_5", VInt 5); (lit "field_6", VInt 6);
            (lit "field_7", VInt 7); (lit "field_8", VInt 8)]
           (snd run)); [reflexivity | vm_compute; reflexivity].
Defined.

Lemma X9_witness :
  let d := {| d_class := 2%N; d_key := None; d_salt := None |} in
  let st := set_decryptor (Some d) state0 in
  let run := decrypt_batch collaborators two_cctors [(lit "field_133", lit "enc_133")] st in
  run = (Ok [(lit "field_133", VStr (lit "plain_enc_133"))],
         set_decryptor
           (Some {| d_class := 2%N; d_key := Some [xde; xad];
                    d_salt := Some [x01; xff] |}) st) /\
  journal (snd run) = journal st /\
  _incompatible_decryptors (snd run) = _incompatible_decryptors st.
Proof.
  intros d st run.
  apply (X9_selected_decryptor_reused collaborators two_cctors
           [(lit "field_133", lit "enc_133")] st d).
  - reflexivity.
  - reflexivity.
  - exists 1%N. split; [simpl; auto | reflexivity].
Defined.

Lemma X10_witness :
  let st := set_incompatible_decryptors [1%N; 2%N] state0 in
  exists st',
    decrypt_batch collaborators two_cctors [(lit "field_133", lit "enc_133")] st
    = (Raise AllDecryptorsFailed, st') /\
    _decryptor st' = None /\
    (forall k, In k (SUPPORTED_DECRYPTORS collaborators) ->
       In k (_incompatible_decryptors st')) /\
    (forall later,
       decrypt_batch collaborators two_cctors later st' = (Raise AllDecryptorsFailed, st')).
Proof.
  intros st.
  apply (X10_no_compatible_decryptor collaborators two_cctors
           [(lit "field_133", lit "enc_133")] st).
  - reflexivity.
  - intros k [<- | [<- | [<- | []]]].
    + right. exists (incompatible "no AES marker"). split; reflexivity.
    + left. simpl. auto.
    + left. simpl. auto.
Defined.

Lemma X11_witness :
  let st' := snd (_decrypt_and_decode_config collaborators six_plain false
                    (m_body plain_cctor) 6 state0) in
  st' = logged (CallDecode (m_body plain_cctor) 6) state0 /\
  _decryptor st' = _decryptor state0 /\
  _incompatible_decryptors st' = _incompatible_decryptors state0 /\
  journal st' = journal state0 ++ [CallDecode (m_body plain_cctor) 6].
Proof.
  apply (X11_no_encrypted_string_no_selection collaborators six_plain false
           (m_body plain_cctor) 6 state0).
  repeat constructor.
Defined.

Lemma X12_witness :
  let decoded_config := [(lit "Hosts", VInt 2); (lit "Ports", VInt 1)] in
  let config_fields_map := [(2, lit "Hosts"); (1, lit "Ports")] in
  remap_or_keep collaborators true decoded_config config_fields_map state0
  = (Ok [(lit "port", VInt 1); (lit "Hosts", VInt 2)], state0).
Proof.
  intros decoded_config config_fields_map.
  destruct (X12_remap_succeeds_or_key_error collaborators true decoded_config
              config_fields_map state0) as (Hs & Ho & _).
  - reflexivity.
  - repeat constructor; simpl; intuition discriminate.
  - destruct (Ho [ {| field_id := 1; original_name := lit "Ports";
                      canonical_name := lit "port"; canonical_value := VInt 1 |};
                   {| field_id := 2; original_name := lit "Hosts";
                      canonical_name := lit "Hosts"; canonical_value := VInt 2 |} ]
                 eq_refl) as [Hr _].
    destruct (remap_or_keep collaborators true decoded_config config_fields_map state0)
      as [o s]. simpl in Hs, Hr. subst o s. reflexivity.
Defined.

Lemma X13_witness :
  let s := failure_text (lit "empty.exe") (CouldNotIdentifyConfig NoCctorMethod) in
  (source_given collaborators (lit "empty.exe") None = false /\
   s = failure_text (lit "empty.exe") FileNotFound) \/
  (source_given collaborators (lit "empty.exe") None = true /\
   exists x, DotNetPEPayload_new collaborators (lit "empty.exe") None None = inl x /\
             s = failure_text (lit "empty.exe") (Collaborator x)) \/
  (source_given collaborators (lit "empty.exe") None = true /\
   exists _dnpp e,
     DotNetPEPayload_new collaborators (lit "empty.exe") None None = inr _dnpp /\
     s = failure_text (lit "empty.exe") (CouldNotIdentifyConfig e) /\
     (e = NoCctorMethod \/ e = NoValidCctorConfig \/ exists x, e = Collaborator x)).
Proof.
  intros s.
  apply (X13_failure_causes collaborators (lit "empty.exe") None None false false s).
  vm_compute. reflexivity.
Defined.

End ConcreteMore.
